(** * Store-rating REST API: shallow embedding of the route handlers

    The development follows the Express route files of the server
    ([routes/ratings.js], [routes/stores.js], [routes/admin.js],
    [routes/users.js], the auth routes) and [database/schema.sql].

    - a PostgreSQL database is a record of three tables (lists of rows, in
      physical order) and three SERIAL sequences;
    - every SQL statement issued by a handler is a function over that record
      which enforces the constraints of [schema.sql];
    - [pool.query] and the [try { ... } catch (error) { ... }] blocks of the
      handlers live in a small state-and-exception monad [M] whose state
      survives a thrown exception, as the database does;
    - numbers of JavaScript and NUMERIC values of PostgreSQL are exact
      rationals; timestamps are seconds on an integer clock. *)

From Stdlib Require Import List String Ascii ZArith QArith Lia Bool Arith.
From Stdlib Require Import Permutation.
Import ListNotations.

Set Warnings "-register-all".

Local Open Scope string_scope.
Local Open Scope Z_scope.

(* ================================================================== *)
(** ** JavaScript values and the few built-ins the handlers call *)

Module Js.

(** A value read from a JSON body. *)
Inductive value :=
| undefined
| null
| number (q : Q)
| str (s : string).

(** [x || null] for an optional string: [undefined], [null] and the empty
    string are falsy. *)
Definition or_null (x : option string) : option string :=
  match x with
  | Some s => if (s =? "")%string then None else Some s
  | None => None
  end.

(** Truthiness of an optional query-string parameter: [if (search)]. *)
Definition truthy (x : option string) : bool :=
  match x with
  | Some s => negb (s =? "")%string
  | None => false
  end.

(** Destructuring default: [{ sortBy = 'name' } = req.query]. *)
Definition default {A} (x : option A) (d : A) : A :=
  match x with Some v => v | None => d end.

Definition lower_ascii (c : ascii) : ascii :=
  let n := nat_of_ascii c in
  if ((65 <=? n) && (n <=? 90))%nat then ascii_of_nat (n + 32) else c.

Definition upper_ascii (c : ascii) : ascii :=
  let n := nat_of_ascii c in
  if ((97 <=? n) && (n <=? 122))%nat then ascii_of_nat (n - 32) else c.

Fixpoint map_string (f : ascii -> ascii) (s : string) : string :=
  match s with
  | EmptyString => EmptyString
  | String c s' => String (f c) (map_string f s')
  end.

(** [String.prototype.toLowerCase] / [toUpperCase] on the ASCII letters;
    the other bytes of a UTF-8 string are left as they are, which decides
    membership in the ASCII allow-lists as JavaScript does. *)
Definition toLowerCase : string -> string := map_string lower_ascii.
Definition toUpperCase : string -> string := map_string upper_ascii.

(** [Array.prototype.includes] on an array of strings. *)
Definition includes (xs : list string) (x : string) : bool :=
  existsb (String.eqb x) xs.

(** The integer a number is, if it is one. *)
Definition integral (q : Q) : option Z :=
  let r := Qred q in
  if (Qden r =? 1)%positive then Some (Qnum r) else None.

(** [Math.ceil(a / b)] on integers; [None] is the non-finite result
    ([Infinity] or [NaN]) of a division by zero, which [res.json] prints
    as [null]. *)
Definition Math_ceil_div (a b : Z) : option Z :=
  if b =? 0 then None else Some (- ((- a) / b)).

End Js.

(* ================================================================== *)
(** ** JSON documents sent by [res.json] *)

Inductive json :=
| Jnull
| Jint (z : Z)
| Jnum (q : Q)
| Jstr (s : string)
| Jarr (xs : list json)
| Jobj (fields : list (string * json)).

Definition Jopt_str (x : option string) : json :=
  match x with Some s => Jstr s | None => Jnull end.

Definition Jopt_int (x : option Z) : json :=
  match x with Some z => Jint z | None => Jnull end.

Definition Jopt_num (x : option Q) : json :=
  match x with Some q => Jnum q | None => Jnull end.

Definition json_of_value (v : Js.value) : json :=
  match v with
  | Js.undefined => Jnull
  | Js.null => Jnull
  | Js.number q => Jnum q
  | Js.str s => Jstr s
  end.

Fixpoint assoc {A} (k : string) (fs : list (string * A)) : option A :=
  match fs with
  | [] => None
  | (k', v) :: fs' => if (k =? k')%string then Some v else assoc k fs'
  end.

(** Property access on a JSON object. *)
Definition field (k : string) (j : json) : option json :=
  match j with
  | Jobj fs => assoc k fs
  | _ => None
  end.

Record response := { status : Z; body : json }.

(** [res.json(b)] and [res.status(n).json(b)]. *)
Definition res_json (b : json) : response := {| status := 200; body := b |}.
Definition res_status_json (n : Z) (b : json) : response :=
  {| status := n; body := b |}.

Definition message (m : string) : json := Jobj [("message", Jstr m)].

(** The generic internal-error response of every [catch] block but one. *)
Definition internal_server_error : response :=
  res_status_json 500 (message "Internal server error").

(** Exceptions a handler's [try] block can catch. *)
Inductive exn :=
| DatabaseError (msg : string)
| TypeError (msg : string)
| Error (msg : string).

(* ================================================================== *)
(** ** PostgreSQL: parameter values, input conversion, ILIKE, aggregates *)

Module Pg.

(** A bound parameter, as node-postgres hands it over. *)
Inductive value :=
| Null
| Int (z : Z)
| Num (q : Q)
| Text (s : string).

(** [prepareValue]: how a JavaScript value is bound. *)
Definition of_js (v : Js.value) : value :=
  match v with
  | Js.undefined => Null
  | Js.null => Null
  | Js.number q => Num q
  | Js.str s => Text s
  end.

Definition of_opt_text (x : option string) : value :=
  match x with Some s => Text s | None => Null end.

Definition result (A : Type) : Type := (exn + A)%type.

Definition ok {A} (x : A) : result A := inr x.
Definition raise {A} (m : string) : result A := inl (DatabaseError m).

Definition rbind {A B} (m : result A) (k : A -> result B) : result B :=
  match m with
  | inl e => inl e
  | inr x => k x
  end.

Definition is_space (c : ascii) : bool :=
  let n := nat_of_ascii c in
  ((n =? 32) || ((9 <=? n) && (n <=? 13)))%nat.

Definition is_digit (c : ascii) : bool :=
  let n := nat_of_ascii c in ((48 <=? n) && (n <=? 57))%nat.

Fixpoint skip_spaces (cs : list ascii) : list ascii :=
  match cs with
  | c :: cs' => if is_space c then skip_spaces cs' else cs
  | [] => []
  end.

(** Digits read so far are accumulated in [acc]; what follows the digits
    may only be white space. *)
Fixpoint read_digits (acc : Z) (cs : list ascii) : option Z :=
  match cs with
  | [] => Some acc
  | c :: cs' =>
      if is_digit c
      then read_digits (10 * acc + Z.of_nat (nat_of_ascii c - 48)) cs'
      else match skip_spaces cs with
           | [] => Some acc
           | _ => None
           end
  end.

Definition starts_with_digit (cs : list ascii) : bool :=
  match cs with
  | c :: _ => is_digit c
  | [] => false
  end.

(** The text input routine of the integer type: optional white space,
    optional sign, at least one digit, optional white space. *)
Definition parse_integer (s : string) : option Z :=
  let cs := skip_spaces (list_ascii_of_string s) in
  match cs with
  | "-"%char :: ds =>
      if starts_with_digit ds
      then option_map Z.opp (read_digits 0 ds) else None
  | "+"%char :: ds =>
      if starts_with_digit ds then read_digits 0 ds else None
  | _ => if starts_with_digit cs then read_digits 0 cs else None
  end.

Definition int4_min : Z := - 2147483648.
Definition int4_max : Z := 2147483647.
Definition int8_min : Z := - 9223372036854775808.
Definition int8_max : Z := 9223372036854775807.

Definition in_range (lo hi z : Z) : result Z :=
  if (lo <=? z) && (z <=? hi) then ok z
  else raise "value out of range for the integer type".

(** A parameter used where the statement needs an integer of the range
    [lo..hi]; [None] is SQL NULL. A number is bound through its decimal
    text, so only an integral one is read. *)
Definition integer_in (lo hi : Z) (v : value) : result (option Z) :=
  match v with
  | Null => ok None
  | Int z => rbind (in_range lo hi z) (fun z' => ok (Some z'))
  | Num q =>
      match Js.integral q with
      | Some z => rbind (in_range lo hi z) (fun z' => ok (Some z'))
      | None => raise "invalid input syntax for type integer"
      end
  | Text s =>
      match parse_integer s with
      | Some z => rbind (in_range lo hi z) (fun z' => ok (Some z'))
      | None => raise "invalid input syntax for type integer"
      end
  end.

(** INTEGER columns, and the BIGINT operands of LIMIT and OFFSET. *)
Definition int4_in : value -> result (option Z) :=
  integer_in int4_min int4_max.
Definition int8_in : value -> result (option Z) :=
  integer_in int8_min int8_max.

(** A parameter used where the statement needs TEXT. Numbers are never
    bound to text columns by the handlers modelled here. *)
Definition text_in (v : value) : result (option string) :=
  match v with
  | Null => ok None
  | Text s => ok (Some s)
  | Int _ | Num _ => raise "unexpected numeric parameter for text"
  end.

(** Parameter [$n] of a statement (numbered from 1). *)
Definition param (n : nat) (values : list value) : result value :=
  match nth_error values (n - 1) with
  | Some v => ok v
  | None => raise "there is no parameter for this placeholder"
  end.

(** [x = $n] on a NOT NULL integer column: never true for NULL. *)
Definition eq_int (x : Z) (p : option Z) : bool :=
  match p with Some z => x =? z | None => false end.

Definition eq_text (x : string) (p : option string) : bool :=
  match p with Some s => (x =? s)%string | None => false end.

(** [LIKE] on lists of characters, letters compared through [fold]:
    [%] matches any run, [_] one character, a backslash escapes. *)
Fixpoint like_chars (fold : ascii -> ascii) (p s : list ascii) : bool :=
  match p with
  | [] => match s with [] => true | _ => false end
  | "%"%char :: p' =>
      (fix any (t : list ascii) : bool :=
         like_chars fold p' t
         || match t with [] => false | _ :: t' => any t' end) s
  | "_"%char :: p' =>
      match s with [] => false | _ :: s' => like_chars fold p' s' end
  | "\"%char :: p' =>
      match p' with
      | [] => false
      | c :: p'' =>
          match s with
          | [] => false
          | d :: s' => Ascii.eqb (fold c) (fold d) && like_chars fold p'' s'
          end
      end
  | c :: p' =>
      match s with
      | [] => false
      | d :: s' => Ascii.eqb (fold c) (fold d) && like_chars fold p' s'
      end
  end.

(** [subject ILIKE pattern]. *)
Definition ilike (subject pattern : string) : bool :=
  like_chars Js.lower_ascii
    (list_ascii_of_string pattern) (list_ascii_of_string subject).

(** Aggregates over the non-NULL values of a group. *)
Definition sum (xs : list Z) : Z := fold_right Z.add 0 xs.

Definition count {A} (xs : list A) : Z := Z.of_nat (List.length xs).

(** [AVG]: NULL on an empty group, else the exact mean. *)
Definition avg (xs : list Z) : option Q :=
  match xs with
  | [] => None
  | _ => Some (Qmake (sum xs) (Pos.of_nat (List.length xs)))
  end.

Definition min (xs : list Z) : option Z :=
  match xs with
  | [] => None
  | x :: xs' => Some (fold_right Z.min x xs')
  end.

Definition max (xs : list Z) : option Z :=
  match xs with
  | [] => None
  | x :: xs' => Some (fold_right Z.max x xs')
  end.

Definition coalesce {A} (x : option A) (d : A) : A :=
  match x with Some v => v | None => d end.

(** Values of the non-NULL entries of a nullable column. *)
Definition non_null {A} (xs : list (option A)) : list A :=
  flat_map (fun x => match x with Some v => [v] | None => [] end) xs.

(** Stable insertion sort: [ORDER BY] with [le] as the order. *)
Fixpoint insert_sorted {A} (le : A -> A -> bool) (x : A) (l : list A)
  : list A :=
  match l with
  | [] => [x]
  | y :: l' => if le x y then x :: l else y :: insert_sorted le x l'
  end.

Definition order_by {A} (le : A -> A -> bool) (l : list A) : list A :=
  fold_right (insert_sorted le) [] l.

(** [LIMIT l OFFSET o]; neither may be negative, a NULL limit is no
    limit and a NULL offset is 0. *)
Definition limit_offset {A} (l o : option Z) (rows : list A)
  : result (list A) :=
  if coalesce l 0 <? 0 then raise "LIMIT must not be negative"
  else if coalesce o 0 <? 0 then raise "OFFSET must not be negative"
  else let rest := skipn (Z.to_nat (coalesce o 0)) rows in
       ok (match l with
           | Some n => firstn (Z.to_nat n) rest
           | None => rest
           end).

(** [DATE(t)] of a timestamp in seconds, and an interval of days. *)
Definition date (t : Z) : Z := t / 86400.
Definition days (n : Z) : Z := n * 86400.

(** [SELECT DISTINCT] on integers. *)
Definition distinct (xs : list Z) : list Z := nodup Z.eq_dec xs.

End Pg.

Notation "x <~ m ;; k" := (Pg.rbind m (fun x => k))
  (at level 61, m at next level, right associativity).

(* ================================================================== *)
(** ** The schema of [database/schema.sql] *)

Module Schema.

Record user := {
  u_id : Z;
  u_name : string;
  u_email : string;
  u_password_hash : string;
  u_address : string;
  u_role : string;
  u_created_at : Z;
  u_updated_at : Z
}.

Record store := {
  s_id : Z;
  s_name : string;
  s_email : string;
  s_address : string;
  s_owner_id : option Z;
  s_created_at : Z;
  s_updated_at : Z
}.

Record rating := {
  r_id : Z;
  r_user_id : Z;
  r_store_id : Z;
  r_rating : Z;
  r_comment : option string;
  r_created_at : Z;
  r_updated_at : Z
}.

(** The three tables, and the next value of each SERIAL sequence. *)
Record database := {
  users : list user;
  stores : list store;
  ratings : list rating;
  users_id_seq : Z;
  stores_id_seq : Z;
  ratings_id_seq : Z
}.

Definition with_ratings (rs : list rating) (d : database) : database :=
  {| users := users d; stores := stores d; ratings := rs;
     users_id_seq := users_id_seq d; stores_id_seq := stores_id_seq d;
     ratings_id_seq := ratings_id_seq d |}.

Definition with_ratings_id_seq (n : Z) (d : database) : database :=
  {| users := users d; stores := stores d; ratings := ratings d;
     users_id_seq := users_id_seq d; stores_id_seq := stores_id_seq d;
     ratings_id_seq := n |}.

Definition with_users (us : list user) (d : database) : database :=
  {| users := us; stores := stores d; ratings := ratings d;
     users_id_seq := users_id_seq d; stores_id_seq := stores_id_seq d;
     ratings_id_seq := ratings_id_seq d |}.

Definition with_users_id_seq (n : Z) (d : database) : database :=
  {| users := users d; stores := stores d; ratings := ratings d;
     users_id_seq := n; stores_id_seq := stores_id_seq d;
     ratings_id_seq := ratings_id_seq d |}.

(** [CHECK (rating >= 1 AND rating <= 5)]. *)
Definition rating_check (z : Z) : bool := (1 <=? z) && (z <=? 5).

(** [CHECK (role IN ('system_admin', 'normal_user', 'store_owner'))]. *)
Definition role_check (r : string) : bool :=
  Js.includes ["system_admin"; "normal_user"; "store_owner"] r.

Definition strlen (s : string) : Z := Z.of_nat (String.length s).

(** [name VARCHAR(60) NOT NULL CHECK (LENGTH(name) >= 20)]. *)
Definition name_check (n : string) : bool :=
  (20 <=? strlen n) && (strlen n <=? 60).

(** Rows of [ratings] on the pair of [UNIQUE(user_id, store_id)]. *)
Definition same_pair (uid sid : Z) (r : rating) : bool :=
  (r_user_id r =? uid) && (r_store_id r =? sid).

Definition has_user (d : database) (uid : Z) : bool :=
  existsb (fun u => u_id u =? uid) (users d).

Definition has_store (d : database) (sid : Z) : bool :=
  existsb (fun s => s_id s =? sid) (stores d).

(** What the engine maintains: the primary keys, [UNIQUE(user_id,
    store_id)] on ratings, [UNIQUE] on user emails, ids of the INTEGER
    type, sequences ahead of the ids they have handed out, and tables whose
    row count is a BIGINT. *)
Record consistent (d : database) : Prop := {
  users_pk : NoDup (map u_id (users d));
  stores_pk : NoDup (map s_id (stores d));
  ratings_pk : NoDup (map r_id (ratings d));
  ratings_unique :
    NoDup (map (fun r => (r_user_id r, r_store_id r)) (ratings d));
  users_email_unique : NoDup (map u_email (users d));
  users_int4 :
    forall u, In u (users d) -> Pg.int4_min <= u_id u <= Pg.int4_max;
  stores_int4 :
    forall s, In s (stores d) -> Pg.int4_min <= s_id s <= Pg.int4_max;
  users_seq_fresh : forall u, In u (users d) -> u_id u < users_id_seq d;
  ratings_seq_fresh :
    forall r, In r (ratings d) -> r_id r < ratings_id_seq d;
  stores_countable : Z.of_nat (List.length (stores d)) <= Pg.int8_max;
  users_countable : Z.of_nat (List.length (users d)) <= Pg.int8_max
}.

End Schema.

(* ================================================================== *)
(** ** The world a request runs in, and the handler monad *)

Module Effects.

Import Schema.

(** [faults] is the fate of the coming [pool.query] calls, one flag per
    call: [true] makes the call fail before it reaches the tables (lost
    connection, time-out). An exhausted list means no more faults.
    [query_failures] counts the calls that failed so far, [console] holds
    the lines of [console.error]. [salts] feeds [bcrypt.hash]; the two
    [env_] fields are [process.env.JWT_SECRET] and
    [process.env.JWT_EXPIRES_IN]. *)
Record world := {
  db : database;
  now : Z;
  faults : list bool;
  query_failures : nat;
  console : list string;
  salts : list string;
  env_JWT_SECRET : option string;
  env_JWT_EXPIRES_IN : option string
}.

Definition with_db (d : database) (w : world) : world :=
  {| db := d; now := now w; faults := faults w;
     query_failures := query_failures w; console := console w;
     salts := salts w; env_JWT_SECRET := env_JWT_SECRET w;
     env_JWT_EXPIRES_IN := env_JWT_EXPIRES_IN w |}.

Definition with_now (t : Z) (w : world) : world :=
  {| db := db w; now := t; faults := faults w;
     query_failures := query_failures w; console := console w;
     salts := salts w; env_JWT_SECRET := env_JWT_SECRET w;
     env_JWT_EXPIRES_IN := env_JWT_EXPIRES_IN w |}.

Definition with_faults (fs : list bool) (w : world) : world :=
  {| db := db w; now := now w; faults := fs;
     query_failures := query_failures w; console := console w;
     salts := salts w; env_JWT_SECRET := env_JWT_SECRET w;
     env_JWT_EXPIRES_IN := env_JWT_EXPIRES_IN w |}.

Definition with_salts (ss : list string) (w : world) : world :=
  {| db := db w; now := now w; faults := faults w;
     query_failures := query_failures w; console := console w;
     salts := ss; env_JWT_SECRET := env_JWT_SECRET w;
     env_JWT_EXPIRES_IN := env_JWT_EXPIRES_IN w |}.

Definition count_failure (w : world) : world :=
  {| db := db w; now := now w; faults := faults w;
     query_failures := S (query_failures w); console := console w;
     salts := salts w; env_JWT_SECRET := env_JWT_SECRET w;
     env_JWT_EXPIRES_IN := env_JWT_EXPIRES_IN w |}.

Definition log_line (l : string) (w : world) : world :=
  {| db := db w; now := now w; faults := faults w;
     query_failures := query_failures w; console := l :: console w;
     salts := salts w; env_JWT_SECRET := env_JWT_SECRET w;
     env_JWT_EXPIRES_IN := env_JWT_EXPIRES_IN w |}.

(** A computation either throws or returns; the world it leaves behind is
    kept in both cases. *)
Definition M (A : Type) : Type := world -> (exn + A) * world.

Definition ret {A} (x : A) : M A := fun w => (inr x, w).

Definition throw {A} (e : exn) : M A := fun w => (inl e, w).

Definition bind {A B} (m : M A) (k : A -> M B) : M B :=
  fun w =>
    match m w with
    | (inl e, w') => (inl e, w')
    | (inr x, w') => k x w'
    end.

(** A computation that throws from every world. *)
Definition throws {A} (m : M A) : Prop :=
  forall w, exists e w', m w = (inl e, w').

(** A computation in which a failed query is an exception: whenever the
    count of failed queries has grown, the computation has thrown. *)
Definition fail_stop {A} (m : M A) : Prop :=
  forall w r w',
    m w = (r, w') ->
    (query_failures w <= query_failures w')%nat
    /\ ((query_failures w < query_failures w')%nat -> exists e, r = inl e).

(** [try { body } catch (error) { handler }]. *)
Definition try_catch {A} (body : M A) (handler : exn -> M A) : M A :=
  fun w =>
    match body w with
    | (inl e, w') => handler e w'
    | (inr x, w') => (inr x, w')
    end.

Definition console_error (label : string) : M unit :=
  fun w => (inr tt, log_line label w).

(** Assignment to a binding declared with [const]: the engine throws
    [TypeError: Assignment to constant variable.] when it is executed. *)
Definition assign_const {A} (name : string) (_ : A) : M unit :=
  throw (TypeError "Assignment to constant variable.").

(** A statement: its number of placeholders, and its effect on the tables
    given the bound values and the current time. A statement that fails
    can still leave a trace (a consumed sequence value). *)
Record statement (R : Type) := {
  placeholders : nat;
  exec : list Pg.value -> Z -> database -> Pg.result R * database
}.
Arguments placeholders {R}.
Arguments exec {R}.

Definition next_faults (fs : list bool) : list bool := tl fs.

Definition fault_now (fs : list bool) : bool :=
  match fs with b :: _ => b | [] => false end.

(** [await pool.query(text, values)]. The server rejects a call whose
    number of values differs from the number of placeholders. *)
Definition pool_query {R} (st : statement R) (values : list Pg.value)
  : M R :=
  fun w =>
    let w1 := with_faults (next_faults (faults w)) w in
    if fault_now (faults w)
    then (inl (DatabaseError "connection failure"), count_failure w1)
    else if negb (List.length values =? placeholders st)%nat
    then (inl (DatabaseError
                 "bind message supplies the wrong number of parameters"),
          count_failure w1)
    else match exec st values (now w) (db w) with
         | (inl e, d') => (inl e, count_failure (with_db d' w1))
         | (inr rows, d') => (inr rows, with_db d' w1)
         end.

(** The catch block shared by the handlers. *)
Definition catch_500 (label : string) (body : M response) : M response :=
  try_catch body
    (fun _ => bind (console_error label)
                   (fun _ => ret internal_server_error)).

(** Run a handler: the response it sends, and the world afterwards. A
    handler's own [catch] leaves nothing uncaught; an exception that still
    escapes reaches the error middleware of the application. *)
Definition run (h : M response) (w : world) : response * world :=
  match h w with
  | (inr r, w') => (r, w')
  | (inl _, w') =>
      (res_status_json 500
         (Jobj [("message", Jstr "Something went wrong!")]), w')
  end.

(** A computation that leaves the ratings table as it found it. *)
Definition keeps_ratings {A} (m : M A) : Prop :=
  forall w, ratings (db (snd (m w))) = ratings (db w).

(** A handler that answers a failed query with the internal error. *)
Definition surfaces (h : M response) : Prop :=
  forall w,
    (query_failures w < query_failures (snd (run h w)))%nat ->
    fst (run h w) = internal_server_error.

End Effects.

Notation "x <- m ;; k" := (Effects.bind m (fun x => k))
  (at level 61, m at next level, right associativity).

(* ================================================================== *)
(** ** Building blocks shared by the statements *)

Module SqlBase.

Import Schema Effects.

(** A statement that only reads. *)
Definition reading {R} (n : nat)
    (f : list Pg.value -> Z -> database -> Pg.result R) : statement R :=
  {| placeholders := n; exec := fun vs t d => (f vs t d, d) |}.

(** A statement that fails or replaces the tables as a whole. *)
Definition writing {R} (n : nat)
    (f : list Pg.value -> Z -> database -> Pg.result (R * database))
  : statement R :=
  {| placeholders := n;
     exec := fun vs t d =>
               match f vs t d with
               | inl e => (inl e, d)
               | inr (r, d') => (inr r, d')
               end |}.

Definition int_param (n : nat) (vs : list Pg.value)
  : Pg.result (option Z) :=
  p <~ Pg.param n vs ;; Pg.int4_in p.

Definition bigint_param (n : nat) (vs : list Pg.value)
  : Pg.result (option Z) :=
  p <~ Pg.param n vs ;; Pg.int8_in p.

Definition text_param (n : nat) (vs : list Pg.value)
  : Pg.result (option string) :=
  p <~ Pg.param n vs ;; Pg.text_in p.

(** The distinct values of a list, in order of first appearance. *)
Fixpoint distinct_by {K} (eqb : K -> K -> bool) (ks : list K) : list K :=
  match ks with
  | [] => []
  | k :: ks' => k :: filter (fun k' => negb (eqb k k')) (distinct_by eqb ks')
  end.

(** [GROUP BY key]: the groups, in order of first appearance. *)
Definition group_by {A K} (eqb : K -> K -> bool) (key : A -> K)
    (rows : list A) : list (K * list A) :=
  map (fun k => (k, filter (fun r => eqb (key r) k) rows))
      (distinct_by eqb (map key rows)).

(** The [ORDER BY <column> <direction>] that a handler splices into the
    text of a statement: [columns] are the sort keys the statement knows,
    anything else is rejected by the parser of the server. *)
Definition order_clause {A} (columns : list (string * (A -> A -> bool)))
    (column direction : string) : Pg.result (A -> A -> bool) :=
  match assoc column columns with
  | None => Pg.raise "column does not exist"
  | Some le =>
      if (direction =? "ASC")%string then Pg.ok le
      else if (direction =? "DESC")%string then Pg.ok (fun a b => le b a)
      else Pg.raise "syntax error in ORDER BY"
  end.

Definition by_int {A} (key : A -> Z) : A -> A -> bool :=
  fun a b => key a <=? key b.

(** Text keys are compared byte-wise. *)
Definition by_text {A} (key : A -> string) : A -> A -> bool :=
  fun a b => String.leb (key a) (key b).

End SqlBase.

(* ================================================================== *)
(** ** The SQL statements of [routes/ratings.js] *)

Module RatingsSql.

Import Schema Effects SqlBase.

(** [SELECT id FROM stores WHERE id = $1] *)
Definition select_store_id : statement (list Z) :=
  reading 1 (fun vs _ d =>
    id <~ int_param 1 vs ;;
    Pg.ok (map s_id (filter (fun s => Pg.eq_int (s_id s) id) (stores d)))).

Definition pair_matches (uid sid : option Z) (r : rating) : bool :=
  Pg.eq_int (r_user_id r) uid && Pg.eq_int (r_store_id r) sid.

(** [SELECT id, rating, comment FROM ratings
     WHERE user_id = $1 AND store_id = $2] *)
Definition select_rating_of_user_for_store
  : statement (list (Z * Z * option string)) :=
  reading 2 (fun vs _ d =>
    uid <~ int_param 1 vs ;;
    sid <~ int_param 2 vs ;;
    Pg.ok (map (fun r => (r_id r, r_rating r, r_comment r))
               (filter (pair_matches uid sid) (ratings d)))).

(** The [SET rating = .., comment = .., updated_at = CURRENT_TIMESTAMP]
    of both UPDATE statements, on one row. *)
Definition set_rating (value : Z) (comment : option string) (t : Z)
    (r : rating) : rating :=
  {| r_id := r_id r; r_user_id := r_user_id r; r_store_id := r_store_id r;
     r_rating := value; r_comment := comment;
     r_created_at := r_created_at r; r_updated_at := t |}.

(** An UPDATE of the rows selected by [sel]: [rating] is NOT NULL and
    CHECKed on every row it touches; the statement changes all selected
    rows or none. *)
Definition update_ratings_where (sel : rating -> bool)
    (value : option Z) (comment : option string) (t : Z) (d : database)
  : Pg.result (unit * database) :=
  if existsb sel (ratings d)
  then match value with
       | None =>
           Pg.raise "null value in column rating violates not-null constraint"
       | Some v =>
           if rating_check v
           then Pg.ok (tt, with_ratings
                             (map (fun r => if sel r
                                            then set_rating v comment t r
                                            else r) (ratings d)) d)
           else Pg.raise "new row violates check constraint ratings_rating_check"
       end
  else Pg.ok (tt, d).

(** [UPDATE ratings
     SET rating = $1, comment = $2, updated_at = CURRENT_TIMESTAMP
     WHERE user_id = $3 AND store_id = $4] *)
Definition update_rating_of_user_for_store : statement unit :=
  writing 4 (fun vs t d =>
    value <~ int_param 1 vs ;;
    comment <~ text_param 2 vs ;;
    uid <~ int_param 3 vs ;;
    sid <~ int_param 4 vs ;;
    update_ratings_where (pair_matches uid sid) value comment t d).

Record store_stats := { average_rating : Q; total_ratings : Z }.

Definition json_of_store_stats (s : store_stats) : json :=
  Jobj [("average_rating", Jnum (average_rating s));
        ("total_ratings", Jint (total_ratings s))].

(** [SELECT COALESCE(AVG(rating), 0) as average_rating,
            COUNT( * ) as total_ratings
     FROM ratings WHERE store_id = $1]: one row, always. *)
Definition select_store_stats : statement store_stats :=
  reading 1 (fun vs _ d =>
    sid <~ int_param 1 vs ;;
    let rows := filter (fun r => Pg.eq_int (r_store_id r) sid) (ratings d) in
    Pg.ok {| average_rating := Pg.coalesce (Pg.avg (map r_rating rows)) 0%Q;
             total_ratings := Pg.count rows |}).

(** [INSERT INTO ratings (user_id, store_id, rating, comment)
     VALUES ($1, $2, $3, $4)]. The id is drawn from the sequence, which
    keeps the value even when the insertion is then refused; the
    timestamps default to [CURRENT_TIMESTAMP]. *)
Definition insert_rating : statement unit :=
  {| placeholders := 4;
     exec := fun vs t d =>
       match (uid <~ int_param 1 vs ;;
              sid <~ int_param 2 vs ;;
              value <~ int_param 3 vs ;;
              comment <~ text_param 4 vs ;;
              Pg.ok (uid, sid, value, comment)) with
       | inl e => (inl e, d)
       | inr (uid, sid, value, comment) =>
           let id := ratings_id_seq d in
           let d1 := with_ratings_id_seq (id + 1) d in
           match uid, sid, value with
           | Some u, Some s, Some v =>
               if negb (rating_check v)
               then (Pg.raise "new row violates check constraint ratings_rating_check", d1)
               else if existsb (fun r => r_id r =? id) (ratings d)
               then (Pg.raise "duplicate key value violates unique constraint ratings_pkey", d1)
               else if existsb (same_pair u s) (ratings d)
               then (Pg.raise "duplicate key value violates unique constraint ratings_user_id_store_id_key", d1)
               else if negb (has_user d u)
               then (Pg.raise "insert violates foreign key constraint ratings_user_id_fkey", d1)
               else if negb (has_store d s)
               then (Pg.raise "insert violates foreign key constraint ratings_store_id_fkey", d1)
               else (Pg.ok tt,
                     with_ratings
                       (ratings d ++
                        [{| r_id := id; r_user_id := u; r_store_id := s;
                            r_rating := v; r_comment := comment;
                            r_created_at := t; r_updated_at := t |}]) d1)
           | _, _, _ =>
               (Pg.raise "null value violates not-null constraint", d1)
           end
       end |}.

Definition owned_by (id uid : option Z) (r : rating) : bool :=
  Pg.eq_int (r_id r) id && Pg.eq_int (r_user_id r) uid.

(** [SELECT id, store_id FROM ratings WHERE id = $1 AND user_id = $2] *)
Definition select_rating_owned : statement (list (Z * Z)) :=
  reading 2 (fun vs _ d =>
    id <~ int_param 1 vs ;;
    uid <~ int_param 2 vs ;;
    Pg.ok (map (fun r => (r_id r, r_store_id r))
               (filter (owned_by id uid) (ratings d)))).

(** [UPDATE ratings
     SET rating = $1, comment = $2, updated_at = CURRENT_TIMESTAMP
     WHERE id = $3] *)
Definition update_rating_by_id : statement unit :=
  writing 3 (fun vs t d =>
    value <~ int_param 1 vs ;;
    comment <~ text_param 2 vs ;;
    id <~ int_param 3 vs ;;
    update_ratings_where (fun r => Pg.eq_int (r_id r) id) value comment t d).

(** [DELETE FROM ratings WHERE id = $1] *)
Definition delete_rating_by_id : statement unit :=
  writing 1 (fun vs _ d =>
    id <~ int_param 1 vs ;;
    Pg.ok (tt, with_ratings
                 (filter (fun r => negb (Pg.eq_int (r_id r) id)) (ratings d))
                 d)).

(** [SELECT id FROM ratings WHERE user_id = $1 AND store_id = $2] *)
Definition select_rating_id_of_user_for_store : statement (list Z) :=
  reading 2 (fun vs _ d =>
    uid <~ int_param 1 vs ;;
    sid <~ int_param 2 vs ;;
    Pg.ok (map r_id (filter (pair_matches uid sid) (ratings d)))).

(** [DELETE FROM ratings WHERE user_id = $1 AND store_id = $2] *)
Definition delete_rating_of_user_for_store : statement unit :=
  writing 2 (fun vs _ d =>
    uid <~ int_param 1 vs ;;
    sid <~ int_param 2 vs ;;
    Pg.ok (tt, with_ratings
                 (filter (fun r => negb (pair_matches uid sid r)) (ratings d))
                 d)).

(** [SELECT id, rating, comment, created_at, updated_at FROM ratings
     WHERE user_id = $1 AND store_id = $2] *)
Definition select_own_rating : statement (list rating) :=
  reading 2 (fun vs _ d =>
    uid <~ int_param 1 vs ;;
    sid <~ int_param 2 vs ;;
    Pg.ok (filter (pair_matches uid sid) (ratings d))).

(** *** The queries of [GET /user/insights] *)

Record user_rating_stats := {
  urs_total_ratings : Z;
  urs_average_rating : option Q;
  urs_stores_rated : Z;
  urs_positive_ratings : Z;
  urs_negative_ratings : Z;
  urs_min_rating : option Z;
  urs_max_rating : option Z
}.

Definition ratings_of_user (uid : option Z) (d : database) : list rating :=
  filter (fun r => Pg.eq_int (r_user_id r) uid) (ratings d).

(** The first query: the aggregates over the ratings of [$1]. *)
Definition select_user_rating_stats : statement user_rating_stats :=
  reading 1 (fun vs _ d =>
    uid <~ int_param 1 vs ;;
    let rows := ratings_of_user uid d in
    let values := map r_rating rows in
    Pg.ok {| urs_total_ratings := Pg.count rows;
             urs_average_rating := Pg.avg values;
             urs_stores_rated :=
               Pg.count (Pg.distinct (map r_store_id rows));
             urs_positive_ratings :=
               Pg.count (filter (fun v => 4 <=? v) values);
             urs_negative_ratings :=
               Pg.count (filter (fun v => v <=? 2) values);
             urs_min_rating := Pg.min values;
             urs_max_rating := Pg.max values |}).

Record trend_row := { tr_date : Z; tr_avg_rating : option Q;
                      tr_daily_ratings : Z }.

Definition trend_of_group (g : Z * list rating) : trend_row :=
  {| tr_date := fst g;
     tr_avg_rating := Pg.avg (map r_rating (snd g));
     tr_daily_ratings := Pg.count (snd g) |}.

(** The second query: day buckets over the last 30 days,
    [GROUP BY DATE(created_at) ORDER BY date]. *)
Definition select_user_rating_trends : statement (list trend_row) :=
  reading 1 (fun vs t d =>
    uid <~ int_param 1 vs ;;
    let rows := filter (fun r => t - Pg.days 30 <=? r_created_at r)
                       (ratings_of_user uid d) in
    Pg.ok (Pg.order_by (fun a b => tr_date a <=? tr_date b)
             (map trend_of_group
                  (group_by Z.eqb (fun r => Pg.date (r_created_at r)) rows)))).

Record favorite_row := { fav_id : Z; fav_name : string;
                         fav_address : string; fav_rating : Z;
                         fav_created_at : Z }.

(** [FROM ratings r JOIN stores s ON r.store_id = s.id] *)
Definition join_stores (rows : list rating) (d : database)
  : list (rating * store) :=
  flat_map (fun r => map (fun s => (r, s))
                         (filter (fun s => r_store_id r =? s_id s)
                                 (stores d))) rows.

(** The third query: the stores the user rated 4 or more,
    [ORDER BY r.rating DESC, r.created_at DESC LIMIT 5]. *)
Definition select_user_favorite_stores : statement (list favorite_row) :=
  reading 1 (fun vs _ d =>
    uid <~ int_param 1 vs ;;
    let rows := filter (fun r => 4 <=? r_rating r) (ratings_of_user uid d) in
    Pg.ok (firstn 5
             (Pg.order_by
                (fun a b => (fav_rating b <? fav_rating a)
                            || ((fav_rating a =? fav_rating b)
                                && (fav_created_at b <=? fav_created_at a)))
                (map (fun rs =>
                        {| fav_id := s_id (snd rs);
                           fav_name := s_name (snd rs);
                           fav_address := s_address (snd rs);
                           fav_rating := r_rating (fst rs);
                           fav_created_at := r_created_at (fst rs) |})
                     (join_stores rows d))))).

(** The fourth query,
    [SELECT rating, COUNT( * ) as count FROM ratings WHERE user_id = $1
     GROUP BY rating ORDER BY rating]: it has one placeholder. *)
Definition select_user_rating_distribution : statement (list (Z * Z)) :=
  reading 1 (fun vs _ d =>
    uid <~ int_param 1 vs ;;
    Pg.ok (Pg.order_by (fun a b => fst a <=? fst b)
             (map (fun g => (fst g, Pg.count (snd g)))
                  (group_by Z.eqb r_rating (ratings_of_user uid d))))).

(** *** The queries of [GET /user] *)

(** [SELECT COUNT( * ) FROM ratings WHERE user_id = $1] *)
Definition count_ratings_of_user : statement Z :=
  reading 1 (fun vs _ d =>
    uid <~ int_param 1 vs ;;
    Pg.ok (Pg.count (ratings_of_user uid d))).

Record user_rating_row := {
  urr_rating : Z;
  urr_created_at : Z;
  urr_updated_at : Z;
  urr_store_id : Z;
  urr_store_name : string;
  urr_store_address : string
}.

Definition user_rating_row_of (rs : rating * store) : user_rating_row :=
  {| urr_rating := r_rating (fst rs);
     urr_created_at := r_created_at (fst rs);
     urr_updated_at := r_updated_at (fst rs);
     urr_store_id := s_id (snd rs);
     urr_store_name := s_name (snd rs);
     urr_store_address := s_address (snd rs) |}.

Definition user_rating_columns
  : list (string * (user_rating_row -> user_rating_row -> bool)) :=
  [("s.name", by_text urr_store_name);
   ("rating", by_int urr_rating);
   ("created_at", by_int urr_created_at);
   ("updated_at", by_int urr_updated_at);
   ("store_id", by_int urr_store_id);
   ("store_name", by_text urr_store_name);
   ("store_address", by_text urr_store_address)].

(** [SELECT r.rating, r.created_at, r.updated_at, s.id as store_id,
            s.name as store_name, s.address as store_address
     FROM ratings r JOIN stores s ON r.store_id = s.id
     WHERE r.user_id = $1
     ORDER BY <column> <direction> LIMIT $2 OFFSET $3] *)
Definition select_user_ratings_page (column direction : string)
  : statement (list user_rating_row) :=
  reading 3 (fun vs _ d =>
    le <~ order_clause user_rating_columns column direction ;;
    uid <~ int_param 1 vs ;;
    l <~ bigint_param 2 vs ;;
    o <~ bigint_param 3 vs ;;
    Pg.limit_offset l o
      (Pg.order_by le
         (map user_rating_row_of
              (join_stores (ratings_of_user uid d) d)))).

End RatingsSql.

(* ================================================================== *)
(** ** Requests and the Express router *)

Module Http.

Inductive method := GET | POST | PUT | DELETE.

Definition method_eqb (a b : method) : bool :=
  match a, b with
  | GET, GET | POST, POST | PUT, PUT | DELETE, DELETE => true
  | _, _ => false
  end.

(** A segment of a route path: a literal, or a named parameter [:name]. *)
Inductive segment :=
| Lit (s : string)
| Param (name : string).

(** Match a route path against the segments of the request path (the part
    after the mount point, split at [/]). Literals are compared without
    regard to case, as Express does by default; a parameter takes one
    non-empty segment. *)
Fixpoint match_path (p : list segment) (path : list string)
  : option (list (string * string)) :=
  match p, path with
  | [], [] => Some []
  | Lit s :: p', x :: path' =>
      if (Js.toLowerCase s =? Js.toLowerCase x)%string
      then match_path p' path' else None
  | Param n :: p', x :: path' =>
      if (x =? "")%string then None
      else option_map (cons (n, x)) (match_path p' path')
  | _, _ => None
  end.

(** A router: the routes in the order of their registration. *)
Definition router (H : Type) : Type := list (method * list segment * H).

(** The first registered route that matches handles the request: none of
    the handlers calls [next()]. *)
Fixpoint dispatch {H} (routes : router H) (m : method) (path : list string)
  : option (H * list (string * string)) :=
  match routes with
  | [] => None
  | (m', p, h) :: rest =>
      if method_eqb m m'
      then match match_path p path with
           | Some params => Some (h, params)
           | None => dispatch rest m path
           end
      else dispatch rest m path
  end.

(** [req.params.name]; a route that matched has bound it. *)
Definition req_param (name : string) (params : list (string * string))
  : string :=
  match assoc name params with Some v => v | None => "" end.

(** The query string of the list endpoints. [page] and [limit] are taken
    as the integers their decimal text denotes. *)
Record list_query := {
  q_search : option string;
  q_role : option string;
  q_sortBy : option string;
  q_sortOrder : option string;
  q_page : option Z;
  q_limit : option Z
}.

Definition no_query : list_query :=
  {| q_search := None; q_role := None; q_sortBy := None;
     q_sortOrder := None; q_page := None; q_limit := None |}.

Definition with_page (p : Z) (q : list_query) : list_query :=
  {| q_search := q_search q; q_role := q_role q; q_sortBy := q_sortBy q;
     q_sortOrder := q_sortOrder q; q_page := Some p;
     q_limit := q_limit q |}.

(** What a list handler binds for the optional clauses of its WHERE: the
    pattern [%search%] when [search] is truthy, the role when [role] is. *)
Definition search_pattern (q : list_query) : option (option string) :=
  if Js.truthy (q_search q)
  then Some (Some ("%" ++ Js.default (q_search q) "" ++ "%"))
  else None.

Definition role_wanted (q : list_query) : option (option string) :=
  if Js.truthy (q_role q) then Some (Some (Js.default (q_role q) ""))
  else None.

(** The [pagination] object of the list responses. *)
Definition pagination (totalKey : string) (page : Z) (totalPages : option Z)
    (total limit : Z) : json :=
  Jobj [("currentPage", Jint page);
        ("totalPages", Jopt_int totalPages);
        (totalKey, Jint total);
        ("limit", Jint limit)].

End Http.

(* ================================================================== *)
(** ** [routes/ratings.js] *)

Module Ratings.

Import Schema Effects SqlBase RatingsSql Http.

(** The body of a rating submission. A comment is a string or absent. *)
Record rating_body := { b_rating : Js.value; b_comment : option string }.

Definition rating_echo (fields : list (string * json)) (b : rating_body)
  : json :=
  Jobj (fields ++ [("rating", json_of_value (b_rating b));
                   ("comment", Jopt_str (b_comment b))]).

(** [router.post('/:storeId', validateRating, async (req, res) => ...)]:
    the handler, entered once the validator has let the request pass. *)
Definition post_rating (storeId : string) (b : rating_body) (userId : Z)
  : M response :=
  catch_500 "Rating submission error:" (
    storeResult <- pool_query select_store_id [Pg.Text storeId] ;;
    if (List.length storeResult =? 0)%nat
    then ret (res_status_json 404 (message "Store not found"))
    else
      existingRating <- pool_query select_rating_of_user_for_store
                          [Pg.Int userId; Pg.Text storeId] ;;
      if (0 <? List.length existingRating)%nat
      then
        _ <- pool_query update_rating_of_user_for_store
               [Pg.of_js (b_rating b);
                Pg.of_opt_text (Js.or_null (b_comment b));
                Pg.Int userId; Pg.Text storeId] ;;
        storeStats <- pool_query select_store_stats [Pg.Text storeId] ;;
        ret (res_json
               (Jobj [("message", Jstr "Rating updated successfully");
                      ("rating",
                       rating_echo [("storeId", Jstr storeId);
                                    ("userId", Jint userId)] b);
                      ("storeStats", json_of_store_stats storeStats)]))
      else
        _ <- pool_query insert_rating
               [Pg.Int userId; Pg.Text storeId; Pg.of_js (b_rating b);
                Pg.of_opt_text (Js.or_null (b_comment b))] ;;
        storeStats <- pool_query select_store_stats [Pg.Text storeId] ;;
        ret (res_status_json 201
               (Jobj [("message", Jstr "Rating submitted successfully");
                      ("rating",
                       rating_echo [("storeId", Jstr storeId);
                                    ("userId", Jint userId)] b);
                      ("storeStats", json_of_store_stats storeStats)]))).

(** [router.put('/:ratingId', validateRating, ...)] *)
Definition put_rating (ratingId : string) (b : rating_body) (userId : Z)
  : M response :=
  catch_500 "Rating update error:" (
    existingRating <- pool_query select_rating_owned
                        [Pg.Text ratingId; Pg.Int userId] ;;
    match existingRating with
    | [] => ret (res_status_json 404
                   (message "Rating not found or unauthorized"))
    | (_, storeId) :: _ =>
        _ <- pool_query update_rating_by_id
               [Pg.of_js (b_rating b);
                Pg.of_opt_text (Js.or_null (b_comment b));
                Pg.Text ratingId] ;;
        storeStats <- pool_query select_store_stats [Pg.Int storeId] ;;
        ret (res_json
               (Jobj [("message", Jstr "Rating updated successfully");
                      ("rating",
                       rating_echo [("id", Jstr ratingId);
                                    ("storeId", Jint storeId);
                                    ("userId", Jint userId)] b);
                      ("storeStats", json_of_store_stats storeStats)]))
    end).

(** [router.delete('/:ratingId', authenticateToken, ...)], the first of
    the two DELETE routes of the file. *)
Definition delete_rating (ratingId : string) (userId : Z) : M response :=
  catch_500 "Rating deletion error:" (
    existingRating <- pool_query select_rating_owned
                        [Pg.Text ratingId; Pg.Int userId] ;;
    match existingRating with
    | [] => ret (res_status_json 404
                   (message "Rating not found or unauthorized"))
    | (_, storeId) :: _ =>
        _ <- pool_query delete_rating_by_id [Pg.Text ratingId] ;;
        storeStats <- pool_query select_store_stats [Pg.Int storeId] ;;
        ret (res_json
               (Jobj [("message", Jstr "Rating deleted successfully");
                      ("storeStats", json_of_store_stats storeStats)]))
    end).

Definition json_of_trend (r : trend_row) : json :=
  Jobj [("date", Jint (tr_date r));
        ("avg_rating", Jopt_num (tr_avg_rating r));
        ("daily_ratings", Jint (tr_daily_ratings r))].

Definition json_of_favorite (r : favorite_row) : json :=
  Jobj [("id", Jint (fav_id r)); ("name", Jstr (fav_name r));
        ("address", Jstr (fav_address r)); ("rating", Jint (fav_rating r));
        ("created_at", Jint (fav_created_at r))].

Definition json_of_distribution (r : Z * Z) : json :=
  Jobj [("rating", Jint (fst r)); ("count", Jint (snd r))].

(** The [ratingStyle] of the insights. *)
Definition ratingStyle (stats : user_rating_stats) : string :=
  let total := urs_total_ratings stats in
  if 0 <? total
  then if Qle_bool (7 # 10)
                   (Qmake (urs_positive_ratings stats) (Z.to_pos total))
       then "generous"
       else if Qle_bool (3 # 10)
                   (Qmake (urs_negative_ratings stats) (Z.to_pos total))
       then "critical" else "balanced"
  else "new".

Definition insights_of (stats : user_rating_stats) : json :=
  Jobj [("totalRatings", Jint (urs_total_ratings stats));
        ("averageRating",
         Jnum (Pg.coalesce (urs_average_rating stats) 0%Q));
        ("storesRated", Jint (urs_stores_rated stats));
        ("positiveRatings", Jint (urs_positive_ratings stats));
        ("negativeRatings", Jint (urs_negative_ratings stats));
        ("ratingRange",
         Jobj [("min", Jint (Pg.coalesce (urs_min_rating stats) 0));
               ("max", Jint (Pg.coalesce (urs_max_rating stats) 0))]);
        ("ratingStyle", Jstr (ratingStyle stats))].

(** [router.get('/user/insights', authenticateToken, ...)]. The first
    three calls bind [[userId]]; the fourth passes the text alone. *)
Definition get_user_insights (userId : Z) : M response :=
  catch_500 "User insights error:" (
    statsResult <- pool_query select_user_rating_stats [Pg.Int userId] ;;
    trendsResult <- pool_query select_user_rating_trends [Pg.Int userId] ;;
    favoriteStores <- pool_query select_user_favorite_stores
                        [Pg.Int userId] ;;
    ratingDistribution <- pool_query select_user_rating_distribution [] ;;
    ret (res_json
           (Jobj [("insights", insights_of statsResult);
                  ("trends", Jarr (map json_of_trend trendsResult));
                  ("favoriteStores",
                   Jarr (map json_of_favorite favoriteStores));
                  ("ratingDistribution",
                   Jarr (map json_of_distribution ratingDistribution))]))).

Definition json_of_user_rating_row (r : user_rating_row) : json :=
  Jobj [("rating", Jint (urr_rating r));
        ("created_at", Jint (urr_created_at r));
        ("updated_at", Jint (urr_updated_at r));
        ("store_id", Jint (urr_store_id r));
        ("store_name", Jstr (urr_store_name r));
        ("store_address", Jstr (urr_store_address r))].

(** [router.get('/user', ...)]: the caller's ratings, paginated. [sortBy]
    and [sortOrder] are bound by a [const] destructuring, and the two
    fallback statements assign to them. *)
Definition get_user_ratings (q : list_query) (userId : Z) : M response :=
  catch_500 "User ratings fetch error:" (
    let sortBy := Js.default (q_sortBy q) "created_at" in
    let sortOrder := Js.default (q_sortOrder q) "desc" in
    let page := Js.default (q_page q) 1 in
    let limit := Js.default (q_limit q) 20 in
    let allowedSortFields := ["rating"; "created_at"; "store_name"] in
    let allowedSortOrders := ["asc"; "desc"] in
    _ <- (if negb (Js.includes allowedSortFields sortBy)
          then assign_const "sortBy" "created_at" else ret tt) ;;
    _ <- (if negb (Js.includes allowedSortOrders (Js.toLowerCase sortOrder))
          then assign_const "sortOrder" "desc" else ret tt) ;;
    totalRatings <- pool_query count_ratings_of_user [Pg.Int userId] ;;
    let offset := (page - 1) * limit in
    let totalPages := Js.Math_ceil_div totalRatings limit in
    rows <- pool_query
              (select_user_ratings_page
                 (if (sortBy =? "store_name")%string
                  then "s.name" else sortBy)
                 (Js.toUpperCase sortOrder))
              [Pg.Int userId; Pg.Int limit; Pg.Int offset] ;;
    ret (res_json
           (Jobj [("ratings", Jarr (map json_of_user_rating_row rows));
                  ("pagination",
                   pagination "totalRatings" page totalPages
                              totalRatings limit)]))).

Definition json_of_rating (r : rating) : json :=
  Jobj [("id", Jint (r_id r)); ("rating", Jint (r_rating r));
        ("comment", Jopt_str (r_comment r));
        ("created_at", Jint (r_created_at r));
        ("updated_at", Jint (r_updated_at r))].

(** [router.get('/user/:storeId', authenticateToken, ...)] *)
Definition get_user_store_rating (storeId : string) (userId : Z)
  : M response :=
  catch_500 "User store rating fetch error:" (
    ratingResult <- pool_query select_own_rating
                      [Pg.Int userId; Pg.Text storeId] ;;
    match ratingResult with
    | [] => ret (res_json (Jobj [("rating", Jnull)]))
    | r :: _ => ret (res_json (Jobj [("rating", json_of_rating r)]))
    end).

(** [router.delete('/:storeId', ...)], the last route of the file. *)
Definition delete_rating_for_store (storeId : string) (userId : Z)
  : M response :=
  catch_500 "Rating deletion error:" (
    existingRating <- pool_query select_rating_id_of_user_for_store
                        [Pg.Int userId; Pg.Text storeId] ;;
    if (List.length existingRating =? 0)%nat
    then ret (res_status_json 404 (message "Rating not found"))
    else
      _ <- pool_query delete_rating_of_user_for_store
             [Pg.Int userId; Pg.Text storeId] ;;
      ret (res_json (message "Rating deleted successfully"))).

(** A rating as the data model has it: a number that is an integer from
    1 to 5, which is what the CHECK of the column asks of the stored
    value. *)
Definition rating_is_valid (v : Js.value) : bool :=
  match v with
  | Js.number q =>
      match Js.integral q with
      | Some z => (1 <=? z) && (z <=? 5)
      | None => false
      end
  | _ => false
  end.

(** Modelled from the spec: the validator [validateRating] of
    [middleware/validation.js], a file that is not among the sources. The
    spec asks for a rating that is an integer from 1 to 5 and, on a
    violation, for a bad-request answer that lists the violations and
    leaves the database alone; the wording of the answer is the spec's. *)
Definition validateRating (b : rating_body) (next : M response)
  : M response :=
  if rating_is_valid (b_rating b) then next
  else ret (res_status_json 400
              (Jobj [("message", Jstr "Validation failed");
                     ("errors",
                      Jarr [Jstr "rating must be an integer from 1 to 5"])])).

(** A rating that the database does not read as an integer from 1 to 5
    when it is bound to the [rating] column. *)
Definition refused (v : Js.value) : Prop :=
  forall z,
    Pg.int4_in (Pg.of_js v) = Pg.ok (Some z) -> rating_check z = false.

(** The route [POST /:storeId] as registered: validator, then handler. *)
Definition post_rating_route (storeId : string) (b : rating_body)
    (userId : Z) : M response :=
  validateRating b (post_rating storeId b userId).

Definition put_rating_route (ratingId : string) (b : rating_body)
    (userId : Z) : M response :=
  validateRating b (put_rating ratingId b userId).

(** The handlers of the file, named after their routes. *)
Inductive handler :=
| POST_storeId
| PUT_ratingId
| DELETE_ratingId
| GET_user_insights
| GET_user_recommendations
| GET_user
| GET_user_storeId
| GET_user_stats
| DELETE_storeId.

(** The routes in the order in which the file registers them. *)
Definition routes : router handler :=
  [(POST, [Param "storeId"], POST_storeId);
   (PUT, [Param "ratingId"], PUT_ratingId);
   (DELETE, [Param "ratingId"], DELETE_ratingId);
   (GET, [Lit "user"; Lit "insights"], GET_user_insights);
   (GET, [Lit "user"; Lit "recommendations"], GET_user_recommendations);
   (GET, [Lit "user"], GET_user);
   (GET, [Lit "user"; Param "storeId"], GET_user_storeId);
   (GET, [Lit "user"; Lit "stats"], GET_user_stats);
   (DELETE, [Param "storeId"], DELETE_storeId)].

(** A request that passed [authenticateToken]: [req.user.id] is the
    identity that middleware attached. *)
Record request := {
  req_method : method;
  req_path : list string;
  req_user_id : Z;
  req_body : rating_body;
  req_query : list_query
}.

(** The answer of the application when no route of the router matches
    (outside production, where the client bundle is served instead). *)
Definition route_not_found : response :=
  res_status_json 404 (message "Route not found").

Section Serve.

(** The two handlers of the file that are left out of this development
    ([GET /user/recommendations] and [GET /user/stats]). *)
Variable get_user_recommendations : list_query -> Z -> M response.
Variable get_user_stats : Z -> M response.

Definition run_handler (h : handler) (params : list (string * string))
    (req : request) : M response :=
  let userId := req_user_id req in
  match h with
  | POST_storeId =>
      post_rating_route (req_param "storeId" params) (req_body req) userId
  | PUT_ratingId =>
      put_rating_route (req_param "ratingId" params) (req_body req) userId
  | DELETE_ratingId => delete_rating (req_param "ratingId" params) userId
  | GET_user_insights => get_user_insights userId
  | GET_user_recommendations =>
      get_user_recommendations (req_query req) userId
  | GET_user => get_user_ratings (req_query req) userId
  | GET_user_storeId =>
      get_user_store_rating (req_param "storeId" params) userId
  | GET_user_stats => get_user_stats userId
  | DELETE_storeId =>
      delete_rating_for_store (req_param "storeId" params) userId
  end.

(** The router mounted at [/api/ratings]. *)
Definition serve (req : request) : M response :=
  match dispatch routes (req_method req) (req_path req) with
  | Some (h, params) => run_handler h params req
  | None => ret route_not_found
  end.

End Serve.

End Ratings.

(* ================================================================== *)
(** ** [routes/stores.js] *)

Module StoresSql.

Import Schema Effects SqlBase.

(** A store with its derived aggregate. *)
Record store_row := {
  sr_id : Z;
  sr_name : string;
  sr_address : string;
  sr_created_at : Z;
  sr_average_rating : Q;
  sr_total_ratings : Z
}.

(** The ratings that [ON s.id = r.store_id] joins to the store [s]. *)
Definition ratings_of_store (d : database) (s : store) : list rating :=
  filter (fun r => s_id s =? r_store_id r) (ratings d).

(** The rows [s LEFT JOIN ratings r ON s.id = r.store_id] has for the
    store [s]: one per rating of the store, or one with a NULL [r]. *)
Definition joined_ratings (d : database) (s : store)
  : list (store * option rating) :=
  match ratings_of_store d s with
  | [] => [(s, None)]
  | rs => map (fun r => (s, Some r)) rs
  end.

(** [FROM stores s LEFT JOIN ratings r ON s.id = r.store_id] *)
Definition left_join_ratings (d : database)
  : list (store * option rating) :=
  flat_map (joined_ratings d) (stores d).

Definition store_key : Type := Z * string * string * Z.

(** The columns of [GROUP BY s.id, s.name, s.address, s.created_at]. *)
Definition store_key_of (s : store) : store_key :=
  (s_id s, s_name s, s_address s, s_created_at s).

Definition store_key_eqb (a b : store_key) : bool :=
  let '(i, n, ad, c) := a in
  let '(i', n', ad', c') := b in
  (i =? i') && (n =? n')%string && (ad =? ad')%string && (c =? c').

(** The ratings of a group: the non-NULL [r] of its joined rows. *)
Definition group_ratings (rows : list (store * option rating))
  : list rating :=
  Pg.non_null (map snd rows).

(** The select list: the key columns,
    [COALESCE(AVG(r.rating), 0) as average_rating] and
    [COUNT(r.id) as total_ratings]. *)
Definition summarize (g : store_key * list (store * option rating))
  : store_row :=
  let '(i, n, ad, c) := fst g in
  {| sr_id := i; sr_name := n; sr_address := ad; sr_created_at := c;
     sr_average_rating :=
       Pg.coalesce (Pg.avg (map r_rating (group_ratings (snd g)))) 0%Q;
     sr_total_ratings := Pg.count (map r_id (group_ratings (snd g))) |}.

(** The row of a store whose group holds exactly its own joined rows, as
    is the case when store ids are unique. *)
Definition summary_of_store (d : database) (s : store) : store_row :=
  summarize (store_key_of s, joined_ratings d s).

(** The grouped rows of the stores that satisfy [keep]. *)
Definition summaries (keep : store -> bool) (d : database)
  : list store_row :=
  map summarize
      (group_by store_key_eqb (fun p => store_key_of (fst p))
         (filter (fun p => keep (fst p)) (left_join_ratings d))).

(** [SELECT s.id, s.name, s.address, s.created_at,
            COALESCE(AVG(r.rating), 0) as average_rating,
            COUNT(r.id) as total_ratings
     FROM stores s LEFT JOIN ratings r ON s.id = r.store_id
     WHERE s.id = $1
     GROUP BY s.id, s.name, s.address, s.created_at] *)
Definition select_store_summary : statement (list store_row) :=
  reading 1 (fun vs _ d =>
    id <~ int_param 1 vs ;;
    Pg.ok (summaries (fun s => Pg.eq_int (s_id s) id) d)).

(** [WHERE 1=1] and, with a search term,
    [AND (s.name ILIKE $1 OR s.address ILIKE $1)]. *)
Definition store_filter (pattern : option (option string)) (s : store)
  : bool :=
  match pattern with
  | None => true
  | Some None => false
  | Some (Some p) => Pg.ilike (s_name s) p || Pg.ilike (s_address s) p
  end.

(** The pattern parameter of a statement built with or without the search
    clause; the other parameters follow it. *)
Definition pattern_param (searching : bool) (vs : list Pg.value)
  : Pg.result (option (option string)) :=
  if searching
  then p <~ text_param 1 vs ;; Pg.ok (Some p)
  else Pg.ok None.

Definition after_pattern (searching : bool) (n : nat) : nat :=
  if searching then S n else n.

(** [SELECT COUNT( * ) FROM stores s <where>] *)
Definition count_stores (searching : bool) : statement Z :=
  reading (after_pattern searching 0) (fun vs _ d =>
    pat <~ pattern_param searching vs ;;
    Pg.ok (Pg.count (filter (store_filter pat) (stores d)))).

Definition store_columns
  : list (string * (store_row -> store_row -> bool)) :=
  [("s.name", by_text sr_name);
   ("s.address", by_text sr_address);
   ("s.created_at", by_int sr_created_at);
   ("s.id", by_int sr_id)].

(** The list statement without its LIMIT and OFFSET: all matching stores
    in the order of [ORDER BY <column> <direction>]. *)
Definition stores_in_order (pat : option (option string))
    (column direction : string) (d : database)
  : Pg.result (list store_row) :=
  le <~ order_clause store_columns column direction ;;
  Pg.ok (Pg.order_by le (summaries (store_filter pat) d)).

(** [SELECT s.id, s.name, s.address, s.created_at,
            COALESCE(AVG(r.rating), 0) as average_rating,
            COUNT(r.id) as total_ratings
     FROM stores s LEFT JOIN ratings r ON s.id = r.store_id
     <where>
     GROUP BY s.id, s.name, s.address, s.created_at
     ORDER BY <column> <direction>
     LIMIT $n+1 OFFSET $n+2] *)
Definition select_stores_page (searching : bool)
    (column direction : string) : statement (list store_row) :=
  reading (after_pattern searching 2) (fun vs _ d =>
    pat <~ pattern_param searching vs ;;
    rows <~ stores_in_order pat column direction d ;;
    l <~ bigint_param (after_pattern searching 1) vs ;;
    o <~ bigint_param (after_pattern searching 2) vs ;;
    Pg.limit_offset l o rows).

Record public_rating_row := {
  pr_rating : Z;
  pr_comment : option string;
  pr_created_at : Z;
  pr_user_name : string
}.

(** [SELECT r.rating, r.comment, r.created_at, u.name as user_name
     FROM ratings r JOIN users u ON r.user_id = u.id
     WHERE r.store_id = $1
     ORDER BY r.created_at DESC LIMIT 50] *)
Definition select_store_ratings : statement (list public_rating_row) :=
  reading 1 (fun vs _ d =>
    sid <~ int_param 1 vs ;;
    Pg.ok (firstn 50
             (Pg.order_by
                (fun a b => pr_created_at b <=? pr_created_at a)
                (flat_map
                   (fun r =>
                      map (fun u =>
                             {| pr_rating := r_rating r;
                                pr_comment := r_comment r;
                                pr_created_at := r_created_at r;
                                pr_user_name := u_name u |})
                          (filter (fun u => r_user_id r =? u_id u) (users d)))
                   (filter (fun r => Pg.eq_int (r_store_id r) sid)
                           (ratings d)))))).

End StoresSql.

Module Stores.

Import Schema Effects SqlBase StoresSql Http.

Definition json_of_store_row (r : store_row) : json :=
  Jobj [("id", Jint (sr_id r)); ("name", Jstr (sr_name r));
        ("address", Jstr (sr_address r));
        ("created_at", Jint (sr_created_at r));
        ("average_rating", Jnum (sr_average_rating r));
        ("total_ratings", Jint (sr_total_ratings r))].

(** [router.get('/', ...)]: the public list of stores. [whereClause],
    [params] and [paramCount] are the [let] variables of the handler;
    [sortBy] and [sortOrder] are bound by the [const] destructuring. *)
Definition get_stores (q : list_query) : M response :=
  catch_500 "Stores fetch error:" (
    let search := q_search q in
    let sortBy := Js.default (q_sortBy q) "name" in
    let sortOrder := Js.default (q_sortOrder q) "asc" in
    let page := Js.default (q_page q) 1 in
    let limit := Js.default (q_limit q) 20 in
    let searching := Js.truthy search in
    let params :=
      if searching
      then [Pg.Text ("%" ++ Js.default search "" ++ "%")] else [] in
    let allowedSortFields := ["name"; "address"; "created_at"] in
    let allowedSortOrders := ["asc"; "desc"] in
    _ <- (if negb (Js.includes allowedSortFields sortBy)
          then assign_const "sortBy" "name" else ret tt) ;;
    _ <- (if negb (Js.includes allowedSortOrders (Js.toLowerCase sortOrder))
          then assign_const "sortOrder" "asc" else ret tt) ;;
    totalStores <- pool_query (count_stores searching) params ;;
    let offset := (page - 1) * limit in
    let totalPages := Js.Math_ceil_div totalStores limit in
    rows <- pool_query
              (select_stores_page searching ("s." ++ sortBy)
                 (Js.toUpperCase sortOrder))
              (params ++ [Pg.Int limit; Pg.Int offset]) ;;
    ret (res_json
           (Jobj [("stores", Jarr (map json_of_store_row rows));
                  ("pagination",
                   pagination "totalStores" page totalPages
                              totalStores limit)]))).

(** [router.get('/:id', ...)]: the public details of a store. *)
Definition get_store (id : string) : M response :=
  catch_500 "Store details error:" (
    storeResult <- pool_query select_store_summary [Pg.Text id] ;;
    match storeResult with
    | [] => ret (res_status_json 404 (message "Store not found"))
    | store :: _ => ret (res_json (Jobj [("store", json_of_store_row store)]))
    end).

Definition json_of_public_rating (r : public_rating_row) : json :=
  Jobj [("rating", Jint (pr_rating r));
        ("comment", Jopt_str (pr_comment r));
        ("created_at", Jint (pr_created_at r));
        ("user_name", Jstr (pr_user_name r))].

(** [router.get('/:id/ratings', ...)], the public route. Its [catch] block
    carries the comment [Return empty ratings array instead of error] and
    does so. *)
Definition get_store_ratings (id : string) : M response :=
  try_catch
    (ratingsResult <- pool_query select_store_ratings [Pg.Text id] ;;
     ret (res_json
            (Jobj [("ratings",
                    Jarr (map json_of_public_rating ratingsResult))])))
    (fun _ =>
       _ <- console_error "Store ratings error:" ;;
       ret (res_json (Jobj [("ratings", Jarr [])]))).

End Stores.

(* ================================================================== *)
(** ** [routes/admin.js]: the list of users *)

Module AdminSql.

Import Schema Effects SqlBase.

(** [AND (name ILIKE $k OR email ILIKE $k OR address ILIKE $k)] and
    [AND role = $k], each present or not. *)
Definition user_filter (pattern role : option (option string)) (u : user)
  : bool :=
  match pattern with
  | None => true
  | Some None => false
  | Some (Some p) =>
      Pg.ilike (u_name u) p || Pg.ilike (u_email u) p
      || Pg.ilike (u_address u) p
  end
  && match role with
     | None => true
     | Some r => Pg.eq_text (u_role u) r
     end.

Definition clause_count (searching filtering : bool) : nat :=
  ((if searching then 1 else 0) + (if filtering then 1 else 0))%nat.

Definition optional_text (present : bool) (n : nat) (vs : list Pg.value)
  : Pg.result (option (option string)) :=
  if present then p <~ text_param n vs ;; Pg.ok (Some p) else Pg.ok None.

(** [SELECT COUNT( * ) FROM users <where>] *)
Definition count_users (searching filtering : bool) : statement Z :=
  reading (clause_count searching filtering) (fun vs _ d =>
    pat <~ optional_text searching 1 vs ;;
    role <~ optional_text filtering (clause_count searching true) vs ;;
    Pg.ok (Pg.count (filter (user_filter pat role) (users d)))).

Definition user_columns : list (string * (user -> user -> bool)) :=
  [("name", by_text u_name);
   ("email", by_text u_email);
   ("address", by_text u_address);
   ("role", by_text u_role);
   ("created_at", by_int u_created_at);
   ("updated_at", by_int u_updated_at);
   ("id", by_int u_id)].

(** The list statement without its LIMIT and OFFSET. *)
Definition users_in_order (pat role : option (option string))
    (column direction : string) (d : database) : Pg.result (list user) :=
  le <~ order_clause user_columns column direction ;;
  Pg.ok (Pg.order_by le (filter (user_filter pat role) (users d))).

(** [SELECT id, name, email, address, role, created_at, updated_at
     FROM users <where>
     ORDER BY <column> <direction>
     LIMIT $n+1 OFFSET $n+2] *)
Definition select_users_page (searching filtering : bool)
    (column direction : string) : statement (list user) :=
  let n := clause_count searching filtering in
  reading (n + 2) (fun vs _ d =>
    pat <~ optional_text searching 1 vs ;;
    role <~ optional_text filtering (clause_count searching true) vs ;;
    rows <~ users_in_order pat role column direction d ;;
    l <~ bigint_param (n + 1) vs ;;
    o <~ bigint_param (n + 2) vs ;;
    Pg.limit_offset l o rows).

End AdminSql.

Module Admin.

Import Schema Effects SqlBase AdminSql Http.

(** The columns the list selects: the password hash is not among them. *)
Definition json_of_user (u : user) : json :=
  Jobj [("id", Jint (u_id u)); ("name", Jstr (u_name u));
        ("email", Jstr (u_email u)); ("address", Jstr (u_address u));
        ("role", Jstr (u_role u)); ("created_at", Jint (u_created_at u));
        ("updated_at", Jint (u_updated_at u))].

(** The [params] array once the optional clauses have pushed theirs. *)
Definition users_params (q : list_query) : list Pg.value :=
  ((if Js.truthy (q_search q)
    then [Pg.Text ("%" ++ Js.default (q_search q) "" ++ "%")] else [])
   ++ (if Js.truthy (q_role q)
       then [Pg.Text (Js.default (q_role q) "")] else []))%list.

(** [router.get('/users', ...)], behind [authenticateToken] and
    [requireRole(['system_admin'])]. *)
Definition get_users (q : list_query) : M response :=
  catch_500 "Users fetch error:" (
    let search := q_search q in
    let role := q_role q in
    let sortBy := Js.default (q_sortBy q) "name" in
    let sortOrder := Js.default (q_sortOrder q) "asc" in
    let page := Js.default (q_page q) 1 in
    let limit := Js.default (q_limit q) 20 in
    let searching := Js.truthy search in
    let filtering := Js.truthy role in
    let params := users_params q in
    let allowedSortFields :=
      ["name"; "email"; "address"; "role"; "created_at"] in
    let allowedSortOrders := ["asc"; "desc"] in
    _ <- (if negb (Js.includes allowedSortFields sortBy)
          then assign_const "sortBy" "name" else ret tt) ;;
    _ <- (if negb (Js.includes allowedSortOrders (Js.toLowerCase sortOrder))
          then assign_const "sortOrder" "asc" else ret tt) ;;
    totalUsers <- pool_query (count_users searching filtering) params ;;
    let offset := (page - 1) * limit in
    let totalPages := Js.Math_ceil_div totalUsers limit in
    rows <- pool_query
              (select_users_page searching filtering sortBy
                 (Js.toUpperCase sortOrder))
              (params ++ [Pg.Int limit; Pg.Int offset]) ;;
    ret (res_json
           (Jobj [("users", Jarr (map json_of_user rows));
                  ("pagination",
                   pagination "totalUsers" page totalPages
                              totalUsers limit)]))).

End Admin.

(* ================================================================== *)
(** ** [routes/users.js]: the rating history of the caller *)

Module Users.

Import Schema Effects SqlBase RatingsSql Http.

(** [router.get('/ratings', ...)]: the statements are those of
    [GET /api/ratings/user]. *)
Definition get_ratings (q : list_query) (userId : Z) : M response :=
  catch_500 "User ratings fetch error:" (
    let sortBy := Js.default (q_sortBy q) "created_at" in
    let sortOrder := Js.default (q_sortOrder q) "desc" in
    let page := Js.default (q_page q) 1 in
    let limit := Js.default (q_limit q) 20 in
    let allowedSortFields := ["rating"; "created_at"; "store_name"] in
    let allowedSortOrders := ["asc"; "desc"] in
    _ <- (if negb (Js.includes allowedSortFields sortBy)
          then assign_const "sortBy" "created_at" else ret tt) ;;
    _ <- (if negb (Js.includes allowedSortOrders (Js.toLowerCase sortOrder))
          then assign_const "sortOrder" "desc" else ret tt) ;;
    totalRatings <- pool_query count_ratings_of_user [Pg.Int userId] ;;
    let offset := (page - 1) * limit in
    let totalPages := Js.Math_ceil_div totalRatings limit in
    rows <- pool_query
              (select_user_ratings_page
                 (if (sortBy =? "store_name")%string
                  then "s.name" else sortBy)
                 (Js.toUpperCase sortOrder))
              [Pg.Int userId; Pg.Int limit; Pg.Int offset] ;;
    ret (res_json
           (Jobj [("ratings",
                   Jarr (map Ratings.json_of_user_rating_row rows));
                  ("pagination",
                   pagination "totalRatings" page totalPages
                              totalRatings limit)]))).

End Users.

(* ================================================================== *)
(** ** The auth routes: registration and login *)

Module Auth.

Import Schema Effects SqlBase.

(** The payload of a token. *)
Record claims := { userId : Z; email : string; role : string }.

(** The two libraries the routes call. [bcrypt.hash] draws a salt, which
    is made an argument here; [jwt.sign] takes the payload, the secret and
    the [expiresIn] option, and its token is the JSON value that the
    response carries. *)
Class Libraries := {
  bcrypt_hash : string -> string -> nat -> string;
  bcrypt_compare : string -> string -> bool;
  jwt_sign : claims -> string -> string -> json;
  jwt_verify : json -> string -> option claims
}.

(** What the routes rely on: a password matches its own hash whatever the
    salt, a hash fits its column, and a token verified under the secret it
    was signed with gives its payload back. *)
Class LibrariesLaws (L : Libraries) : Prop := {
  compare_hash :
    forall salt password rounds,
      bcrypt_compare password (bcrypt_hash salt password rounds) = true;
  hash_length :
    forall salt password rounds,
      strlen (bcrypt_hash salt password rounds) <= 255;
  verify_sign :
    forall payload secret expiresIn,
      jwt_verify (jwt_sign payload secret expiresIn) secret = Some payload
}.

Record register_body := {
  rb_name : string;
  rb_email : string;
  rb_password : string;
  rb_address : string
}.

Record login_body := { lb_email : string; lb_password : string }.

(** The validators of [middleware/validation.js], which is not among the
    sources: each either answers the request itself ([Some]) or lets it
    pass ([None]). *)
Class Validators := {
  validateUserRegistration : register_body -> option response;
  validateUserLogin : login_body -> option response
}.

(** A registration that passes fits the columns of [users]. *)
Class ValidatorsLaws (V : Validators) : Prop := {
  registration_fits :
    forall b,
      validateUserRegistration b = None ->
      name_check (rb_name b) = true
      /\ strlen (rb_address b) <= 400
      /\ strlen (rb_email b) <= 255
}.

(** [SELECT id FROM users WHERE email = $1] *)
Definition select_user_id_by_email : statement (list Z) :=
  reading 1 (fun vs _ d =>
    e <~ text_param 1 vs ;;
    Pg.ok (map u_id (filter (fun u => Pg.eq_text (u_email u) e) (users d)))).

(** [SELECT * FROM users WHERE email = $1] *)
Definition select_user_by_email : statement (list user) :=
  reading 1 (fun vs _ d =>
    e <~ text_param 1 vs ;;
    Pg.ok (filter (fun u => Pg.eq_text (u_email u) e) (users d))).

Definition fits (n : Z) (s : string) : bool := strlen s <=? n.

(** [INSERT INTO users (name, email, password_hash, address, role)
     VALUES ($1, $2, $3, $4, $5)
     RETURNING id, name, email, address, role]. The id is drawn from the
    sequence, which keeps the value when the row is refused. *)
Definition insert_user : statement user :=
  {| placeholders := 5;
     exec := fun vs t d =>
       match (n <~ text_param 1 vs ;;
              e <~ text_param 2 vs ;;
              h <~ text_param 3 vs ;;
              a <~ text_param 4 vs ;;
              r <~ text_param 5 vs ;;
              Pg.ok (n, e, h, a, r)) with
       | inl err => (inl err, d)
       | inr (n, e, h, a, r) =>
           let id := users_id_seq d in
           let d1 := with_users_id_seq (id + 1) d in
           match n, e, h, a, r with
           | Some n, Some e, Some h, Some a, Some r =>
               if negb (fits 60 n && fits 255 e && fits 255 h
                        && fits 400 a && fits 20 r)
               then (Pg.raise "value too long for type character varying", d1)
               else if negb (name_check n)
               then (Pg.raise "new row violates check constraint users_name_check", d1)
               else if negb (role_check r)
               then (Pg.raise "new row violates check constraint users_role_check", d1)
               else if existsb (fun u => u_id u =? id) (users d)
               then (Pg.raise "duplicate key value violates unique constraint users_pkey", d1)
               else if existsb (fun u => (u_email u =? e)%string) (users d)
               then (Pg.raise "duplicate key value violates unique constraint users_email_key", d1)
               else
                 let u := {| u_id := id; u_name := n; u_email := e;
                             u_password_hash := h; u_address := a;
                             u_role := r; u_created_at := t;
                             u_updated_at := t |} in
                 (Pg.ok u, with_users (users d ++ [u]) d1)
           | _, _, _, _, _ =>
               (Pg.raise "null value violates not-null constraint", d1)
           end
       end |}.

Section Routes.

Context {L : Libraries} {V : Validators}.

(** [await bcrypt.hash(data, saltRounds)] *)
Definition hash (data : string) (saltRounds : nat) : M string :=
  fun w =>
    (inr (bcrypt_hash (hd "" (salts w)) data saltRounds),
     with_salts (tl (salts w)) w).

(** [jwt.sign(payload, process.env.JWT_SECRET,
             { expiresIn: process.env.JWT_EXPIRES_IN || '24h' })]; the
    library throws when it is given no secret. *)
Definition sign (payload : claims) : M json :=
  fun w =>
    match env_JWT_SECRET w with
    | Some secret =>
        (inr (jwt_sign payload secret
                (match Js.or_null (env_JWT_EXPIRES_IN w) with
                 | Some e => e
                 | None => "24h"
                 end)), w)
    | None => (inl (Error "secretOrPrivateKey must have a value"), w)
    end.

Definition json_of_account (u : user) : json :=
  Jobj [("id", Jint (u_id u)); ("name", Jstr (u_name u));
        ("email", Jstr (u_email u)); ("address", Jstr (u_address u));
        ("role", Jstr (u_role u))].

Definition claims_of (u : user) : claims :=
  {| userId := u_id u; email := u_email u; role := u_role u |}.

(** [router.post('/register', validateUserRegistration, ...)]: the
    handler. *)
Definition register (b : register_body) : M response :=
  catch_500 "Registration error:" (
    existingUser <- pool_query select_user_id_by_email
                      [Pg.Text (rb_email b)] ;;
    if (0 <? List.length existingUser)%nat
    then ret (res_status_json 400
                (message "User with this email already exists"))
    else
      let saltRounds := 10%nat in
      passwordHash <- hash (rb_password b) saltRounds ;;
      user <- pool_query insert_user
                [Pg.Text (rb_name b); Pg.Text (rb_email b);
                 Pg.Text passwordHash; Pg.Text (rb_address b);
                 Pg.Text "normal_user"] ;;
      token <- sign (claims_of user) ;;
      ret (res_status_json 201
             (Jobj [("message", Jstr "User registered successfully");
                    ("user", json_of_account user);
                    ("token", token)]))).

(** [router.post('/login', validateUserLogin, ...)]: the handler. *)
Definition login (b : login_body) : M response :=
  catch_500 "Login error:" (
    result <- pool_query select_user_by_email [Pg.Text (lb_email b)] ;;
    match result with
    | [] => ret (res_status_json 401 (message "Invalid email or password"))
    | user :: _ =>
        if negb (bcrypt_compare (lb_password b) (u_password_hash user))
        then ret (res_status_json 401 (message "Invalid email or password"))
        else
          token <- sign (claims_of user) ;;
          ret (res_json
                 (Jobj [("message", Jstr "Login successful");
                        ("user", json_of_account user);
                        ("token", token)]))
    end).

(** The two routes as registered: validator, then handler. *)
Definition register_route (b : register_body) : M response :=
  match validateUserRegistration b with
  | Some rejection => ret rejection
  | None => register b
  end.

Definition login_route (b : login_body) : M response :=
  match validateUserLogin b with
  | Some rejection => ret rejection
  | None => login b
  end.

End Routes.

End Auth.

(* ================================================================== *)
(** ** The endpoints of this development, as one type of calls *)

Module Api.

Import Effects Http.

Inductive call :=
| POST_ratings_storeId (storeId : string) (b : Ratings.rating_body)
    (userId : Z)
| PUT_ratings_ratingId (ratingId : string) (b : Ratings.rating_body)
    (userId : Z)
| DELETE_ratings_ratingId (ratingId : string) (userId : Z)
| GET_ratings_user_insights (userId : Z)
| GET_ratings_user (q : list_query) (userId : Z)
| GET_ratings_user_storeId (storeId : string) (userId : Z)
| GET_stores (q : list_query)
| GET_stores_id (id : string)
| GET_stores_id_ratings (id : string)
| GET_admin_users (q : list_query)
| GET_users_ratings (q : list_query) (userId : Z)
| POST_auth_register (b : Auth.register_body)
| POST_auth_login (b : Auth.login_body).

Definition perform {L : Auth.Libraries} {V : Auth.Validators} (c : call)
  : M response :=
  match c with
  | POST_ratings_storeId storeId b userId =>
      Ratings.post_rating_route storeId b userId
  | PUT_ratings_ratingId ratingId b userId =>
      Ratings.put_rating_route ratingId b userId
  | DELETE_ratings_ratingId ratingId userId =>
      Ratings.delete_rating ratingId userId
  | GET_ratings_user_insights userId => Ratings.get_user_insights userId
  | GET_ratings_user q userId => Ratings.get_user_ratings q userId
  | GET_ratings_user_storeId storeId userId =>
      Ratings.get_user_store_rating storeId userId
  | GET_stores q => Stores.get_stores q
  | GET_stores_id id => Stores.get_store id
  | GET_stores_id_ratings id => Stores.get_store_ratings id
  | GET_admin_users q => Admin.get_users q
  | GET_users_ratings q userId => Users.get_ratings q userId
  | POST_auth_register b => Auth.register_route b
  | POST_auth_login b => Auth.login_route b
  end.

(** The pagination law for a list endpoint [h] at the limit [L]: [rows]
    being the full matching set in the stated sort order and [N] its size,
    there are [P = ceil(N / L)] pages; page [p] of them is answered with
    the rows at offset [(p - 1) * L] and with the page count [P], and the
    pages glued together are [rows]. *)
Definition page_of {A} (L p : Z) (rows : list A) : list A :=
  firstn (Z.to_nat L) (skipn (Z.to_nat ((p - 1) * L)) rows).

Definition paginates (h : list_query -> M response)
    (listKey totalKey : string) (w : world) (q : list_query) (L : Z)
    (rows : list json) : Prop :=
  let N := Z.of_nat (List.length rows) in
  exists P : Z,
    0 <= P
    /\ (P - 1) * L < N <= P * L
    /\ (forall p, 1 <= p <= P ->
          fst (run (h (with_page p q)) w)
          = res_json
              (Jobj [(listKey, Jarr (page_of L p rows));
                     ("pagination", pagination totalKey p (Some P) N L)]))
    /\ List.concat
         (map (fun p => page_of L (Z.of_nat p) rows) (seq 1 (Z.to_nat P)))
       = rows.

End Api.

(* ================================================================== *)
(** ** Sample data: the rows that [scripts/init-db.js] inserts *)

Module Sample.

Import Schema Effects.

Definition a_user (id : Z) (name email address role : string) : user :=
  {| u_id := id; u_name := name; u_email := email;
     u_password_hash := "$2a$10$hash"; u_address := address;
     u_role := role; u_created_at := 0; u_updated_at := 0 |}.

Definition a_store (id : Z) (name email address : string) (owner : Z)
  : store :=
  {| s_id := id; s_name := name; s_email := email; s_address := address;
     s_owner_id := Some owner; s_created_at := 0; s_updated_at := 0 |}.

Definition a_rating (id uid sid value : Z) (comment : string) : rating :=
  {| r_id := id; r_user_id := uid; r_store_id := sid; r_rating := value;
     r_comment := Some comment; r_created_at := 0; r_updated_at := 0 |}.

Definition database : Schema.database :=
  {| users :=
       [a_user 1 "System Administrator" "admin@system.com"
          "System Address - 123 Admin Street, Admin City, AC 12345"
          "system_admin";
        a_user 2 "John Doe - Normal User Example" "user@example.com"
          "123 Main Street, Example City, EC 12345" "normal_user";
        a_user 3 "Jane Smith - Another Normal User" "jane@example.com"
          "456 Oak Avenue, Sample Town, ST 67890" "normal_user";
        a_user 4 "Mike Johnson - Store Owner Example" "store@example.com"
          "789 Business Blvd, Commerce City, CC 11111" "store_owner";
        a_user 5 "Sarah Wilson - Another Store Owner" "sarah@example.com"
          "321 Retail Road, Market Town, MT 22222" "store_owner"];
     stores :=
       [a_store 1 "Local Grocery Store" "grocery@store.com"
          "100 Main Street, City Center, CC 33333" 4;
        a_store 2 "City Market" "market@city.com"
          "200 Market Way, Downtown, DT 44444" 5];
     ratings :=
       [a_rating 1 2 1 5 "Great products and service!";
        a_rating 2 3 1 4 "Good selection of items";
        a_rating 3 2 2 5 "Excellent quality and service"];
     users_id_seq := 6;
     stores_id_seq := 3;
     ratings_id_seq := 4 |}.

(** A world over [d] in which no query is made to fail. *)
Definition world_of (d : Schema.database) : world :=
  {| db := d; now := 86400; faults := []; query_failures := 0;
     console := []; salts := []; env_JWT_SECRET := Some "secret";
     env_JWT_EXPIRES_IN := None |}.

Definition world : Effects.world := world_of database.

(** The same world with its database out of reach. *)
Definition world_down : Effects.world :=
  with_faults [true; true; true; true; true; true] world.

(** Stand-ins for the two libraries: a hash that keeps the first 72
    characters of the password, which is all that bcrypt reads, and a token
    that is its payload next to the key. *)
Definition truncate (n : nat) (s : string) : string :=
  string_of_list_ascii (firstn n (list_ascii_of_string s)).

#[local] Instance libraries : Auth.Libraries :=
  {| Auth.bcrypt_hash := fun _ password _ => truncate 72 password;
     Auth.bcrypt_compare :=
       fun password h => (truncate 72 password =? h)%string;
     Auth.jwt_sign :=
       fun payload secret expiresIn =>
         Jobj [("userId", Jint (Auth.userId payload));
               ("email", Jstr (Auth.email payload));
               ("role", Jstr (Auth.role payload));
               ("key", Jstr secret);
               ("expiresIn", Jstr expiresIn)];
     Auth.jwt_verify :=
       fun token secret =>
         match token with
         | Jobj [("userId", Jint i); ("email", Jstr e); ("role", Jstr r);
                 ("key", Jstr k); ("expiresIn", Jstr _)] =>
             if (k =? secret)%string
             then Some {| Auth.userId := i; Auth.email := e;
                          Auth.role := r |}
             else None
         | _ => None
         end |}.

(** Stand-ins for the validators: the bounds of the spec on name and
    address, and an email that fits its column. *)
#[local] Instance validators : Auth.Validators :=
  {| Auth.validateUserRegistration :=
       fun b =>
         if name_check (Auth.rb_name b)
            && Auth.fits 400 (Auth.rb_address b)
            && Auth.fits 255 (Auth.rb_email b)
         then None
         else Some (res_status_json 400 (message "Validation failed"));
     Auth.validateUserLogin := fun _ => None |}.

End Sample.
From Stdlib Require Import Sorted Qabs.

Local Open Scope string_scope.
Local Open Scope Z_scope.


(* ================================================================== *)
(** ** The constraints of [schema.sql] on the ratings table, in full *)

Module Constraints.

Import Schema.

(** Besides the keys of [consistent]: the CHECK on [rating] and the two
    foreign keys of a rating. *)
Record constrained (d : database) : Prop := {
  keys : consistent d;
  ratings_checked :
    forall r, In r (ratings d) -> rating_check (r_rating r) = true;
  ratings_user_fk :
    forall r, In r (ratings d) -> has_user d (r_user_id r) = true;
  ratings_store_fk :
    forall r, In r (ratings d) -> has_store d (r_store_id r) = true
}.

End Constraints.

(* ================================================================== *)
(** ** What a computation does to the tables *)

Module Tables.

Import Schema Effects.

(** From the tables [d], in whatever state the rest of the world is, the
    computation ends with a result and tables that satisfy [Q]. *)
Definition leads {A} (m : M A) (d : database)
    (Q : exn + A -> database -> Prop) : Prop :=
  forall w, db w = d -> Q (fst (m w)) (db (snd (m w))).

(** The ratings of everyone but [uid]. *)
Definition others (uid : Z) (rs : list rating) : list rating :=
  filter (fun r => negb (r_user_id r =? uid)) rs.

(** The tables [d'] differ from [d] in ratings of [uid] at most (and in
    the sequences). *)
Definition touches_only (uid : Z) (d d' : database) : Prop :=
  users d' = users d
  /\ stores d' = stores d
  /\ others uid (ratings d') = others uid (ratings d).

End Tables.

(* ================================================================== *)
(** ** The statements on [users] of the account routes *)

Module UsersSql.

Import Schema Effects SqlBase.

(** What an UPDATE assigns to a text column: nothing, or the value of a
    parameter, which is NULL or a text. *)
Definition assigned : Type := option (option string).

(** The new value of a NOT NULL [VARCHAR(limit)] column with an optional
    CHECK, in a row whose old value is [old]. *)
Definition new_value (limit : Z) (check : string -> bool) (v : assigned)
    (old : string) : Pg.result string :=
  match v with
  | None => Pg.ok old
  | Some None => Pg.raise "null value violates not-null constraint"
  | Some (Some s) =>
      if negb (Auth.fits limit s)
      then Pg.raise "value too long for type character varying"
      else if negb (check s)
      then Pg.raise "new row violates check constraint"
      else Pg.ok s
  end.

(** One row under [SET name = .., address = .., password_hash = ..,
    updated_at = CURRENT_TIMESTAMP]; the trigger of [schema.sql] sets
    [updated_at] on every UPDATE as well. *)
Definition updated_user (name address hash : assigned) (t : Z) (u : user)
  : Pg.result user :=
  n <~ new_value 60 name_check name (u_name u) ;;
  a <~ new_value 400 (fun _ => true) address (u_address u) ;;
  h <~ new_value 255 (fun _ => true) hash (u_password_hash u) ;;
  Pg.ok {| u_id := u_id u; u_name := n; u_email := u_email u;
           u_password_hash := h; u_address := a; u_role := u_role u;
           u_created_at := u_created_at u; u_updated_at := t |}.

(** The table after an UPDATE of the rows selected by [sel]: all selected
    rows are changed, or the statement fails. *)
Fixpoint update_each (sel : user -> bool) (f : user -> Pg.result user)
    (us : list user) : Pg.result (list user) :=
  match us with
  | [] => Pg.ok []
  | u :: rest =>
      u' <~ (if sel u then f u else Pg.ok u) ;;
      rest' <~ update_each sel f rest ;;
      Pg.ok (u' :: rest')
  end.

(** [UPDATE users SET ... WHERE <sel> RETURNING ...]: the rows as they are
    after the update, and the tables. *)
Definition update_users_where (sel : user -> bool)
    (name address hash : assigned) (t : Z) (d : database)
  : Pg.result (list user * database) :=
  us <~ update_each sel (updated_user name address hash t) (users d) ;;
  Pg.ok (filter sel us, with_users us d).

(** A row with a new password hash, updated at [t]. *)
Definition with_password (h : string) (t : Z) (u : user) : user :=
  {| u_id := u_id u; u_name := u_name u; u_email := u_email u;
     u_password_hash := h; u_address := u_address u; u_role := u_role u;
     u_created_at := u_created_at u; u_updated_at := t |}.

(** A row with a new name and a new address, updated at [t]. *)
Definition with_profile (n a : string) (t : Z) (u : user) : user :=
  {| u_id := u_id u; u_name := n; u_email := u_email u;
     u_password_hash := u_password_hash u; u_address := a;
     u_role := u_role u; u_created_at := u_created_at u;
     u_updated_at := t |}.

(** [SELECT password_hash FROM users WHERE id = $1] *)
Definition select_password_hash : statement (list string) :=
  reading 1 (fun vs _ d =>
    id <~ int_param 1 vs ;;
    Pg.ok (map u_password_hash
               (filter (fun u => Pg.eq_int (u_id u) id) (users d)))).

(** [UPDATE users SET password_hash = $1, updated_at = CURRENT_TIMESTAMP
     WHERE id = $2] *)
Definition update_password : statement (list user) :=
  writing 2 (fun vs t d =>
    h <~ text_param 1 vs ;;
    id <~ int_param 2 vs ;;
    update_users_where (fun u => Pg.eq_int (u_id u) id)
                       None None (Some h) t d).

(** [UPDATE users
     SET name = $1, address = $2, updated_at = CURRENT_TIMESTAMP
     WHERE id = $3
     RETURNING id, name, email, address, role, created_at, updated_at] *)
Definition update_profile : statement (list user) :=
  writing 3 (fun vs t d =>
    n <~ text_param 1 vs ;;
    a <~ text_param 2 vs ;;
    id <~ int_param 3 vs ;;
    update_users_where (fun u => Pg.eq_int (u_id u) id)
                       (Some n) (Some a) None t d).

(** [SELECT id, name, email, address, role, created_at, updated_at
     FROM users WHERE id = $1] *)
Definition select_profile : statement (list user) :=
  reading 1 (fun vs _ d =>
    id <~ int_param 1 vs ;;
    Pg.ok (filter (fun u => Pg.eq_int (u_id u) id) (users d))).

(** An entry of the [updateFields] array that [PUT /api/users/profile]
    joins into its SET list. *)
Inductive set_clause :=
| NameIs (placeholder : nat)
| AddressIs (placeholder : nat)
| UpdatedAtNow.

Definition name_placeholder (c : set_clause) : option nat :=
  match c with NameIs n => Some n | _ => None end.

Definition address_placeholder (c : set_clause) : option nat :=
  match c with AddressIs n => Some n | _ => None end.

(** The value a SET list gives to a column: that of the placeholder of
    its first clause for the column, if it has one. *)
Fixpoint assigned_by (pick : set_clause -> option nat)
    (fields : list set_clause) (vs : list Pg.value) : Pg.result assigned :=
  match fields with
  | [] => Pg.ok None
  | c :: rest =>
      match pick c with
      | Some n => v <~ text_param n vs ;; Pg.ok (Some v)
      | None => assigned_by pick rest vs
      end
  end.

(** [UPDATE users SET <updateFields> WHERE id = $<idParam>
     RETURNING id, name, email, address, role, created_at, updated_at]:
    the handler numbers its placeholders from 1 to [idParam]. *)
Definition update_users_set (updateFields : list set_clause)
    (idParam : nat) : statement (list user) :=
  writing idParam (fun vs t d =>
    n <~ assigned_by name_placeholder updateFields vs ;;
    a <~ assigned_by address_placeholder updateFields vs ;;
    id <~ int_param idParam vs ;;
    update_users_where (fun u => Pg.eq_int (u_id u) id) n a None t d).

(** [SELECT role FROM users WHERE id = $1] *)
Definition select_role : statement (list string) :=
  reading 1 (fun vs _ d =>
    id <~ int_param 1 vs ;;
    Pg.ok (map u_role (filter (fun u => Pg.eq_int (u_id u) id) (users d)))).

End UsersSql.

(* ================================================================== *)
(** ** The auth routes on the account of the caller *)

Module Account.

Import Schema Effects SqlBase UsersSql.

Record password_body := { currentPassword : string; newPassword : string }.

(** The body of a profile update: each field is a string or absent.
    Lengths are those of ASCII text, on which [length] of JavaScript and
    [LENGTH] of PostgreSQL agree. *)
Record profile_body := { pb_name : option string; pb_address : option string }.

Definition json_of_profile (u : user) : json :=
  Jobj [("id", Jint (u_id u)); ("name", Jstr (u_name u));
        ("email", Jstr (u_email u)); ("address", Jstr (u_address u));
        ("role", Jstr (u_role u)); ("created_at", Jint (u_created_at u));
        ("updated_at", Jint (u_updated_at u))].

Section Routes.

Context {L : Auth.Libraries}.

(** [router.put('/password', authenticateToken, validatePasswordUpdate,
    ...)]: the handler. *)
Definition put_password (b : password_body) (userId : Z) : M response :=
  catch_500 "Password update error:" (
    result <- pool_query select_password_hash [Pg.Int userId] ;;
    match result with
    | [] => ret (res_status_json 404 (message "User not found"))
    | currentPasswordHash :: _ =>
        if negb (Auth.bcrypt_compare (currentPassword b) currentPasswordHash)
        then ret (res_status_json 400
                    (message "Current password is incorrect"))
        else
          let saltRounds := 10%nat in
          newPasswordHash <- Auth.hash (newPassword b) saltRounds ;;
          _ <- pool_query update_password
                 [Pg.Text newPasswordHash; Pg.Int userId] ;;
          ret (res_json (message "Password updated successfully"))
    end).

End Routes.

(** [router.put('/profile', authenticateToken, ...)] of the auth routes. *)
Definition put_profile (b : profile_body) (userId : Z) : M response :=
  catch_500 "Profile update error:" (
    if negb (Js.truthy (pb_name b)) || negb (Js.truthy (pb_address b))
    then ret (res_status_json 400 (message "Name and address are required"))
    else
      let name := Js.default (pb_name b) "" in
      let address := Js.default (pb_address b) "" in
      if (strlen name <? 20) || (60 <? strlen name)
      then ret (res_status_json 400
                  (message "Name must be between 20-60 characters"))
      else if 400 <? strlen address
      then ret (res_status_json 400
                  (message "Address must not exceed 400 characters"))
      else
        result <- pool_query update_profile
                    [Pg.Text name; Pg.Text address; Pg.Int userId] ;;
        match result with
        | [] => ret (res_status_json 404 (message "User not found"))
        | user :: _ =>
            ret (res_json
                   (Jobj [("message", Jstr "Profile updated successfully");
                          ("user", json_of_profile user)]))
        end).

(** [router.get('/profile', authenticateToken, ...)] of the auth routes. *)
Definition get_profile (userId : Z) : M response :=
  catch_500 "Profile fetch error:" (
    result <- pool_query select_profile [Pg.Int userId] ;;
    match result with
    | [] => ret (res_status_json 404 (message "User not found"))
    | user :: _ => ret (res_json (Jobj [("user", json_of_profile user)]))
    end).

End Account.

(* ================================================================== *)
(** ** [routes/users.js]: the profile of the caller *)

Module UsersProfile.

Import Schema Effects SqlBase UsersSql Account.

(** [router.get('/profile', ...)] *)
Definition get_profile (userId : Z) : M response :=
  catch_500 "Profile fetch error:" (
    result <- pool_query select_profile [Pg.Int userId] ;;
    match result with
    | [] => ret (res_status_json 404 (message "User not found"))
    | user :: _ => ret (res_json (Jobj [("user", json_of_profile user)]))
    end).

(** The three [let] variables of the handler below. *)
Record update_plan := {
  updateFields : list set_clause;
  params : list Pg.value;
  paramCount : nat
}.

(** [if (name) { paramCount++; updateFields.push(...); params.push(name) }]
    and the same for [address]. *)
Definition push_field (x : option string) (clause : nat -> set_clause)
    (p : update_plan) : update_plan :=
  if Js.truthy x
  then {| updateFields :=
            (updateFields p ++ [clause (S (paramCount p))])%list;
          params := (params p ++ [Pg.Text (Js.default x "")])%list;
          paramCount := S (paramCount p) |}
  else p.

(** [paramCount++; updateFields.push('updated_at = CURRENT_TIMESTAMP');
     params.push(userId)] *)
Definition push_id (userId : Z) (p : update_plan) : update_plan :=
  {| updateFields := (updateFields p ++ [UpdatedAtNow])%list;
     params := (params p ++ [Pg.Int userId])%list;
     paramCount := S (paramCount p) |}.

(** [router.put('/profile', ...)]: a field that is absent or empty is left
    as it is. [result.rows[0]] is [undefined] when no row was updated, and
    [res.json] then sends the message alone. *)
Definition put_profile (b : profile_body) (userId : Z) : M response :=
  catch_500 "Profile update error:" (
    let name := pb_name b in
    let address := pb_address b in
    if Js.truthy name
       && ((strlen (Js.default name "") <? 20)
           || (60 <? strlen (Js.default name "")))
    then ret (res_status_json 400
                (message "Name must be between 20 and 60 characters"))
    else if Js.truthy address && (400 <? strlen (Js.default address ""))
    then ret (res_status_json 400
                (message "Address must not exceed 400 characters"))
    else
      let plan :=
        push_field address AddressIs
          (push_field name NameIs
             {| updateFields := []; params := []; paramCount := 0 |}) in
      if (List.length (updateFields plan) =? 0)%nat
      then ret (res_status_json 400 (message "No fields to update"))
      else
        let plan := push_id userId plan in
        result <- pool_query
                    (update_users_set (updateFields plan) (paramCount plan))
                    (params plan) ;;
        ret (res_json
               (Jobj (("message", Jstr "Profile updated successfully")
                      :: match result with
                         | [] => []
                         | user :: _ => [("user", json_of_profile user)]
                         end)))).

(** The row of a user after a profile update with the body [b] at time
    [t]: a field that is absent or empty keeps its value. *)
Definition merged (b : profile_body) (t : Z) (u : user) : user :=
  with_profile
    (if Js.truthy (pb_name b) then Js.default (pb_name b) "" else u_name u)
    (if Js.truthy (pb_address b)
     then Js.default (pb_address b) "" else u_address u)
    t u.

End UsersProfile.

(* ================================================================== *)
(** ** [routes/admin.js]: creating users and stores *)

Module AdminWrites.

Import Schema Effects SqlBase UsersSql.

Definition with_stores (ss : list store) (d : database) : database :=
  {| users := users d; stores := ss; ratings := ratings d;
     users_id_seq := users_id_seq d; stores_id_seq := stores_id_seq d;
     ratings_id_seq := ratings_id_seq d |}.

Definition with_stores_id_seq (n : Z) (d : database) : database :=
  {| users := users d; stores := stores d; ratings := ratings d;
     users_id_seq := users_id_seq d; stores_id_seq := n;
     ratings_id_seq := ratings_id_seq d |}.

(** Truthiness of a value of the body: [if (ownerId)]. *)
Definition truthy_value (v : Js.value) : bool :=
  match v with
  | Js.undefined | Js.null => false
  | Js.number q => negb (Qeq_bool q 0)
  | Js.str s => negb (s =? "")%string
  end.

(** [ownerId || null] *)
Definition value_or_null (v : Js.value) : Js.value :=
  if truthy_value v then v else Js.null.

(** The body of [POST /api/admin/users]; [role] is a string or absent. *)
Record user_body := {
  ub_name : string;
  ub_email : string;
  ub_password : string;
  ub_address : string;
  ub_role : option string
}.

Record store_body := {
  sb_name : string;
  sb_email : string;
  sb_address : string;
  sb_ownerId : Js.value
}.

(** [SELECT id FROM stores WHERE email = $1] *)
Definition select_store_id_by_email : statement (list Z) :=
  reading 1 (fun vs _ d =>
    e <~ text_param 1 vs ;;
    Pg.ok (map s_id
               (filter (fun s => Pg.eq_text (s_email s) e) (stores d)))).

(** [INSERT INTO stores (name, email, address, owner_id)
     VALUES ($1, $2, $3, $4)
     RETURNING id, name, email, address, owner_id, created_at]. The id is
    drawn from the sequence, which keeps the value when the row is
    refused. *)
Definition insert_store : statement store :=
  {| placeholders := 4;
     exec := fun vs t d =>
       match (n <~ text_param 1 vs ;;
              e <~ text_param 2 vs ;;
              a <~ text_param 3 vs ;;
              o <~ int_param 4 vs ;;
              Pg.ok (n, e, a, o)) with
       | inl err => (inl err, d)
       | inr (n, e, a, o) =>
           let id := stores_id_seq d in
           let d1 := with_stores_id_seq (id + 1) d in
           match n, e, a with
           | Some n, Some e, Some a =>
               if negb (Auth.fits 255 n && Auth.fits 255 e
                        && Auth.fits 400 a)
               then (Pg.raise "value too long for type character varying", d1)
               else if existsb (fun s => s_id s =? id) (stores d)
               then (Pg.raise "duplicate key value violates unique constraint stores_pkey", d1)
               else if existsb (fun s => (s_email s =? e)%string) (stores d)
               then (Pg.raise "duplicate key value violates unique constraint stores_email_key", d1)
               else if match o with
                       | Some uid => negb (has_user d uid)
                       | None => false
                       end
               then (Pg.raise "insert violates foreign key constraint stores_owner_id_fkey", d1)
               else
                 let s := {| s_id := id; s_name := n; s_email := e;
                             s_address := a; s_owner_id := o;
                             s_created_at := t; s_updated_at := t |} in
                 (Pg.ok s, with_stores (stores d ++ [s]) d1)
           | _, _, _ =>
               (Pg.raise "null value violates not-null constraint", d1)
           end
       end |}.

Definition json_of_created_user (u : user) : json :=
  Jobj [("id", Jint (u_id u)); ("name", Jstr (u_name u));
        ("email", Jstr (u_email u)); ("address", Jstr (u_address u));
        ("role", Jstr (u_role u)); ("created_at", Jint (u_created_at u))].

Definition json_of_created_store (s : store) : json :=
  Jobj [("id", Jint (s_id s)); ("name", Jstr (s_name s));
        ("email", Jstr (s_email s)); ("address", Jstr (s_address s));
        ("owner_id", Jopt_int (s_owner_id s));
        ("created_at", Jint (s_created_at s))].

Section Routes.

Context {L : Auth.Libraries}.

(** [router.post('/users', validateUserRegistration, ...)]: the handler.
    The INSERT is the one of the registration, with the role of the
    body. *)
Definition post_user (b : user_body) : M response :=
  catch_500 "User creation error:" (
    let role := Js.default (ub_role b) "normal_user" in
    if negb (Js.includes ["normal_user"; "store_owner"; "system_admin"] role)
    then ret (res_status_json 400 (message "Invalid role specified"))
    else
      existingUser <- pool_query Auth.select_user_id_by_email
                        [Pg.Text (ub_email b)] ;;
      if (0 <? List.length existingUser)%nat
      then ret (res_status_json 400
                  (message "User with this email already exists"))
      else
        let saltRounds := 10%nat in
        passwordHash <- Auth.hash (ub_password b) saltRounds ;;
        result <- pool_query Auth.insert_user
                    [Pg.Text (ub_name b); Pg.Text (ub_email b);
                     Pg.Text passwordHash; Pg.Text (ub_address b);
                     Pg.Text role] ;;
        ret (res_status_json 201
               (Jobj [("message", Jstr "User created successfully");
                      ("user", json_of_created_user result)]))).

End Routes.

(** [router.post('/stores', validateStoreCreation, ...)]: the handler.
    [create] is the part after the verification of the owner, which the
    handler reaches when it has not returned before. *)
Definition post_store (b : store_body) : M response :=
  catch_500 "Store creation error:" (
    let ownerId := sb_ownerId b in
    let create :=
      result <- pool_query insert_store
                  [Pg.Text (sb_name b); Pg.Text (sb_email b);
                   Pg.Text (sb_address b);
                   Pg.of_js (value_or_null ownerId)] ;;
      ret (res_status_json 201
             (Jobj [("message", Jstr "Store created successfully");
                    ("store", json_of_created_store result)])) in
    existingStore <- pool_query select_store_id_by_email
                       [Pg.Text (sb_email b)] ;;
    if (0 <? List.length existingStore)%nat
    then ret (res_status_json 400
                (message "Store with this email already exists"))
    else if truthy_value ownerId
    then
      ownerResult <- pool_query select_role [Pg.of_js ownerId] ;;
      match ownerResult with
      | [] => ret (res_status_json 400 (message "Owner not found"))
      | role :: _ =>
          if negb (role =? "store_owner")%string
          then ret (res_status_json 400
                      (message "Owner must have store_owner role"))
          else create
      end
    else create).

(** The tables [d'] are those of [d] with at most one more user, who has
    the given role and email, at the end of [users]; the role is one of
    the schema. *)
Definition adds_user (role email : string) (d d' : database) : Prop :=
  stores d' = stores d
  /\ ratings d' = ratings d
  /\ (users d' = users d
      \/ exists u,
           users d' = (users d ++ [u])%list
           /\ u_role u = role /\ u_email u = email
           /\ role_check role = true).

(** The tables [d'] are those of [d] with at most one more store, at the
    end of [stores]. *)
Definition adds_store (d d' : database) : Prop :=
  users d' = users d
  /\ ratings d' = ratings d
  /\ (stores d' = stores d \/ exists s, stores d' = (stores d ++ [s])%list).

(** What [POST /api/admin/stores] has done when it answers [res]: with
    201 the store of the body is the new last row of [stores], under the
    next id of the sequence and an email no store had; with any other
    answer [stores] is as before. *)
Definition created (b : store_body) (d : database) (res : response)
    (d' : database) : Prop :=
  (status res = 201 ->
   exists s,
     stores d' = (stores d ++ [s])%list
     /\ s_id s = stores_id_seq d
     /\ s_name s = sb_name b /\ s_email s = sb_email b
     /\ s_address s = sb_address b
     /\ (forall x, In x (stores d) -> s_email x <> sb_email b)
     /\ field "store" (body res) = Some (json_of_created_store s))
  /\ (status res <> 201 -> stores d' = stores d).

(** Every store that has an owner has one with the role [store_owner]. *)
Definition owners_are_store_owners (d : database) : Prop :=
  forall s o,
    In s (stores d) -> s_owner_id s = Some o ->
    exists u, In u (users d) /\ u_id u = o /\ u_role u = "store_owner".

End AdminWrites.

(* ================================================================== *)
(** ** [routes/stores.js]: the view of a signed-in user, and the router *)

Module StoresRouter.

Import Schema Effects SqlBase StoresSql Stores Http.

(** [SELECT rating FROM ratings WHERE user_id = $1 AND store_id = $2] *)
Definition select_user_rating : statement (list Z) :=
  reading 2 (fun vs _ d =>
    uid <~ int_param 1 vs ;;
    sid <~ int_param 2 vs ;;
    Pg.ok (map r_rating
               (filter (RatingsSql.pair_matches uid sid) (ratings d)))).

(** [userRatingResult.rows[0]?.rating || null] *)
Definition userRating (rows : list Z) : json :=
  match rows with
  | [] => Jnull
  | rating :: _ => if rating =? 0 then Jnull else Jint rating
  end.

(** [router.get('/:id/authenticated', authenticateToken, ...)] *)
Definition get_store_authenticated (id : string) (userId : Z)
  : M response :=
  catch_500 "Store details error:" (
    storeResult <- pool_query select_store_summary [Pg.Text id] ;;
    match storeResult with
    | [] => ret (res_status_json 404 (message "Store not found"))
    | store :: _ =>
        userRatingResult <- pool_query select_user_rating
                              [Pg.Int userId; Pg.Text id] ;;
        ret (res_json
               (Jobj [("store",
                       match json_of_store_row store with
                       | Jobj fields =>
                           Jobj (fields ++
                                 [("userRating",
                                   userRating userRatingResult)])
                       | other => other
                       end)]))
    end).

(** The routes of the file, in the order of their registration. *)
Inductive handler :=
| GET_list
| GET_id
| GET_id_ratings
| GET_id_authenticated
| GET_owner_dashboard
| GET_owner_analytics
| GET_id_ratings_of_owner.

Definition routes : router handler :=
  [(GET, [], GET_list);
   (GET, [Param "id"], GET_id);
   (GET, [Param "id"; Lit "ratings"], GET_id_ratings);
   (GET, [Param "id"; Lit "authenticated"], GET_id_authenticated);
   (GET, [Lit "owner"; Lit "dashboard"], GET_owner_dashboard);
   (GET, [Lit "owner"; Lit "analytics"], GET_owner_analytics);
   (GET, [Param "id"; Lit "ratings"], GET_id_ratings_of_owner)].

End StoresRouter.

(* ================================================================== *)
(** ** The handlers of the GET routes *)

Module Reads.

Import Effects.

(** A computation that leaves the tables and the sequences alone. *)
Definition quiet {A} (m : M A) : Prop :=
  forall w, db (snd (m w)) = db w.

Inductive read_request : M response -> Prop :=
| read_stores q : read_request (Stores.get_stores q)
| read_store id : read_request (Stores.get_store id)
| read_store_ratings id : read_request (Stores.get_store_ratings id)
| read_store_authenticated id userId :
    read_request (StoresRouter.get_store_authenticated id userId)
| read_user_insights userId :
    read_request (Ratings.get_user_insights userId)
| read_user_ratings q userId :
    read_request (Ratings.get_user_ratings q userId)
| read_user_store_rating storeId userId :
    read_request (Ratings.get_user_store_rating storeId userId)
| read_admin_users q : read_request (Admin.get_users q)
| read_users_ratings q userId : read_request (Users.get_ratings q userId)
| read_auth_profile userId : read_request (Account.get_profile userId)
| read_users_profile userId :
    read_request (UsersProfile.get_profile userId).

End Reads.

(* ================================================================== *)
(** ** What the account routes may change in a row of [users] *)

Module AccountChange.

Import Schema.

(** The columns no account route assigns, and the rows of the others. *)
Definition same_identity (uid : Z) (u u' : user) : Prop :=
  u_id u' = u_id u
  /\ u_email u' = u_email u
  /\ u_role u' = u_role u
  /\ u_created_at u' = u_created_at u
  /\ (u_id u <> uid -> u' = u).

Definition profile_change (uid : Z) (u u' : user) : Prop :=
  same_identity uid u u' /\ u_password_hash u' = u_password_hash u.

Definition password_change (uid : Z) (u u' : user) : Prop :=
  same_identity uid u u'
  /\ u_name u' = u_name u /\ u_address u' = u_address u.

(** The tables [d'] are those of [d] but for the rows of [users], each of
    which is related to its former self by [change]. *)
Definition users_changed (change : user -> user -> Prop)
    (d d' : database) : Prop :=
  stores d' = stores d
  /\ ratings d' = ratings d
  /\ Forall2 change (users d) (users d').

End AccountChange.

(* ================================================================== *)
(** ** What a search term is looked for *)

Module Search.

(** The characters that [LIKE] does not take for themselves. *)
Definition special (c : ascii) : bool :=
  (Ascii.eqb c "%" || Ascii.eqb c "_" || Ascii.eqb c "\")%bool.

Definition plain (term : string) : Prop :=
  forall c, In c (list_ascii_of_string term) -> special c = false.

(** [term] occurs in [text], letters compared without regard to case. *)
Definition occurs (term text : string) : Prop :=
  exists pre mid post : string,
    text = pre ++ mid ++ post
    /\ Js.toLowerCase mid = Js.toLowerCase term.

End Search.

(* ================================================================== *)
(** ** [routes/ratings.js]: the recommendations *)

Module Recommendations.

Import Schema Effects SqlBase RatingsSql StoresSql Http.

(** [SELECT AVG(rating) as avg_rating, COUNT( * ) as total_ratings
     FROM ratings WHERE user_id = $1]: one row, always. *)
Record preferences := { avg_rating : option Q; pref_total_ratings : Z }.

Definition select_user_preferences : statement preferences :=
  reading 1 (fun vs _ d =>
    uid <~ int_param 1 vs ;;
    let rows := filter (fun r => Pg.eq_int (r_user_id r) uid) (ratings d) in
    Pg.ok {| avg_rating := Pg.avg (map r_rating rows);
             pref_total_ratings := Pg.count rows |}).

(** A parameter used where the statement needs a NUMERIC; numbers travel
    as the exact rationals they are. *)
Definition numeric_in (v : Pg.value) : Pg.result (option Q) :=
  match v with
  | Pg.Null => Pg.ok None
  | Pg.Int z => Pg.ok (Some (inject_Z z))
  | Pg.Num q => Pg.ok (Some q)
  | Pg.Text s =>
      match Pg.parse_integer s with
      | Some z => Pg.ok (Some (inject_Z z))
      | None => Pg.raise "invalid input syntax for type numeric"
      end
  end.

Definition numeric_param (n : nat) (vs : list Pg.value)
  : Pg.result (option Q) :=
  p <~ Pg.param n vs ;; numeric_in p.

(** [s.id NOT IN (SELECT DISTINCT store_id FROM ratings
                  WHERE user_id = $n)] *)
Definition rated_by (uid : option Z) (d : database) : list Z :=
  Pg.distinct
    (map r_store_id
         (filter (fun r => Pg.eq_int (r_user_id r) uid) (ratings d))).

Definition unrated (uid : option Z) (d : database) (s : store) : bool :=
  negb (existsb (Z.eqb (s_id s)) (rated_by uid d)).

Definition place : Type := Z * string * string.

(** The columns of [GROUP BY s.id, s.name, s.address]. *)
Definition place_of (s : store) : place := (s_id s, s_name s, s_address s).

Definition place_eqb (a b : place) : bool :=
  let '(i, n, ad) := a in
  let '(i', n', ad') := b in
  (i =? i') && (n =? n')%string && (ad =? ad')%string.

(** [FROM stores s LEFT JOIN ratings r ON s.id = r.store_id
     WHERE s.id NOT IN (...) GROUP BY s.id, s.name, s.address] *)
Definition unrated_groups (uid : option Z) (d : database)
  : list (place * list (store * option rating)) :=
  group_by place_eqb (fun p => place_of (fst p))
    (filter (fun p => unrated uid d (fst p)) (left_join_ratings d)).

Record recommendation := {
  rec_id : Z;
  rec_name : string;
  rec_address : string;
  rec_average_rating : Q;
  rec_total_ratings : Z;
  rating_similarity : option Q
}.

(** [COALESCE(AVG(r.rating), 0)], [COUNT(r.id)] and
    [ABS(COALESCE(AVG(r.rating), 0) - $1)] of a group. *)
Definition recommend (preference : option Q)
    (g : place * list (store * option rating)) : recommendation :=
  let '(i, n, ad) := fst g in
  let average :=
    Pg.coalesce (Pg.avg (map r_rating (group_ratings (snd g)))) 0%Q in
  {| rec_id := i; rec_name := n; rec_address := ad;
     rec_average_rating := average;
     rec_total_ratings := Pg.count (map r_id (group_ratings (snd g)));
     rating_similarity :=
       option_map (fun p => Qabs (average - p)) preference |}.

(** [ORDER BY rating_similarity ASC, total_ratings DESC]; a NULL sorts
    after every value. *)
Definition closer (a b : recommendation) : bool :=
  match rating_similarity a, rating_similarity b with
  | Some x, Some y =>
      if Qeq_bool x y then rec_total_ratings b <=? rec_total_ratings a
      else Qle_bool x y
  | Some _, None => true
  | None, Some _ => false
  | None, None => rec_total_ratings b <=? rec_total_ratings a
  end.

(** The second query of the handler, with [LIMIT $3]. *)
Definition select_recommendations : statement (list recommendation) :=
  reading 3 (fun vs _ d =>
    preference <~ numeric_param 1 vs ;;
    uid <~ int_param 2 vs ;;
    l <~ bigint_param 3 vs ;;
    Pg.limit_offset l None
      (Pg.order_by closer (map (recommend preference) (unrated_groups uid d)))).

Record trending := {
  trend_id : Z;
  trend_name : string;
  trend_address : string;
  trend_average_rating : Q;
  trend_total_ratings : Z;
  recent_ratings : Z
}.

(** [COUNT(CASE WHEN r.created_at >= NOW() - INTERVAL '7 days'
                THEN 1 END)] of a group at the time [t]. *)
Definition trend (t : Z) (g : place * list (store * option rating))
  : trending :=
  let '(i, n, ad) := fst g in
  {| trend_id := i; trend_name := n; trend_address := ad;
     trend_average_rating :=
       Pg.coalesce (Pg.avg (map r_rating (group_ratings (snd g)))) 0%Q;
     trend_total_ratings := Pg.count (map r_id (group_ratings (snd g)));
     recent_ratings :=
       Pg.count (filter (fun r => t - Pg.days 7 <=? r_created_at r)
                        (group_ratings (snd g))) |}.

(** [ORDER BY recent_ratings DESC, average_rating DESC] *)
Definition hotter (a b : trending) : bool :=
  if recent_ratings a =? recent_ratings b
  then Qle_bool (trend_average_rating b) (trend_average_rating a)
  else recent_ratings b <=? recent_ratings a.

(** The third query: [HAVING COUNT(CASE ...) > 0 ... LIMIT 5]. *)
Definition select_trending : statement (list trending) :=
  reading 1 (fun vs t d =>
    uid <~ int_param 1 vs ;;
    Pg.ok (firstn 5
             (Pg.order_by hotter
                (filter (fun r => 0 <? recent_ratings r)
                        (map (trend t) (unrated_groups uid d)))))).

Definition json_of_recommendation (r : recommendation) : json :=
  Jobj [("id", Jint (rec_id r)); ("name", Jstr (rec_name r));
        ("address", Jstr (rec_address r));
        ("average_rating", Jnum (rec_average_rating r));
        ("total_ratings", Jint (rec_total_ratings r));
        ("rating_similarity", Jopt_num (rating_similarity r))].

Definition json_of_trending (r : trending) : json :=
  Jobj [("id", Jint (trend_id r)); ("name", Jstr (trend_name r));
        ("address", Jstr (trend_address r));
        ("average_rating", Jnum (trend_average_rating r));
        ("total_ratings", Jint (trend_total_ratings r));
        ("recent_ratings", Jint (recent_ratings r))].

(** [router.get('/user/recommendations', authenticateToken, ...)].
    [userAvgRating] is [avg_rating || 3.5]: the average when the user has
    ratings, 3.5 when there is none. *)
Definition get_user_recommendations (q : list_query) (userId : Z)
  : M response :=
  catch_500 "Recommendations error:" (
    let limit := Js.default (q_limit q) 10 in
    userPreferences <- pool_query select_user_preferences
                         [Pg.Int userId] ;;
    let userAvgRating :=
      Js.default (avg_rating userPreferences) (7 # 2)%Q in
    recommendations <- pool_query select_recommendations
                         [Pg.Num userAvgRating; Pg.Int userId;
                          Pg.Int limit] ;;
    trendingStores <- pool_query select_trending [Pg.Int userId] ;;
    ret (res_json
           (Jobj [("recommendations",
                   Jarr (map json_of_recommendation recommendations));
                  ("trendingStores",
                   Jarr (map json_of_trending trendingStores));
                  ("userPreferences",
                   Jobj [("averageRating", Jnum userAvgRating);
                         ("totalRatings",
                          Jint (pref_total_ratings userPreferences))])]))).

(** A store that [userId] has not rated. *)
Definition fresh_for (userId : Z) (d : database) (id : Z) : Prop :=
  (exists s, In s (stores d) /\ s_id s = id)
  /\ forall r, In r (ratings d) -> r_user_id r = userId ->
               r_store_id r <> id.

End Recommendations.

(* ================================================================== *)
(** * Properties of the handlers *)

(** ** The monad *)

Section MonadFacts.

Import Effects.

Lemma throws_bind {A B} (m : M A) (k : A -> M B) :
  (forall x, throws (k x)) -> throws (bind m k).
Proof.
  intros Hk w. unfold bind.
  destruct (m w) as [[e | x] w1].
  - now exists e, w1.
  - apply Hk.
Qed.

Lemma throws_then {A B} (m : M A) (k : A -> M B) :
  throws m -> throws (bind m k).
Proof.
  intros Hm w. unfold bind.
  destruct (Hm w) as (e & w1 & ->). eauto.
Qed.

Lemma throws_pool_query {R} (st : statement R) (vs : list Pg.value) :
  List.length vs <> placeholders st -> throws (pool_query st vs).
Proof.
  intros Hn w. unfold pool_query.
  destruct (fault_now (faults w)); [eauto |].
  apply Nat.eqb_neq in Hn. rewrite Hn. simpl. eauto.
Qed.

Lemma catch_500_of_throws (label : string) (body : M response) :
  throws body ->
  forall w, fst (run (catch_500 label body) w) = internal_server_error.
Proof.
  intros Hb w. unfold run, catch_500, try_catch.
  destruct (Hb w) as (e & w1 & ->). reflexivity.
Qed.

End MonadFacts.

(** ** [GET /api/ratings/user/insights] *)

(** C9. Every authenticated request to [GET /api/ratings/user/insights] is
    answered with the internal-error response: the rating-distribution
    statement has the placeholder [$1] and is sent without values, so the
    call always fails and the [catch] block answers; the insights payload is
    never sent. This holds in every world: whatever the tables hold and
    whether or not an earlier query of the handler failed. *)
Theorem insights_always_internal_error :
  forall (userId : Z) (w : Effects.world),
    fst (Effects.run (Ratings.get_user_insights userId) w)
    = internal_server_error.
Proof.
  intros userId w. unfold Ratings.get_user_insights.
  apply catch_500_of_throws.
  do 3 (apply throws_bind; intros ?).
  apply throws_then, throws_pool_query.
  discriminate.
Qed.

(** ** Routing of [DELETE /api/ratings/:param] *)

Section Routing.

Import Effects Http Ratings.

Lemma match_one_param (name x : string) :
  x <> "" -> match_path [Param name] [x] = Some [(name, x)].
Proof.
  intros Hx. simpl. apply String.eqb_neq in Hx. now rewrite Hx.
Qed.

(** Two one-parameter patterns accept the same paths. *)
Lemma match_one_param_none (a b : string) (path : list string) :
  match_path [Param a] path = None -> match_path [Param b] path = None.
Proof.
  destruct path as [| x [| y rest]]; simpl;
    try destruct (x =? "")%string; simpl; congruence.
Qed.

Lemma dispatch_never_reaches_last (m : method) (path : list string)
    (h : handler) (params : list (string * string)) :
  dispatch routes m path = Some (h, params) -> h <> DELETE_storeId.
Proof.
  unfold routes. destruct m; cbn [dispatch method_eqb].
  - (* GET *)
    repeat match goal with
           | |- context [match match_path ?p path with _ => _ end] =>
               destruct (match_path p path)
           end; intros [= <- <-]; discriminate.
  - destruct (match_path [Param "storeId"] path);
      intros [= <- <-]; discriminate.
  - destruct (match_path [Param "ratingId"] path);
      intros [= <- <-]; discriminate.
  - destruct (match_path [Param "ratingId"] path) eqn:E1.
    + intros [= <- <-]; discriminate.
    + rewrite (match_one_param_none "ratingId" "storeId" path E1).
      discriminate.
Qed.

End Routing.

(** C10. Two handlers are registered for [DELETE /api/ratings/:param]: the
    path of every such request matches the pattern of the store-id-keyed
    route at the end of the file as well as that of the rating-id-keyed
    route before it. The router gives every [DELETE /api/ratings/x] to the
    first one, which reads [x] as a rating id, and no request of any method
    or path is ever given to the store-id-keyed handler. *)
Theorem delete_route_shadowing :
  (forall x : string, x <> "" ->
     Http.match_path [Http.Param "ratingId"] [x] = Some [("ratingId", x)]
     /\ Http.match_path [Http.Param "storeId"] [x] = Some [("storeId", x)])
  /\ (forall x : string, x <> "" ->
        Http.dispatch Ratings.routes Http.DELETE [x]
        = Some (Ratings.DELETE_ratingId, [("ratingId", x)]))
  /\ (forall recommendations stats (req : Ratings.request) (x : string),
        x <> "" ->
        Ratings.req_method req = Http.DELETE ->
        Ratings.req_path req = [x] ->
        Ratings.serve recommendations stats req
        = Ratings.delete_rating x (Ratings.req_user_id req))
  /\ (forall m path h params,
        Http.dispatch Ratings.routes m path = Some (h, params) ->
        h <> Ratings.DELETE_storeId).
Proof.
  assert (Hd : forall x : string, x <> "" ->
            Http.dispatch Ratings.routes Http.DELETE [x]
            = Some (Ratings.DELETE_ratingId, [("ratingId", x)])).
  { intros x Hx. unfold Ratings.routes. cbn [Http.dispatch Http.method_eqb].
    now rewrite (match_one_param "ratingId" x Hx). }
  repeat split.
  - now apply match_one_param.
  - now apply match_one_param.
  - exact Hd.
  - intros recommendations stats req x Hx Hm Hp.
    unfold Ratings.serve. rewrite Hm, Hp, (Hd x Hx). reflexivity.
  - intros m path h params. apply dispatch_never_reaches_last.
Qed.

(** The shadowing at a concrete request: [DELETE /api/ratings/7]. *)
Lemma delete_route_shadowing_witness :
  Http.dispatch Ratings.routes Http.DELETE ["7"]
  = Some (Ratings.DELETE_ratingId, [("ratingId", "7")]).
Proof.
  apply (proj1 (proj2 delete_route_shadowing) "7"). discriminate.
Defined.

(** [GET /api/ratings/user/stats] meets the same fate: the route
    [/user/:storeId] is registered before it and takes the request, with
    [stats] for a store id. *)
Example user_stats_route_is_shadowed :
  Http.dispatch Ratings.routes Http.GET ["user"; "stats"]
  = Some (Ratings.GET_user_storeId, [("storeId", "stats")]).
Proof. reflexivity. Qed.

(** ** Deleting a rating *)

Section DeleteRating.

Import Schema Effects SqlBase RatingsSql Ratings.

Lemma filter_nil {A} (f : A -> bool) (l : list A) :
  (forall x, In x l -> f x = false) -> filter f l = [].
Proof.
  induction l as [| a l IH]; intros H; simpl; [reflexivity |].
  rewrite (H a (or_introl eq_refl)). apply IH.
  intros x Hx. apply H. now right.
Qed.

Lemma in_range_inv (lo hi z z' : Z) :
  Pg.in_range lo hi z = inr z' -> z' = z.
Proof.
  unfold Pg.in_range.
  destruct ((lo <=? z) && (z <=? hi)); unfold Pg.ok, Pg.raise; congruence.
Qed.

Lemma integer_in_text_inv (lo hi : Z) (s : string) (z : Z) :
  Pg.integer_in lo hi (Pg.Text s) = inr (Some z) ->
  Pg.parse_integer s = Some z.
Proof.
  simpl. destruct (Pg.parse_integer s) as [z0 |]; [| discriminate].
  destruct (Pg.in_range lo hi z0) as [e | z1] eqn:E; simpl; [discriminate |].
  intros [= <-]. now rewrite (in_range_inv _ _ _ _ E).
Qed.

Lemma integer_in_int_inv (lo hi z z' : Z) :
  Pg.integer_in lo hi (Pg.Int z) = inr (Some z') -> z' = z.
Proof.
  simpl. destruct (Pg.in_range lo hi z) as [e | z1] eqn:E; simpl;
    [discriminate |].
  intros [= <-]. now rewrite (in_range_inv _ _ _ _ E).
Qed.

Lemma integer_in_text_some (lo hi : Z) (s : string) (x : option Z) :
  Pg.integer_in lo hi (Pg.Text s) = inr x -> exists z, x = Some z.
Proof.
  simpl. destruct (Pg.parse_integer s) as [z0 |]; [| discriminate].
  destruct (Pg.in_range lo hi z0); simpl; [discriminate |].
  intros [= <-]. eauto.
Qed.

Lemma integer_in_int_some (lo hi z : Z) (x : option Z) :
  Pg.integer_in lo hi (Pg.Int z) = inr x -> exists z', x = Some z'.
Proof.
  simpl. destruct (Pg.in_range lo hi z); simpl; [discriminate |].
  intros [= <-]. eauto.
Qed.

End DeleteRating.



(** ** Running statements in a world without faults *)

Section Execution.

Import Schema Effects SqlBase RatingsSql.

Lemma pool_query_ok {R} (st : statement R) (vs : list Pg.value)
    (w : world) (r : R) (d' : database) :
  faults w = [] ->
  List.length vs = placeholders st ->
  exec st vs (now w) (db w) = (inr r, d') ->
  pool_query st vs w = (inr r, with_db d' (with_faults [] w)).
Proof.
  intros Hf Hn He. unfold pool_query.
  rewrite Hf, Hn, Nat.eqb_refl, He. reflexivity.
Qed.

Lemma pool_query_failed {R} (st : statement R) (vs : list Pg.value)
    (w : world) (e : exn) (d' : database) :
  faults w = [] ->
  List.length vs = placeholders st ->
  exec st vs (now w) (db w) = (inl e, d') ->
  pool_query st vs w
  = (inl e, count_failure (with_db d' (with_faults [] w))).
Proof.
  intros Hf Hn He. unfold pool_query.
  rewrite Hf, Hn, Nat.eqb_refl, He. reflexivity.
Qed.

Lemma in_range_ok (lo hi z : Z) :
  lo <= z <= hi -> Pg.in_range lo hi z = Pg.ok z.
Proof.
  intros [H1 H2]. unfold Pg.in_range.
  apply Z.leb_le in H1. apply Z.leb_le in H2. now rewrite H1, H2.
Qed.

Lemma int4_in_int (z : Z) :
  Pg.int4_min <= z <= Pg.int4_max -> Pg.int4_in (Pg.Int z) = Pg.ok (Some z).
Proof.
  intros H. unfold Pg.int4_in. simpl. now rewrite in_range_ok.
Qed.

Lemma int4_in_text (s : string) (z : Z) :
  Pg.parse_integer s = Some z ->
  Pg.int4_min <= z <= Pg.int4_max ->
  Pg.int4_in (Pg.Text s) = Pg.ok (Some z).
Proof.
  intros Hp H. unfold Pg.int4_in. simpl. now rewrite Hp, in_range_ok.
Qed.

Lemma int4_in_rating (q : Q) (z : Z) :
  Js.integral q = Some z -> 1 <= z <= 5 ->
  Pg.int4_in (Pg.Num q) = Pg.ok (Some z).
Proof.
  intros Hq H. unfold Pg.int4_in. simpl. rewrite Hq, in_range_ok.
  - reflexivity.
  - unfold Pg.int4_min, Pg.int4_max. lia.
Qed.

Lemma has_store_in (d : database) (sid : Z) :
  has_store d sid = true -> exists s, In s (stores d) /\ s_id s = sid.
Proof.
  unfold has_store. intros H. apply existsb_exists in H.
  destruct H as (s & Hs & He). exists s. split; [exact Hs | lia].
Qed.

Lemma has_user_in (d : database) (uid : Z) :
  has_user d uid = true -> exists u, In u (users d) /\ u_id u = uid.
Proof.
  unfold has_user. intros H. apply existsb_exists in H.
  destruct H as (u & Hu & He). exists u. split; [exact Hu | lia].
Qed.

Lemma filter_existsb {A} (f : A -> bool) (l : list A) :
  existsb f l = negb ((List.length (filter f l) =? 0)%nat).
Proof.
  induction l as [| a l IH]; simpl; [reflexivity |].
  destruct (f a); simpl; [reflexivity | exact IH].
Qed.

Lemma pair_matches_same (uid sid : Z) (r : rating) :
  pair_matches (Some uid) (Some sid) r = same_pair uid sid r.
Proof. reflexivity. Qed.

End Execution.

(** ** Submitting a rating *)

Section Submit.

Import Schema Effects SqlBase RatingsSql Ratings.

Ltac stmt :=
  cbn [exec placeholders reading writing select_store_id
         select_rating_of_user_for_store update_rating_of_user_for_store
         select_store_stats insert_rating];
  unfold int_param, text_param;
  cbn [Pg.param nth_error Nat.sub Pg.rbind Pg.ok Pg.of_opt_text Pg.text_in].

Ltac world_fields :=
  cbn [db now faults query_failures with_db with_faults count_failure
         log_line].

Lemma existsb_length_filter {A B} (f : A -> bool) (g : A -> B)
    (l : list A) :
  existsb f l = true ->
  (List.length (map g (filter f l)) =? 0)%nat = false
  /\ (0 <? List.length (map g (filter f l)))%nat = true.
Proof.
  intros H. rewrite filter_existsb in H. rewrite length_map.
  destruct (List.length (filter f l)); [discriminate | split; reflexivity].
Qed.

Lemma not_existsb_length_filter {A B} (f : A -> bool) (g : A -> B)
    (l : list A) :
  existsb f l = false ->
  (0 <? List.length (map g (filter f l)))%nat = false.
Proof.
  intros H. rewrite filter_existsb in H. rewrite length_map.
  destruct (List.length (filter f l)); [reflexivity | discriminate].
Qed.

Lemma text_in_comment (c : option string) :
  Pg.text_in (Pg.of_opt_text c) = Pg.ok c.
Proof. now destruct c. Qed.

(** What the UPDATE branch of the handler does to the matching rows. *)
Lemma post_rating_updates (w : world) (storeId : string) (sid uid z : Z)
    (b : rating_body) :
  faults w = [] ->
  Pg.int4_in (Pg.Text storeId) = Pg.ok (Some sid) ->
  Pg.int4_in (Pg.Int uid) = Pg.ok (Some uid) ->
  Pg.int4_in (Pg.of_js (b_rating b)) = Pg.ok (Some z) ->
  rating_check z = true ->
  has_store (db w) sid = true ->
  existsb (same_pair uid sid) (ratings (db w)) = true ->
  exists res w',
    run (post_rating storeId b uid) w = (res, w')
    /\ status res = 200
    /\ field "message" (body res) = Some (Jstr "Rating updated successfully")
    /\ faults w' = [] /\ now w' = now w
    /\ db w' = with_ratings
                 (map (fun r => if same_pair uid sid r
                                then set_rating z (Js.or_null (b_comment b))
                                       (now w) r
                                else r) (ratings (db w))) (db w).
Proof.
  intros Hf Hsid Huid Hz Hck Hst Hex.
  unfold run, post_rating, catch_500, try_catch, bind.
  erewrite pool_query_ok; [| exact Hf | reflexivity |].
  2:{ stmt. rewrite Hsid. cbn [Pg.rbind Pg.ok Pg.eq_int]. reflexivity. }
  destruct (existsb_length_filter _ s_id _ Hst) as [-> _].
  erewrite pool_query_ok; [| reflexivity | reflexivity |].
  2:{ stmt. rewrite Huid, Hsid. cbn [Pg.rbind Pg.ok]. reflexivity. }
  world_fields.
  change (pair_matches (Some uid) (Some sid)) with (same_pair uid sid).
  destruct (existsb_length_filter _ (fun r => (r_id r, r_rating r, r_comment r))
              _ Hex) as [_ ->].
  erewrite pool_query_ok; [| reflexivity | reflexivity |].
  2:{ stmt. world_fields. rewrite Hz, text_in_comment, Huid, Hsid.
      cbn [Pg.rbind Pg.ok]. unfold update_ratings_where.
      change (pair_matches (Some uid) (Some sid)) with (same_pair uid sid).
      rewrite Hex, Hck. cbn [Pg.ok]. reflexivity. }
  erewrite pool_query_ok; [| reflexivity | reflexivity |].
  2:{ stmt. rewrite Hsid. cbn [Pg.rbind Pg.ok]. reflexivity. }
  eexists _, _. split; [reflexivity |].
  repeat split.
Qed.

(** What the INSERT branch of the handler does. *)
Lemma post_rating_inserts (w : world) (storeId : string) (sid uid z : Z)
    (b : rating_body) :
  faults w = [] ->
  Pg.int4_in (Pg.Text storeId) = Pg.ok (Some sid) ->
  Pg.int4_in (Pg.Int uid) = Pg.ok (Some uid) ->
  Pg.int4_in (Pg.of_js (b_rating b)) = Pg.ok (Some z) ->
  rating_check z = true ->
  has_store (db w) sid = true ->
  has_user (db w) uid = true ->
  existsb (same_pair uid sid) (ratings (db w)) = false ->
  existsb (fun r => r_id r =? ratings_id_seq (db w)) (ratings (db w))
  = false ->
  exists res w',
    run (post_rating storeId b uid) w = (res, w')
    /\ status res = 201
    /\ field "message" (body res)
       = Some (Jstr "Rating submitted successfully")
    /\ faults w' = [] /\ now w' = now w
    /\ db w' = with_ratings
                 (ratings (db w) ++
                  [{| r_id := ratings_id_seq (db w); r_user_id := uid;
                      r_store_id := sid; r_rating := z;
                      r_comment := Js.or_null (b_comment b);
                      r_created_at := now w; r_updated_at := now w |}])
                 (with_ratings_id_seq (ratings_id_seq (db w) + 1) (db w)).
Proof.
  intros Hf Hsid Huid Hz Hck Hst Hus Hex Hpk.
  unfold run, post_rating, catch_500, try_catch, bind.
  erewrite pool_query_ok; [| exact Hf | reflexivity |].
  2:{ stmt. rewrite Hsid. cbn [Pg.rbind Pg.ok Pg.eq_int]. reflexivity. }
  destruct (existsb_length_filter _ s_id _ Hst) as [-> _].
  erewrite pool_query_ok; [| reflexivity | reflexivity |].
  2:{ stmt. rewrite Huid, Hsid. cbn [Pg.rbind Pg.ok]. reflexivity. }
  world_fields.
  change (pair_matches (Some uid) (Some sid)) with (same_pair uid sid).
  rewrite (not_existsb_length_filter _
             (fun r => (r_id r, r_rating r, r_comment r)) _ Hex).
  erewrite pool_query_ok; [| reflexivity | reflexivity |].
  2:{ stmt. world_fields. rewrite Huid, Hsid, Hz, text_in_comment.
      cbn [Pg.rbind Pg.ok]. rewrite Hck, Hpk, Hex, Hus, Hst.
      cbn [negb Pg.ok]. reflexivity. }
  erewrite pool_query_ok; [| reflexivity | reflexivity |].
  2:{ stmt. rewrite Hsid. cbn [Pg.rbind Pg.ok]. reflexivity. }
  eexists _, _. split; [reflexivity |].
  repeat split.
Qed.

Lemma filter_updated (uid sid z t : Z) (c : option string)
    (l : list rating) :
  filter (same_pair uid sid)
    (map (fun r => if same_pair uid sid r then set_rating z c t r else r) l)
  = map (set_rating z c t) (filter (same_pair uid sid) l).
Proof.
  induction l as [| r l IH]; simpl; [reflexivity |].
  destruct (same_pair uid sid r) eqn:E; simpl.
  - change (same_pair uid sid (set_rating z c t r))
      with (same_pair uid sid r).
    rewrite E. simpl. now rewrite IH.
  - now rewrite E, IH.
Qed.

Lemma ids_updated (f : rating -> bool) (z t : Z) (c : option string)
    (l : list rating) :
  map r_id (map (fun r => if f r then set_rating z c t r else r) l)
  = map r_id l.
Proof.
  rewrite map_map. apply map_ext. intros r. now destruct (f r).
Qed.

Lemma same_pair_eq (uid sid : Z) (r : rating) :
  same_pair uid sid r = true -> (r_user_id r, r_store_id r) = (uid, sid).
Proof.
  unfold same_pair. intros H. apply andb_true_iff in H.
  destruct H as [H1 H2]. apply Z.eqb_eq in H1. apply Z.eqb_eq in H2.
  now rewrite H1, H2.
Qed.

(** [UNIQUE(user_id, store_id)]: at most one row per pair. *)
Lemma unique_pair_filter (uid sid : Z) (l : list rating) :
  NoDup (map (fun r => (r_user_id r, r_store_id r)) l) ->
  filter (same_pair uid sid) l = []
  \/ exists r, filter (same_pair uid sid) l = [r].
Proof.
  induction l as [| a l IH]; simpl; intros Hnd; [now left |].
  inversion Hnd as [| x xs Hnotin Hnd']; subst.
  destruct (same_pair uid sid a) eqn:E.
  - right. exists a. f_equal. apply filter_nil. intros r Hr.
    destruct (same_pair uid sid r) eqn:Er; [| reflexivity].
    exfalso. apply Hnotin.
    rewrite (same_pair_eq _ _ _ E), <- (same_pair_eq _ _ _ Er).
    apply (in_map (fun r => (r_user_id r, r_store_id r))). exact Hr.
  - now apply IH.
Qed.

Lemma existsb_of_filter {A} (f : A -> bool) (l : list A) (x : A) :
  filter f l = [x] -> existsb f l = true.
Proof. intros H. rewrite filter_existsb, H. reflexivity. Qed.

Lemma fresh_id_absent (d : database) :
  (forall r, In r (ratings d) -> r_id r < ratings_id_seq d) ->
  existsb (fun r => r_id r =? ratings_id_seq d) (ratings d) = false.
Proof.
  intros H. apply not_true_is_false. intros He.
  apply existsb_exists in He. destruct He as (r & Hr & Heq).
  apply Z.eqb_eq in Heq. specialize (H r Hr). lia.
Qed.

Lemma valid_rating_bound (v : Js.value) :
  rating_is_valid v = true ->
  exists q z, v = Js.number q /\ Js.integral q = Some z
              /\ Pg.int4_in (Pg.of_js v) = Pg.ok (Some z)
              /\ rating_check z = true.
Proof.
  destruct v as [| | q | s]; intros H; try discriminate H.
  unfold rating_is_valid in H.
  destruct (Js.integral q) as [z |] eqn:E; [| discriminate].
  exists q, z. repeat split; try assumption.
  apply int4_in_rating; [exact E |].
  apply andb_true_iff in H. destruct H as [H1 H2].
  apply Z.leb_le in H1. apply Z.leb_le in H2. lia.
Qed.


Lemma sample_consistent : consistent Sample.database.
Proof.
  constructor; simpl.
  1-5: repeat constructor; simpl; intuition (discriminate || congruence).
  1-4: intros x H;
    repeat (destruct H as [<- | H]; [vm_compute; intuition discriminate |]);
    destruct H.
  all: vm_compute; discriminate.
Qed.



End Submit.

(** ** Sort parameters outside the allow-list *)

Section SortFallback.

Import Effects Http.

Lemma assign_const_throws {A} (name : string) (v : A) :
  throws (assign_const name v).
Proof. intros w. unfold assign_const, throw. eauto. Qed.

(** An unlisted [sortBy] runs the fallback assignment, which throws. *)
Lemma get_stores_unlisted_sortBy (q : list_query) (s : string) :
  q_sortBy q = Some s ->
  Js.includes ["name"; "address"; "created_at"] s = false ->
  forall w, fst (run (Stores.get_stores q) w) = internal_server_error.
Proof.
  intros Hq Hs. unfold Stores.get_stores. apply catch_500_of_throws.
  cbv zeta. rewrite Hq. cbn [Js.default]. rewrite Hs. cbn [negb].
  apply throws_then, assign_const_throws.
Qed.

End SortFallback.

(** C4, evaluated on the code. A list request whose [sortBy] or
    [sortOrder] is outside the allow-list is answered with the internal
    error, whereas the same request without the parameter succeeds: the
    fallback assigns to a [const] binding, which throws. The first three
    lines are [GET /api/stores?sortBy=price], [GET /api/admin/users?sortBy=id]
    and [GET /api/users/ratings?sortOrder=up]. *)
Theorem sort_fallback_is_internal_error :
  let by_price :=
    {| Http.q_search := None; Http.q_role := None;
       Http.q_sortBy := Some "price"; Http.q_sortOrder := None;
       Http.q_page := None; Http.q_limit := None |} in
  let by_id :=
    {| Http.q_search := None; Http.q_role := None;
       Http.q_sortBy := Some "id"; Http.q_sortOrder := None;
       Http.q_page := None; Http.q_limit := None |} in
  let upwards :=
    {| Http.q_search := None; Http.q_role := None;
       Http.q_sortBy := None; Http.q_sortOrder := Some "up";
       Http.q_page := None; Http.q_limit := None |} in
  fst (Effects.run (Stores.get_stores by_price) Sample.world)
  = internal_server_error
  /\ fst (Effects.run (Admin.get_users by_id) Sample.world)
     = internal_server_error
  /\ fst (Effects.run (Users.get_ratings upwards 2) Sample.world)
     = internal_server_error
  /\ status (fst (Effects.run (Stores.get_stores Http.no_query)
                    Sample.world)) = 200
  /\ status (fst (Effects.run (Admin.get_users Http.no_query)
                    Sample.world)) = 200
  /\ status (fst (Effects.run (Users.get_ratings Http.no_query 2)
                    Sample.world)) = 200.
Proof.
  vm_compute. repeat split.
Qed.

(** ** Failed queries *)

Section FailStop.

Import Effects.

Lemma fail_stop_ret {A} (x : A) : fail_stop (ret x).
Proof.
  intros w r w' [= <- <-]. split; [lia | intros H; lia].
Qed.

Lemma fail_stop_throw {A} (e : exn) : fail_stop (@throw A e).
Proof.
  intros w r w' [= <- <-]. split; [lia | eauto].
Qed.

Lemma fail_stop_bind {A B} (m : M A) (k : A -> M B) :
  fail_stop m -> (forall x, fail_stop (k x)) -> fail_stop (bind m k).
Proof.
  intros Hm Hk w r w'. unfold bind.
  destruct (m w) as [[e | x] w1] eqn:E.
  - intros [= <- <-]. destruct (Hm _ _ _ E) as [Hle _]. eauto.
  - intros E2. destruct (Hm _ _ _ E) as [Hle Hlt].
    destruct (Hk x _ _ _ E2) as [Hle2 Hlt2].
    assert (query_failures w = query_failures w1).
    { destruct (Nat.eq_dec (query_failures w) (query_failures w1)) as [|n];
        [assumption |].
      destruct Hlt as (e & He); [lia | discriminate]. }
    split; [lia |]. intros H'. apply Hlt2. lia.
Qed.

Lemma fail_stop_pool_query {R} (st : statement R) (vs : list Pg.value) :
  fail_stop (pool_query st vs).
Proof.
  intros w r w'. unfold pool_query.
  destruct (fault_now (faults w)).
  { intros [= <- <-]. simpl. split; [lia | eauto]. }
  destruct (negb (List.length vs =? placeholders st)%nat).
  { intros [= <- <-]. simpl. split; [lia | eauto]. }
  destruct (exec st vs (now w) (db w)) as [[e | rows] d'];
    intros [= <- <-]; simpl; split; try lia; eauto; intros H; lia.
Qed.

Lemma fail_stop_hash {L : Auth.Libraries} (data : string) (n : nat) :
  fail_stop (Auth.hash data n).
Proof.
  intros w r w' [= <- <-]. simpl. split; [lia | intros H; lia].
Qed.

Lemma fail_stop_sign {L : Auth.Libraries} (c : Auth.claims) :
  fail_stop (Auth.sign c).
Proof.
  intros w r w'. unfold Auth.sign.
  destruct (env_JWT_SECRET w); intros [= <- <-]; split; try lia; eauto;
    intros H; lia.
Qed.

Lemma surfaces_catch_500 (label : string) (body : M response) :
  fail_stop body -> surfaces (catch_500 label body).
Proof.
  intros Hb w. unfold run, catch_500, try_catch.
  destruct (body w) as [[e | x] w1] eqn:E; simpl; [reflexivity |].
  intros H. destruct (Hb _ _ _ E) as [_ Hlt].
  destruct (Hlt H) as (e & He). discriminate.
Qed.

Lemma surfaces_ret (r : response) : surfaces (ret r).
Proof. intros w. unfold run, ret. simpl. lia. Qed.

End FailStop.

Ltac fail_stop_step :=
  first
    [ apply fail_stop_bind; [| intros ?]
    | apply fail_stop_pool_query
    | apply fail_stop_ret
    | apply fail_stop_throw
    | apply fail_stop_hash
    | apply fail_stop_sign
    | match goal with
      | |- Effects.fail_stop (if ?b then _ else _) => destruct b
      | |- Effects.fail_stop (match ?x with _ => _ end) => destruct x
      end ].

Ltac fail_stop := cbv zeta; unfold Effects.assign_const; repeat fail_stop_step.




(** ** Grouping the joined rows of the stores *)

Section Grouping.

Import Schema Effects SqlBase StoresSql.

Lemma filter_all {A} (f : A -> bool) (l : list A) :
  (forall x, In x l -> f x = true) -> filter f l = l.
Proof.
  induction l as [| a l IH]; intros H; simpl; [reflexivity |].
  rewrite (H a (or_introl eq_refl)). f_equal. apply IH.
  intros x Hx. apply H. now right.
Qed.

Lemma distinct_by_incl {K} (eqb : K -> K -> bool) (ks : list K) (k : K) :
  In k (distinct_by eqb ks) -> In k ks.
Proof.
  induction ks as [| a ks IH]; simpl; [tauto |].
  intros [-> | H]; [now left |].
  apply filter_In in H. right. apply IH, H.
Qed.

(** A run of one key in front of keys that differ from it. *)
Lemma distinct_by_run {K} (eqb : K -> K -> bool) (k : K)
    (run rest : list K) :
  eqb k k = true ->
  run <> [] ->
  (forall x, In x run -> x = k) ->
  (forall x, In x rest -> eqb k x = false) ->
  distinct_by eqb (run ++ rest) = k :: distinct_by eqb rest.
Proof.
  intros Hrefl Hne Hrun Hrest.
  assert (Hkeep : filter (fun k' => negb (eqb k k')) (distinct_by eqb rest)
                  = distinct_by eqb rest).
  { apply filter_all. intros x Hx.
    now rewrite (Hrest x (distinct_by_incl _ _ _ Hx)). }
  induction run as [| a run IH]; [congruence |].
  assert (a = k) by (apply Hrun; now left). subst a.
  destruct run as [| b run].
  - simpl. now rewrite Hkeep.
  - change (distinct_by eqb ((k :: b :: run) ++ rest))
      with (k :: filter (fun k' => negb (eqb k k'))
                   (distinct_by eqb ((b :: run) ++ rest))).
    rewrite IH; [| discriminate | intros x Hx; apply Hrun; now right].
    simpl. rewrite Hrefl. simpl. now rewrite Hkeep.
Qed.

Lemma group_by_run {A K} (eqb : K -> K -> bool) (key : A -> K) (k : K)
    (run rest : list A) :
  eqb k k = true ->
  run <> [] ->
  (forall a, In a run -> key a = k) ->
  (forall y, In y rest -> eqb k (key y) = false /\ eqb (key y) k = false) ->
  group_by eqb key (run ++ rest) = (k, run) :: group_by eqb key rest.
Proof.
  intros Hrefl Hne Hrun Hrest. unfold group_by.
  rewrite map_app, (distinct_by_run eqb k).
  - cbn [map]. f_equal.
    + f_equal. rewrite filter_app, filter_all, (filter_nil _ rest).
      * apply app_nil_r.
      * intros y Hy. apply Hrest, Hy.
      * intros a Ha. now rewrite (Hrun a Ha).
    + apply map_ext_in. intros k' Hk'. f_equal.
      rewrite filter_app, (filter_nil _ run); [reflexivity |].
      intros a Ha. rewrite (Hrun a Ha).
      apply distinct_by_incl, in_map_iff in Hk'.
      destruct Hk' as (y & <- & Hy). apply Hrest, Hy.
  - exact Hrefl.
  - destruct run; [congruence | discriminate].
  - intros x Hx. apply in_map_iff in Hx. destruct Hx as (a & <- & Ha).
    now apply Hrun.
  - intros x Hx. apply in_map_iff in Hx. destruct Hx as (y & <- & Hy).
    apply Hrest, Hy.
Qed.

Lemma store_key_eqb_refl (k : store_key) : store_key_eqb k k = true.
Proof.
  destruct k as [[[i n] a] c]. simpl.
  now rewrite !Z.eqb_refl, !String.eqb_refl.
Qed.

Lemma store_key_eqb_id (s s' : store) :
  s_id s <> s_id s' ->
  store_key_eqb (store_key_of s) (store_key_of s') = false.
Proof.
  intros H. unfold store_key_eqb, store_key_of.
  apply Z.eqb_neq in H. now rewrite H.
Qed.

Lemma joined_fst (d : database) (s : store) (p : store * option rating) :
  In p (joined_ratings d s) -> fst p = s.
Proof.
  unfold joined_ratings. destruct (ratings_of_store d s) as [| r rs].
  - intros [<- | []]. reflexivity.
  - intros H. apply in_map_iff in H. destruct H as (x & <- & _). reflexivity.
Qed.

Lemma joined_nonempty (d : database) (s : store) : joined_ratings d s <> [].
Proof.
  unfold joined_ratings. destruct (ratings_of_store d s); discriminate.
Qed.

Lemma filter_joined (keep : store -> bool) (d : database) (s : store) :
  filter (fun p => keep (fst p)) (joined_ratings d s)
  = if keep s then joined_ratings d s else [].
Proof.
  destruct (keep s) eqn:E.
  - apply filter_all. intros p Hp. now rewrite (joined_fst _ _ _ Hp).
  - apply filter_nil. intros p Hp. now rewrite (joined_fst _ _ _ Hp).
Qed.

Lemma non_null_some {A} (l : list A) : Pg.non_null (map Some l) = l.
Proof.
  unfold Pg.non_null. induction l as [| a l IH]; simpl; [reflexivity |].
  now rewrite IH.
Qed.

(** The ratings of the group of a store are the ratings of the store. *)
Lemma group_ratings_joined (d : database) (s : store) :
  group_ratings (joined_ratings d s) = ratings_of_store d s.
Proof.
  unfold group_ratings, joined_ratings.
  destruct (ratings_of_store d s) as [| r rs] eqn:E; [reflexivity |].
  rewrite map_map. cbn [snd]. apply (non_null_some (r :: rs)).
Qed.

(** With unique store ids, the grouped join has one row per store that
    satisfies the filter, in the order of the table. *)
Lemma summaries_by_store (keep : store -> bool) (d : database) :
  NoDup (map s_id (stores d)) ->
  summaries keep d = map (summary_of_store d) (filter keep (stores d)).
Proof.
  unfold summaries, left_join_ratings.
  induction (stores d) as [| s ss IH]; intros Hnd; [reflexivity |].
  inversion Hnd as [| x xs Hnotin Hnd']; subst.
  cbn [flat_map filter]. rewrite filter_app, filter_joined.
  destruct (keep s); [| now apply IH].
  rewrite (group_by_run store_key_eqb _ (store_key_of s)).
  - cbn [map]. f_equal. now apply IH.
  - apply store_key_eqb_refl.
  - apply joined_nonempty.
  - intros a Ha. now rewrite (joined_fst _ _ _ Ha).
  - intros y Hy. apply filter_In in Hy. destruct Hy as [Hy _].
    apply in_flat_map in Hy. destruct Hy as (s' & Hs' & Hy).
    rewrite (joined_fst _ _ _ Hy).
    assert (Hne : s_id s <> s_id s').
    { intros Heq. apply Hnotin. rewrite Heq. now apply in_map. }
    split; apply store_key_eqb_id; congruence.
Qed.

Lemma unique_store (d : database) (s : store) :
  NoDup (map s_id (stores d)) ->
  In s (stores d) ->
  filter (fun s' => s_id s' =? s_id s) (stores d) = [s].
Proof.
  induction (stores d) as [| a l IH]; intros Hnd Hin; [destruct Hin |].
  inversion Hnd as [| x xs Hnotin Hnd']; subst. simpl.
  destruct Hin as [-> | Hin].
  - rewrite Z.eqb_refl. f_equal. apply filter_nil. intros x Hx.
    apply Z.eqb_neq. intros Heq. apply Hnotin. rewrite <- Heq.
    now apply in_map.
  - destruct (s_id a =? s_id s) eqn:E.
    + exfalso. apply Z.eqb_eq in E. apply Hnotin. rewrite E.
      now apply in_map.
    + now apply IH.
Qed.

End Grouping.

(** ** The aggregate rating of a store *)

Section Aggregate.

Import Schema Effects SqlBase StoresSql.

Lemma avg_is_mean (values : list Z) :
  values <> [] ->
  exists q, Pg.avg values = Some q
            /\ (q == inject_Z (Pg.sum values)
                     / inject_Z (Z.of_nat (List.length values)))%Q.
Proof.
  destruct values as [| v vs]; [congruence | intros _].
  eexists. split; [reflexivity |].
  rewrite Qmake_Qdiv.
  change (List.length (v :: vs)) with (S (List.length vs)).
  rewrite <- Pos.of_nat_succ. reflexivity.
Qed.

Lemma ratings_of_store_filter (d : database) (s : store) :
  ratings_of_store d s
  = filter (fun r => r_store_id r =? s_id s) (ratings d).
Proof.
  unfold ratings_of_store. apply filter_ext. intros r. apply Z.eqb_sym.
Qed.

(** The derived aggregate of a store: the count of its ratings, and their
    mean or 0 when it has none. *)
Lemma summary_aggregate (d : database) (s : store) :
  let values :=
    map r_rating (filter (fun r => r_store_id r =? s_id s) (ratings d)) in
  let n := Z.of_nat (List.length values) in
  sr_total_ratings (summary_of_store d s) = n
  /\ (n = 0 -> sr_average_rating (summary_of_store d s) = 0%Q)
  /\ (0 < n ->
      (sr_average_rating (summary_of_store d s)
       == inject_Z (Pg.sum values) / inject_Z n)%Q).
Proof.
  intros values n. unfold summary_of_store, summarize, store_key_of.
  cbn [fst snd sr_total_ratings sr_average_rating].
  rewrite group_ratings_joined, ratings_of_store_filter. fold values.
  unfold Pg.count. rewrite !length_map. subst n. unfold values at 1.
  rewrite length_map. split; [reflexivity |]. split.
  - intros H0. destruct values; [reflexivity | discriminate].
  - intros Hpos. destruct (avg_is_mean values) as (q & -> & Hq).
    + intros ->. simpl in Hpos. lia.
    + exact Hq.
Qed.

End Aggregate.


(** The example of the spec: City Market, rated 5 by one user. *)
Example city_market_summary :
  fst (Effects.run (Stores.get_store "2") Sample.world)
  = res_json
      (Jobj [("store",
              Jobj [("id", Jint 2); ("name", Jstr "City Market");
                    ("address", Jstr "200 Market Way, Downtown, DT 44444");
                    ("created_at", Jint 0); ("average_rating", Jnum 5);
                    ("total_ratings", Jint 1)])]).
Proof. reflexivity. Qed.


(** ** Pages of a list *)

Section Pages.

(** Cutting a list into pages of [L] rows and gluing [k] of them, enough
    to reach its end, gives the list back. *)
Lemma pages_concat {A} (L : nat) :
  (1 <= L)%nat ->
  forall (k : nat) (l : list A),
    (List.length l <= k * L)%nat ->
    List.concat (map (fun p => firstn L (skipn ((p - 1) * L) l)) (seq 1 k)) = l.
Proof.
  intros HL. induction k as [| k IH]; intros l Hlen.
  - destruct l; [reflexivity | simpl in Hlen; lia].
  - cbn [seq map List.concat]. rewrite <- seq_shift, map_map.
    cbn [Nat.sub Nat.mul skipn].
    transitivity (firstn L l ++ skipn L l)%list; [| apply firstn_skipn].
    f_equal.
    rewrite <- (IH (skipn L l)).
    + f_equal. apply map_ext_in. intros p Hp. apply in_seq in Hp.
      replace ((p - 0) * L)%nat with ((p - 1) * L + L)%nat by nia.
      now rewrite skipn_skipn.
    + rewrite length_skipn. lia.
Qed.

Lemma insert_sorted_perm {A} (le : A -> A -> bool) (x : A) (l : list A) :
  Permutation (Pg.insert_sorted le x l) (x :: l).
Proof.
  induction l as [| y l IH]; simpl; [reflexivity |].
  destruct (le x y); [reflexivity |].
  rewrite IH. apply perm_swap.
Qed.

(** [ORDER BY] rearranges the rows: none is lost, none is repeated. *)
Lemma order_by_perm {A} (le : A -> A -> bool) (l : list A) :
  Permutation (Pg.order_by le l) l.
Proof.
  unfold Pg.order_by. induction l as [| x l IH]; simpl; [reflexivity |].
  rewrite insert_sorted_perm. now constructor.
Qed.

Lemma order_by_length {A} (le : A -> A -> bool) (l : list A) :
  List.length (Pg.order_by le l) = List.length l.
Proof. apply Permutation_length, order_by_perm. Qed.

(** [Math.ceil(N / L)] is the least number of pages of [L] rows that hold
    [N] rows. *)
Lemma ceil_div_pages (N L : Z) :
  0 <= N -> 1 <= L ->
  exists P, Js.Math_ceil_div N L = Some P
            /\ 0 <= P /\ (P - 1) * L < N <= P * L.
Proof.
  intros HN HL. unfold Js.Math_ceil_div.
  destruct (L =? 0) eqn:E; [apply Z.eqb_eq in E; lia |].
  eexists. split; [reflexivity |].
  pose proof (Z_div_mod_eq_full (- N) L) as Hdm.
  pose proof (Z.mod_pos_bound (- N) L ltac:(lia)) as Hb.
  nia.
Qed.

Lemma upper_of_lower (c : ascii) :
  Js.upper_ascii (Js.lower_ascii c) = Js.upper_ascii c.
Proof.
  destruct c as [[] [] [] [] [] [] [] []]; reflexivity.
Qed.

Lemma toUpperCase_of_lower (s : string) :
  Js.toUpperCase (Js.toLowerCase s) = Js.toUpperCase s.
Proof.
  unfold Js.toUpperCase, Js.toLowerCase.
  induction s as [| c s IH]; simpl; [reflexivity |].
  now rewrite upper_of_lower, IH.
Qed.

(** A sort order that passes the allow-list is spelled ASC or DESC once
    it is put in upper case. *)
Lemma allowed_order_upper (s : string) :
  Js.includes ["asc"; "desc"] (Js.toLowerCase s) = true ->
  Js.toUpperCase s = "ASC" \/ Js.toUpperCase s = "DESC".
Proof.
  unfold Js.includes. cbn [existsb]. rewrite orb_false_r.
  intros H. apply orb_true_iff in H.
  rewrite <- toUpperCase_of_lower.
  destruct H as [H | H]; apply String.eqb_eq in H; rewrite H; auto.
Qed.

End Pages.

(** ** The list endpoints *)

Section ListEndpoints.

Import Schema Effects SqlBase Http.

Lemma page_of_map {A B} (f : A -> B) (L p : Z) (rows : list A) :
  Api.page_of L p (map f rows) = map f (Api.page_of L p rows).
Proof.
  unfold Api.page_of. now rewrite skipn_map, firstn_map.
Qed.

(** From the answer to each page to the pagination law. *)
Lemma paginates_of_pages (h : list_query -> M response)
    (listKey totalKey : string) (w : world) (q : list_query) (L : Z)
    (rows : list json) :
  1 <= L ->
  (forall p, 1 <= p -> (p - 1) * L < Z.of_nat (List.length rows) ->
     fst (run (h (with_page p q)) w)
     = res_json
         (Jobj [(listKey, Jarr (Api.page_of L p rows));
                ("pagination",
                 pagination totalKey p
                   (Js.Math_ceil_div (Z.of_nat (List.length rows)) L)
                   (Z.of_nat (List.length rows)) L)])) ->
  Api.paginates h listKey totalKey w q L rows.
Proof.
  intros HL Hpage. unfold Api.paginates. cbv zeta.
  destruct (ceil_div_pages (Z.of_nat (List.length rows)) L)
    as (P & HP & HP0 & Hlo & Hhi); [lia | exact HL |].
  exists P. repeat split; try assumption.
  - intros p Hp. rewrite <- HP. apply Hpage; [lia | nia].
  - unfold Api.page_of.
    transitivity
      (List.concat
         (map (fun p => firstn (Z.to_nat L)
                          (skipn ((p - 1) * Z.to_nat L) rows))
              (seq 1 (Z.to_nat P)))).
    + f_equal. apply map_ext_in. intros p Hp. apply in_seq in Hp.
      do 2 f_equal. nia.
    + apply pages_concat; nia.
Qed.

End ListEndpoints.

Section StoresList.

Import Schema Effects SqlBase StoresSql Http.

Lemma allowed_store_column (sortBy : string) :
  Js.includes ["name"; "address"; "created_at"] sortBy = true ->
  exists le, assoc ("s." ++ sortBy) store_columns = Some le.
Proof.
  unfold Js.includes. cbn [existsb]. rewrite orb_false_r.
  intros H. apply orb_true_iff in H. destruct H as [H | H];
    [| apply orb_true_iff in H; destruct H as [H | H]];
    apply String.eqb_eq in H; subst sortBy; eexists; reflexivity.
Qed.

Lemma order_clause_ok {A} (columns : list (string * (A -> A -> bool)))
    (column sortOrder : string) (le : A -> A -> bool) :
  assoc column columns = Some le ->
  Js.includes ["asc"; "desc"] (Js.toLowerCase sortOrder) = true ->
  exists le', order_clause columns column (Js.toUpperCase sortOrder)
              = Pg.ok le'.
Proof.
  intros Hc Ho. unfold order_clause. rewrite Hc.
  destruct (allowed_order_upper _ Ho) as [-> | ->]; eexists; reflexivity.
Qed.

(** The full result of the list statement for an allowed sort. *)
Lemma stores_in_order_ok (d : database) (q : list_query) :
  NoDup (map s_id (stores d)) ->
  Js.includes ["name"; "address"; "created_at"]
    (Js.default (q_sortBy q) "name") = true ->
  Js.includes ["asc"; "desc"]
    (Js.toLowerCase (Js.default (q_sortOrder q) "asc")) = true ->
  exists rows,
    stores_in_order (search_pattern q)
      ("s." ++ Js.default (q_sortBy q) "name")
      (Js.toUpperCase (Js.default (q_sortOrder q) "asc")) d = Pg.ok rows
    /\ Permutation rows
         (map (summary_of_store d)
              (filter (store_filter (search_pattern q)) (stores d))).
Proof.
  intros Hnd Hb Ho. unfold stores_in_order.
  destruct (allowed_store_column _ Hb) as (le & Hle).
  destruct (order_clause_ok _ _ _ _ Hle Ho) as (le' & ->).
  cbn [Pg.rbind Pg.ok]. eexists. split; [reflexivity |].
  rewrite (summaries_by_store _ _ Hnd). apply order_by_perm.
Qed.

Lemma int8_in_int (z : Z) :
  Pg.int8_min <= z <= Pg.int8_max -> Pg.int8_in (Pg.Int z) = Pg.ok (Some z).
Proof.
  intros H. unfold Pg.int8_in. simpl. now rewrite in_range_ok.
Qed.

Lemma limit_offset_page {A} (l p : Z) (rows : list A) :
  0 <= l -> 0 <= (p - 1) * l ->
  Pg.limit_offset (Some l) (Some ((p - 1) * l)) rows
  = Pg.ok (Api.page_of l p rows).
Proof.
  intros Hl Ho. unfold Pg.limit_offset. cbn [Pg.coalesce].
  apply Z.ltb_ge in Hl. apply Z.ltb_ge in Ho. now rewrite Hl, Ho.
Qed.

Lemma exec_count_stores (q : list_query) (t : Z) (d : database) :
  let searching := Js.truthy (q_search q) in
  let params :=
    if searching
    then [Pg.Text ("%" ++ Js.default (q_search q) "" ++ "%")] else [] in
  List.length params = placeholders (count_stores searching)
  /\ exec (count_stores searching) params t d
     = (inr (Pg.count (filter (store_filter (search_pattern q)) (stores d))),
        d).
Proof.
  unfold search_pattern. destruct (Js.truthy (q_search q)); split; reflexivity.
Qed.

Lemma exec_select_stores_page (q : list_query) (column direction : string)
    (L p t : Z) (d : database) (rows : list store_row) :
  let searching := Js.truthy (q_search q) in
  let params :=
    if searching
    then [Pg.Text ("%" ++ Js.default (q_search q) "" ++ "%")] else [] in
  stores_in_order (search_pattern q) column direction d = Pg.ok rows ->
  0 <= L <= Pg.int8_max ->
  0 <= (p - 1) * L <= Pg.int8_max ->
  List.length (params ++ [Pg.Int L; Pg.Int ((p - 1) * L)])
  = placeholders (select_stores_page searching column direction)
  /\ exec (select_stores_page searching column direction)
          (params ++ [Pg.Int L; Pg.Int ((p - 1) * L)]) t d
     = (inr (Api.page_of L p rows), d).
Proof.
  intros searching params Hrows HL Ho. subst searching params.
  unfold search_pattern in Hrows.
  assert (H8 : forall z, 0 <= z <= Pg.int8_max ->
                         Pg.int8_in (Pg.Int z) = Pg.ok (Some z)).
  { intros z Hz. apply int8_in_int. unfold Pg.int8_min. lia. }
  destruct (Js.truthy (q_search q)); split; try reflexivity;
    cbn [exec select_stores_page reading after_pattern pattern_param app];
    unfold text_param, bigint_param;
    cbn [Pg.param nth_error Nat.sub Pg.rbind Pg.ok Pg.text_in];
    rewrite Hrows, (H8 L HL), (H8 _ Ho); cbn [Pg.rbind Pg.ok];
    rewrite limit_offset_page by lia; reflexivity.
Qed.

Lemma get_stores_page (w : world) (q : list_query) (L p : Z)
    (rows : list store_row) :
  faults w = [] ->
  Js.includes ["name"; "address"; "created_at"]
    (Js.default (q_sortBy q) "name") = true ->
  Js.includes ["asc"; "desc"]
    (Js.toLowerCase (Js.default (q_sortOrder q) "asc")) = true ->
  Js.default (q_limit q) 20 = L ->
  1 <= L <= Pg.int8_max ->
  1 <= p -> (p - 1) * L <= Pg.int8_max ->
  stores_in_order (search_pattern q)
    ("s." ++ Js.default (q_sortBy q) "name")
    (Js.toUpperCase (Js.default (q_sortOrder q) "asc")) (db w) = Pg.ok rows ->
  Pg.count (filter (store_filter (search_pattern q)) (stores (db w)))
  = Z.of_nat (List.length rows) ->
  fst (run (Stores.get_stores (with_page p q)) w)
  = res_json
      (Jobj [("stores",
              Jarr (Api.page_of L p (map Stores.json_of_store_row rows)));
             ("pagination",
              pagination "totalStores" p
                (Js.Math_ceil_div (Z.of_nat (List.length rows)) L)
                (Z.of_nat (List.length rows)) L)]).
Proof.
  intros Hf Hb Ho Hl HL Hp Hoff Hrows Hcount.
  unfold run, Stores.get_stores, catch_500, try_catch. cbv zeta.
  cbn [q_sortBy q_sortOrder q_search q_page q_limit with_page].
  rewrite Hl, Hb, Ho. cbn [negb Js.default].
  unfold bind at 1 2. unfold ret at 1 2.
  destruct (exec_count_stores q (now w) (db w)) as [Hn1 He1].
  unfold bind at 1.
  rewrite (pool_query_ok _ _ _ _ _ Hf Hn1 He1).
  destruct (exec_select_stores_page q _ _ L p (now w) (db w) rows Hrows)
    as [Hn2 He2]; [lia | nia |].
  unfold bind at 1.
  erewrite pool_query_ok; [| reflexivity | exact Hn2 | exact He2].
  unfold ret. cbn [fst]. rewrite Hcount, page_of_map. reflexivity.
Qed.

End StoresList.

Section UsersList.

Import Schema Effects SqlBase AdminSql Http.

Lemma allowed_user_column (sortBy : string) :
  Js.includes ["name"; "email"; "address"; "role"; "created_at"] sortBy
  = true ->
  exists le, assoc sortBy user_columns = Some le.
Proof.
  unfold Js.includes. cbn [existsb]. rewrite orb_false_r.
  intros H.
  repeat (apply orb_true_iff in H; destruct H as [H | H]);
    apply String.eqb_eq in H; subst sortBy; eexists; reflexivity.
Qed.

Lemma users_in_order_ok (d : database) (q : list_query) :
  Js.includes ["name"; "email"; "address"; "role"; "created_at"]
    (Js.default (q_sortBy q) "name") = true ->
  Js.includes ["asc"; "desc"]
    (Js.toLowerCase (Js.default (q_sortOrder q) "asc")) = true ->
  exists rows,
    users_in_order (search_pattern q) (role_wanted q)
      (Js.default (q_sortBy q) "name")
      (Js.toUpperCase (Js.default (q_sortOrder q) "asc")) d = Pg.ok rows
    /\ Permutation rows
         (filter (user_filter (search_pattern q) (role_wanted q)) (users d)).
Proof.
  intros Hb Ho. unfold users_in_order.
  destruct (allowed_user_column _ Hb) as (le & Hle).
  destruct (order_clause_ok _ _ _ _ Hle Ho) as (le' & ->).
  cbn [Pg.rbind Pg.ok]. eexists. split; [reflexivity |].
  apply order_by_perm.
Qed.

Lemma exec_count_users (q : list_query) (t : Z) (d : database) :
  let searching := Js.truthy (q_search q) in
  let filtering := Js.truthy (q_role q) in
  List.length (Admin.users_params q) = placeholders (count_users searching filtering)
  /\ exec (count_users searching filtering) (Admin.users_params q) t d
     = (inr (Pg.count
               (filter (user_filter (search_pattern q) (role_wanted q))
                       (users d))), d).
Proof.
  unfold Admin.users_params, search_pattern, role_wanted.
  destruct (Js.truthy (q_search q)), (Js.truthy (q_role q));
    split; reflexivity.
Qed.

Lemma exec_select_users_page (q : list_query) (column direction : string)
    (L p t : Z) (d : database) (rows : list user) :
  let searching := Js.truthy (q_search q) in
  let filtering := Js.truthy (q_role q) in
  users_in_order (search_pattern q) (role_wanted q) column direction d
  = Pg.ok rows ->
  0 <= L <= Pg.int8_max ->
  0 <= (p - 1) * L <= Pg.int8_max ->
  List.length (Admin.users_params q ++ [Pg.Int L; Pg.Int ((p - 1) * L)])
  = placeholders (select_users_page searching filtering column direction)
  /\ exec (select_users_page searching filtering column direction)
          (Admin.users_params q ++ [Pg.Int L; Pg.Int ((p - 1) * L)]) t d
     = (inr (Api.page_of L p rows), d).
Proof.
  intros searching filtering Hrows HL Ho. subst searching filtering.
  unfold search_pattern, role_wanted in Hrows. unfold Admin.users_params.
  assert (H8 : forall z, 0 <= z <= Pg.int8_max ->
                         Pg.int8_in (Pg.Int z) = Pg.ok (Some z)).
  { intros z Hz. apply int8_in_int. unfold Pg.int8_min. lia. }
  destruct (Js.truthy (q_search q)), (Js.truthy (q_role q));
    split; try reflexivity;
    cbn [exec select_users_page reading clause_count optional_text app
           Nat.add];
    unfold text_param, bigint_param;
    cbn [Pg.param nth_error Nat.sub Pg.rbind Pg.ok Pg.text_in];
    rewrite Hrows, (H8 L HL), (H8 _ Ho); cbn [Pg.rbind Pg.ok];
    rewrite limit_offset_page by lia; reflexivity.
Qed.

Lemma get_users_page (w : world) (q : list_query) (L p : Z)
    (rows : list user) :
  faults w = [] ->
  Js.includes ["name"; "email"; "address"; "role"; "created_at"]
    (Js.default (q_sortBy q) "name") = true ->
  Js.includes ["asc"; "desc"]
    (Js.toLowerCase (Js.default (q_sortOrder q) "asc")) = true ->
  Js.default (q_limit q) 20 = L ->
  1 <= L <= Pg.int8_max ->
  1 <= p -> (p - 1) * L <= Pg.int8_max ->
  users_in_order (search_pattern q) (role_wanted q)
    (Js.default (q_sortBy q) "name")
    (Js.toUpperCase (Js.default (q_sortOrder q) "asc")) (db w) = Pg.ok rows ->
  Pg.count (filter (user_filter (search_pattern q) (role_wanted q))
                   (users (db w)))
  = Z.of_nat (List.length rows) ->
  fst (run (Admin.get_users (with_page p q)) w)
  = res_json
      (Jobj [("users", Jarr (Api.page_of L p (map Admin.json_of_user rows)));
             ("pagination",
              pagination "totalUsers" p
                (Js.Math_ceil_div (Z.of_nat (List.length rows)) L)
                (Z.of_nat (List.length rows)) L)]).
Proof.
  intros Hf Hb Ho Hl HL Hp Hoff Hrows Hcount.
  unfold run, Admin.get_users, catch_500, try_catch. cbv zeta.
  cbn [q_sortBy q_sortOrder q_search q_role q_page q_limit with_page].
  rewrite Hl, Hb, Ho. cbn [negb Js.default].
  unfold bind at 1 2. unfold ret at 1 2.
  change (Admin.users_params (with_page p q)) with (Admin.users_params q).
  destruct (exec_count_users q (now w) (db w)) as [Hn1 He1].
  unfold bind at 1.
  rewrite (pool_query_ok _ _ _ _ _ Hf Hn1 He1).
  destruct (exec_select_users_page q _ _ L p (now w) (db w) rows Hrows)
    as [Hn2 He2]; [lia | nia |].
  unfold bind at 1.
  erewrite pool_query_ok; [| reflexivity | exact Hn2 | exact He2].
  unfold ret. cbn [fst]. rewrite Hcount, page_of_map. reflexivity.
Qed.

End UsersList.



(** The same request, page by page. *)
Example stores_one_per_page :
  let page p :=
    {| Http.q_search := None; Http.q_role := None; Http.q_sortBy := None;
       Http.q_sortOrder := None; Http.q_page := Some p;
       Http.q_limit := Some 1 |} in
  let names p :=
    match field "stores" (body (fst (Effects.run (Stores.get_stores (page p))
                                       Sample.world))) with
    | Some (Jarr rows) => map (field "name") rows
    | _ => []
    end in
  names 1 = [Some (Jstr "City Market")]
  /\ names 2 = [Some (Jstr "Local Grocery Store")]
  /\ names 3 = []
  /\ field "pagination"
       (body (fst (Effects.run (Stores.get_stores (page 2)) Sample.world)))
     = Some (Http.pagination "totalStores" 2 (Some 2) 2 1).
Proof. vm_compute. repeat split. Qed.

(** Every row of the list of stores is the summary of a store, whose
    aggregate is described by [summary_aggregate]. *)
Lemma stores_page_rows (d : Schema.database) (pat : option (option string))
    (column direction : string) (rows : list StoresSql.store_row) :
  NoDup (map Schema.s_id (Schema.stores d)) ->
  StoresSql.stores_in_order pat column direction d = Pg.ok rows ->
  forall r, In r rows ->
    exists s, In s (Schema.stores d) /\ r = StoresSql.summary_of_store d s.
Proof.
  intros Hnd Hrows r Hr. unfold StoresSql.stores_in_order in Hrows.
  destruct (SqlBase.order_clause StoresSql.store_columns column direction)
    as [e | le]; [discriminate |].
  cbn [Pg.rbind Pg.ok] in Hrows. injection Hrows as <-.
  apply (Permutation_in _ (order_by_perm le _)) in Hr.
  rewrite (summaries_by_store _ _ Hnd) in Hr.
  apply in_map_iff in Hr. destruct Hr as (s & <- & Hs).
  apply filter_In in Hs. exists s. split; [apply Hs | reflexivity].
Qed.

(** ** Registration, then login *)

Section RoundTrip.

Import Schema Effects SqlBase Auth.

Context {L : Libraries} {V : Validators}.
Context {LL : LibrariesLaws L} {VL : ValidatorsLaws V}.

Lemma no_email_filter (d : database) (e : string) :
  (forall u, In u (users d) -> u_email u <> e) ->
  filter (fun u => Pg.eq_text (u_email u) (Some e)) (users d) = []
  /\ existsb (fun u => (u_email u =? e)%string) (users d) = false.
Proof.
  intros H. split.
  - apply filter_nil. intros u Hu. apply String.eqb_neq. now apply H.
  - apply not_true_is_false. intros He. apply existsb_exists in He.
    destruct He as (u & Hu & Heq). apply String.eqb_eq in Heq.
    now apply (H u Hu).
Qed.

Lemma fresh_user_id (d : database) :
  (forall u, In u (users d) -> u_id u < users_id_seq d) ->
  existsb (fun u => u_id u =? users_id_seq d) (users d) = false.
Proof.
  intros H. apply not_true_is_false. intros He.
  apply existsb_exists in He. destruct He as (u & Hu & Heq).
  apply Z.eqb_eq in Heq. specialize (H u Hu). lia.
Qed.

Lemma fits_of_le (n : Z) (s : string) : strlen s <= n -> fits n s = true.
Proof. intros H. unfold fits. now apply Z.leb_le. Qed.

Lemma fits_name (s : string) : name_check s = true -> fits 60 s = true.
Proof.
  unfold name_check, fits. intros H. apply andb_true_iff in H. apply H.
Qed.

(** What a registration with a fresh email does. *)
Lemma register_creates (w : world) (b : register_body) (secret : string) :
  faults w = [] ->
  consistent (db w) ->
  env_JWT_SECRET w = Some secret ->
  validateUserRegistration b = None ->
  (forall u, In u (users (db w)) -> u_email u <> rb_email b) ->
  exists account token w1,
    run (register b) w
    = (res_status_json 201
         (Jobj [("message", Jstr "User registered successfully");
                ("user", json_of_account account);
                ("token", token)]), w1)
    /\ faults w1 = [] /\ env_JWT_SECRET w1 = Some secret
    /\ users (db w1) = (users (db w) ++ [account])%list
    /\ u_id account = users_id_seq (db w)
    /\ u_email account = rb_email b
    /\ u_role account = "normal_user"
    /\ bcrypt_compare (rb_password b) (u_password_hash account) = true.
Proof.
  intros Hf Hc Hs Hv Hnew.
  destruct (registration_fits b Hv) as (Hname & Haddr & Hemail).
  destruct (no_email_filter _ _ Hnew) as [Hnone Hnone'].
  unfold run, register, catch_500, try_catch, bind.
  erewrite pool_query_ok; [| exact Hf | reflexivity |].
  2:{ cbn [exec select_user_id_by_email reading]. unfold text_param.
      cbn [Pg.param nth_error Nat.sub Pg.rbind Pg.ok Pg.text_in].
      rewrite Hnone. reflexivity. }
  cbn [map List.length Nat.ltb Nat.leb].
  unfold hash at 1.
  cbn [db now faults salts with_db with_faults with_salts].
  erewrite pool_query_ok; [| reflexivity | reflexivity |].
  2:{ cbn [exec insert_user db now faults salts with_db with_faults
             with_salts].
      unfold text_param.
      cbn [Pg.param nth_error Nat.sub Pg.rbind Pg.ok Pg.text_in].
      rewrite (fits_name _ Hname), (fits_of_le _ _ Hemail),
        (fits_of_le _ _ (hash_length _ _ _)), (fits_of_le _ _ Haddr),
        Hname, (fresh_user_id _ (users_seq_fresh _ Hc)), Hnone'.
      reflexivity. }
  unfold sign at 1.
  cbn [env_JWT_SECRET with_db with_faults with_salts]. rewrite Hs.
  eexists _, _, _. split; [reflexivity |].
  cbn [faults env_JWT_SECRET db users with_db with_faults with_salts
         with_users with_users_id_seq u_id u_email u_role u_password_hash].
  repeat split; try assumption. apply compare_hash.
Qed.

(** What a login with the password of an account does. *)
Lemma login_succeeds (w : world) (b : login_body) (secret : string)
    (account : user) (others : list user) :
  faults w = [] ->
  env_JWT_SECRET w = Some secret ->
  users (db w) = (others ++ [account])%list ->
  (forall u, In u others -> u_email u <> lb_email b) ->
  u_email account = lb_email b ->
  bcrypt_compare (lb_password b) (u_password_hash account) = true ->
  exists token,
    fst (run (login b) w)
    = res_json (Jobj [("message", Jstr "Login successful");
                      ("user", json_of_account account);
                      ("token", token)])
    /\ jwt_verify token secret = Some (claims_of account).
Proof.
  intros Hf Hs Hu Hothers Hmail Hpw.
  unfold run, login, catch_500, try_catch, bind.
  erewrite pool_query_ok; [| exact Hf | reflexivity |].
  2:{ cbn [exec select_user_by_email reading]. unfold text_param.
      cbn [Pg.param nth_error Nat.sub Pg.rbind Pg.ok Pg.text_in].
      rewrite Hu, filter_app, (filter_nil _ others).
      - cbn [filter app Pg.eq_text]. rewrite Hmail, String.eqb_refl.
        cbv iota. reflexivity.
      - intros u Hin. apply String.eqb_neq. now apply Hothers. }
  cbv iota. rewrite Hpw. cbn [negb]. unfold sign.
  cbn [env_JWT_SECRET with_db with_faults]. rewrite Hs.
  eexists. split; [reflexivity |]. apply verify_sign.
Qed.

End RoundTrip.


Section SampleLibraries.

Import Schema Auth.

Lemma length_string_of_list (l : list ascii) :
  String.length (string_of_list_ascii l) = List.length l.
Proof.
  induction l as [| c l IH]; simpl; [reflexivity | now rewrite IH].
Qed.

Lemma sample_libraries_laws : LibrariesLaws Sample.libraries.
Proof.
  constructor.
  - intros salt password rounds. apply String.eqb_refl.
  - intros salt password rounds. unfold strlen. cbn [bcrypt_hash
      Sample.libraries]. unfold Sample.truncate.
    rewrite length_string_of_list.
    pose proof (firstn_le_length 72 (list_ascii_of_string password)). lia.
  - intros [i e r] secret expiresIn. cbn. now rewrite String.eqb_refl.
Qed.

Lemma sample_validators_laws : ValidatorsLaws Sample.validators.
Proof.
  constructor. intros b. cbn [validateUserRegistration Sample.validators].
  destruct (name_check (rb_name b)) eqn:E1; [| discriminate].
  destruct (fits 400 (rb_address b)) eqn:E2; [| discriminate].
  destruct (fits 255 (rb_email b)) eqn:E3; [| discriminate].
  intros _. unfold fits in *. apply Z.leb_le in E2. apply Z.leb_le in E3.
  auto.
Qed.

End SampleLibraries.


(** ** The CHECK constraint behind the validator *)

Section Refusal.

Import Schema Effects SqlBase RatingsSql Ratings.

Lemma keeps_ret {A} (x : A) : keeps_ratings (ret x).
Proof. intros w. reflexivity. Qed.

Lemma keeps_console_error (label : string) :
  keeps_ratings (console_error label).
Proof. intros w. reflexivity. Qed.

Lemma keeps_bind {A B} (m : M A) (k : A -> M B) :
  keeps_ratings m -> (forall x, keeps_ratings (k x)) ->
  keeps_ratings (bind m k).
Proof.
  intros Hm Hk w. unfold bind. specialize (Hm w).
  destruct (m w) as [[e | x] w1]; [exact Hm |].
  rewrite (Hk x w1). exact Hm.
Qed.

Lemma keeps_try_catch {A} (body : M A) (handler : exn -> M A) :
  keeps_ratings body -> (forall e, keeps_ratings (handler e)) ->
  keeps_ratings (try_catch body handler).
Proof.
  intros Hb Hh w. unfold try_catch. specialize (Hb w).
  destruct (body w) as [[e | x] w1]; [| exact Hb].
  rewrite (Hh e w1). exact Hb.
Qed.

Lemma keeps_pool_query {R} (st : statement R) (vs : list Pg.value) :
  (forall t d, ratings (snd (exec st vs t d)) = ratings d) ->
  keeps_ratings (pool_query st vs).
Proof.
  intros He w. unfold pool_query.
  destruct (fault_now (faults w)); [reflexivity |].
  destruct (negb (List.length vs =? placeholders st)%nat); [reflexivity |].
  specialize (He (now w) (db w)).
  destruct (exec st vs (now w) (db w)) as [[e | rows] d']; exact He.
Qed.

Lemma keeps_reading {R} (n : nat)
    (f : list Pg.value -> Z -> database -> Pg.result R)
    (vs : list Pg.value) :
  keeps_ratings (pool_query (reading n f) vs).
Proof. apply keeps_pool_query. reflexivity. Qed.

Lemma update_refused (sel : rating -> bool) (value : option Z)
    (comment : option string) (t : Z) (d : database) :
  (forall z, value = Some z -> rating_check z = false) ->
  match update_ratings_where sel value comment t d with
  | inl _ => True
  | inr (_, d') => d' = d
  end.
Proof.
  intros H. unfold update_ratings_where.
  destruct (existsb sel (ratings d)); [| reflexivity].
  destruct value as [z |]; [| exact I].
  now rewrite (H z eq_refl).
Qed.

Lemma keeps_update_refused (v : Js.value) (c uid sid : Pg.value) :
  refused v ->
  keeps_ratings
    (pool_query update_rating_of_user_for_store [Pg.of_js v; c; uid; sid]).
Proof.
  intros Hv. apply keeps_pool_query. intros t d.
  cbn [exec update_rating_of_user_for_store writing].
  unfold int_param, text_param.
  cbn [Pg.param nth_error Nat.sub Pg.rbind Pg.ok].
  destruct (Pg.int4_in (Pg.of_js v)) as [e | value] eqn:E; [reflexivity |].
  cbn [Pg.rbind].
  destruct (Pg.text_in c) as [e | comment]; [reflexivity |]. cbn [Pg.rbind].
  destruct (Pg.int4_in uid) as [e | u]; [reflexivity |]. cbn [Pg.rbind].
  destruct (Pg.int4_in sid) as [e | s]; [reflexivity |]. cbn [Pg.rbind].
  pose proof (update_refused (pair_matches u s) value comment t d) as H.
  destruct (update_ratings_where (pair_matches u s) value comment t d)
    as [e | [[] d']]; [reflexivity |].
  cbn [snd]. rewrite H; [reflexivity |].
  intros z ->. now apply Hv.
Qed.

Lemma keeps_insert_refused (v : Js.value) (uid sid c : Pg.value) :
  refused v ->
  keeps_ratings (pool_query insert_rating [uid; sid; Pg.of_js v; c]).
Proof.
  intros Hv. apply keeps_pool_query. intros t d.
  cbn [exec insert_rating]. unfold int_param, text_param.
  cbn [Pg.param nth_error Nat.sub Pg.rbind Pg.ok].
  destruct (Pg.int4_in uid) as [e | u]; [reflexivity |]. cbn [Pg.rbind].
  destruct (Pg.int4_in sid) as [e | s]; [reflexivity |]. cbn [Pg.rbind].
  destruct (Pg.int4_in (Pg.of_js v)) as [e | value] eqn:E; [reflexivity |].
  cbn [Pg.rbind].
  destruct (Pg.text_in c) as [e | comment]; [reflexivity |]. cbn [Pg.rbind].
  unfold Pg.ok.
  destruct u as [u |], s as [s |], value as [z |]; try reflexivity.
  cbv beta iota zeta. rewrite (Hv z E). reflexivity.
Qed.

(** The handler alone refuses such a rating as well: whatever the
    validator before it lets through, the CHECK and NOT NULL constraints
    of the column keep the table unchanged. *)
Lemma post_rating_refuses (storeId : string) (b : rating_body)
    (userId : Z) :
  refused (b_rating b) -> keeps_ratings (post_rating storeId b userId).
Proof.
  intros Hv. unfold post_rating, catch_500.
  apply keeps_try_catch.
  - apply keeps_bind; [apply keeps_reading | intros storeResult].
    destruct (List.length storeResult =? 0)%nat; [apply keeps_ret |].
    apply keeps_bind; [apply keeps_reading | intros existing].
    destruct (0 <? List.length existing)%nat.
    + apply keeps_bind; [now apply keeps_update_refused | intros _].
      apply keeps_bind; [apply keeps_reading | intros stats].
      apply keeps_ret.
    + apply keeps_bind; [now apply keeps_insert_refused | intros _].
      apply keeps_bind; [apply keeps_reading | intros stats].
      apply keeps_ret.
  - intros e. apply keeps_bind; [apply keeps_console_error | intros _].
    apply keeps_ret.
Qed.

(** What the validator rejects, the column would refuse. *)
Lemma invalid_number_refused (q : Q) :
  rating_is_valid (Js.number q) = false -> refused (Js.number q).
Proof.
  unfold rating_is_valid, refused. cbn [Pg.of_js]. unfold Pg.int4_in.
  cbn [Pg.integer_in].
  destruct (Js.integral q) as [z0 |]; [| discriminate].
  intros Hv z. destruct (Pg.in_range Pg.int4_min Pg.int4_max z0) eqn:E;
    cbn [Pg.rbind]; [discriminate |].
  intros [= <-]. now rewrite (in_range_inv _ _ _ _ E).
Qed.

End Refusal.

(** ** The rating validator *)

(** C6. A rating submission whose rating is not an integer from 1 to 5 is
    answered with the bad-request status by the validator placed before the
    handler, and nothing at all changes: no row of the ratings table is
    inserted or updated, no query is even sent. This holds for the
    create-or-update route and for the update route. Behind the validator
    stand the constraints of the column: were the handler entered with
    such a number all the same, the ratings table would still be left
    unchanged. *)
Theorem invalid_rating_rejected :
  forall (w : Effects.world) (param : string) (b : Ratings.rating_body)
         (userId : Z),
    Ratings.rating_is_valid (Ratings.b_rating b) = false ->
    (status (fst (Effects.run (Ratings.post_rating_route param b userId) w))
     = 400
     /\ snd (Effects.run (Ratings.post_rating_route param b userId) w) = w)
    /\ (status (fst (Effects.run (Ratings.put_rating_route param b userId) w))
        = 400
        /\ snd (Effects.run (Ratings.put_rating_route param b userId) w) = w)
    /\ (forall q, Ratings.b_rating b = Js.number q ->
          Schema.ratings
            (Effects.db (snd (Ratings.post_rating param b userId w)))
          = Schema.ratings (Effects.db w)).
Proof.
  intros w param b userId Hv. repeat split.
  1-4: unfold Ratings.post_rating_route, Ratings.put_rating_route,
         Ratings.validateRating, Effects.run; rewrite Hv; reflexivity.
  intros q Hq. apply post_rating_refuses. rewrite Hq in *.
  now apply invalid_number_refused.
Qed.

(** A rating of 6 for store 1 by user 3. *)
Lemma invalid_rating_rejected_witness :
  let b := {| Ratings.b_rating := Js.number 6; Ratings.b_comment := None |} in
  Ratings.rating_is_valid (Ratings.b_rating b) = false
  /\ status (fst (Effects.run (Ratings.post_rating_route "1" b 3)
                    Sample.world)) = 400
  /\ Schema.ratings
       (Effects.db (snd (Effects.run (Ratings.post_rating_route "1" b 3)
                           Sample.world)))
     = Schema.ratings Sample.database
  /\ Schema.ratings
       (Effects.db (snd (Ratings.post_rating "1" b 3 Sample.world)))
     = Schema.ratings Sample.database.
Proof.
  intros b.
  assert (Hv : Ratings.rating_is_valid (Ratings.b_rating b) = false)
    by reflexivity.
  destruct (invalid_rating_rejected Sample.world "1" b 3 Hv)
    as [[Hs Hw] [_ Hh]].
  split; [exact Hv |]. split; [exact Hs |].
  split; [now rewrite Hw | exact (Hh 6%Q eq_refl)].
Defined.

(* ================================================================== *)
(** * Further properties of [routes/ratings.js] *)

Ltac bind_params :=
  unfold SqlBase.int_param, SqlBase.text_param, SqlBase.bigint_param;
  cbn [Pg.param nth_error Nat.sub Pg.rbind Pg.ok Pg.of_opt_text].

Ltac bind_params_in H :=
  unfold SqlBase.int_param, SqlBase.text_param, SqlBase.bigint_param in H;
  cbn [Pg.param nth_error Nat.sub Pg.rbind Pg.ok Pg.of_opt_text] in H.

Ltac world_now :=
  cbn [Effects.db Effects.now Effects.faults Effects.query_failures
         Effects.with_db Effects.with_faults Effects.count_failure
         Effects.log_line Effects.with_now].

(** ** The rule of each construct for [leads] *)

Section TablesRules.

Import Schema Effects SqlBase Tables.

Lemma leads_ret {A} (x : A) (d : database)
    (Q : exn + A -> database -> Prop) :
  Q (inr x) d -> leads (ret x) d Q.
Proof. intros H w <-. exact H. Qed.

Lemma leads_throw {A} (e : exn) (d : database)
    (Q : exn + A -> database -> Prop) :
  Q (inl e) d -> leads (throw e) d Q.
Proof. intros H w <-. exact H. Qed.

Lemma leads_bind {A B} (m : M A) (k : A -> M B) (d : database)
    (Q : exn + B -> database -> Prop) :
  leads m d (fun r d1 => match r with
                         | inl e => Q (inl e) d1
                         | inr x => leads (k x) d1 Q
                         end) ->
  leads (bind m k) d Q.
Proof.
  intros H w Hw. unfold bind. specialize (H w Hw).
  destruct (m w) as [[e | x] w1]; cbn [fst snd] in *; [exact H |].
  now apply H.
Qed.

Lemma leads_try_catch {A} (body : M A) (handler : exn -> M A)
    (d : database) (Q : exn + A -> database -> Prop) :
  leads body d (fun r d1 => match r with
                            | inl e => leads (handler e) d1 Q
                            | inr x => Q (inr x) d1
                            end) ->
  leads (try_catch body handler) d Q.
Proof.
  intros H w Hw. unfold try_catch. specialize (H w Hw).
  destruct (body w) as [[e | x] w1]; cbn [fst snd] in *; [| exact H].
  now apply H.
Qed.

Lemma leads_weaken {A} (m : M A) (d : database)
    (Q Q' : exn + A -> database -> Prop) :
  (forall r d', Q r d' -> Q' r d') -> leads m d Q -> leads m d Q'.
Proof. intros HQ H w Hw. apply HQ. now apply H. Qed.

(** The catch block of the handlers does not touch the tables. *)
Lemma leads_catch_500 (label : string) (body : M response) (d : database)
    (P : database -> Prop) :
  leads body d (fun _ d' => P d') ->
  leads (catch_500 label body) d (fun _ d' => P d').
Proof.
  intros H. unfold catch_500. apply leads_try_catch.
  refine (leads_weaken _ _ _ _ _ H).
  intros [e | x] d' Hd; [| exact Hd].
  intros w <-. exact Hd.
Qed.

Lemma leads_pool_query {R} (st : statement R) (vs : list Pg.value)
    (d : database) (Q : exn + R -> database -> Prop) :
  (forall e, Q (inl e) d) ->
  (forall t, Q (fst (exec st vs t d)) (snd (exec st vs t d))) ->
  leads (pool_query st vs) d Q.
Proof.
  intros He Hx w <-. unfold pool_query.
  destruct (fault_now (faults w)); [apply He |].
  destruct (negb (List.length vs =? placeholders st)%nat); [apply He |].
  specialize (Hx (now w)).
  destruct (exec st vs (now w) (db w)) as [[e | rows] d']; exact Hx.
Qed.

Lemma leads_reading {R} (n : nat)
    (f : list Pg.value -> Z -> database -> Pg.result R)
    (vs : list Pg.value) (d : database)
    (Q : exn + R -> database -> Prop) :
  (forall e, Q (inl e) d) ->
  (forall t x, f vs t d = inr x -> Q (inr x) d) ->
  leads (pool_query (reading n f) vs) d Q.
Proof.
  intros He Hx. apply leads_pool_query; [exact He |].
  intros t. cbn [exec reading fst snd].
  destruct (f vs t d) as [e | x] eqn:E; [apply He | now apply (Hx t)].
Qed.

Lemma leads_writing {R} (n : nat)
    (f : list Pg.value -> Z -> database -> Pg.result (R * database))
    (vs : list Pg.value) (d : database)
    (Q : exn + R -> database -> Prop) :
  (forall e, Q (inl e) d) ->
  (forall t x d', f vs t d = inr (x, d') -> Q (inr x) d') ->
  leads (pool_query (writing n f) vs) d Q.
Proof.
  intros He Hx. apply leads_pool_query; [exact He |].
  intros t. cbn [exec writing].
  destruct (f vs t d) as [e | [x d']] eqn:E; cbn [fst snd];
    [apply He | now apply (Hx t)].
Qed.

(** A query that only reads, in a computation judged by its tables. *)
Lemma leads_read_then {R B} (n : nat)
    (f : list Pg.value -> Z -> database -> Pg.result R)
    (vs : list Pg.value) (k : R -> M B) (d : database)
    (P : database -> Prop) :
  P d ->
  (forall t x, f vs t d = inr x -> leads (k x) d (fun _ d' => P d')) ->
  leads (bind (pool_query (reading n f) vs) k) d (fun _ d' => P d').
Proof.
  intros Hd Hk. apply leads_bind. apply leads_reading.
  - intros _. exact Hd.
  - exact Hk.
Qed.

Lemma leads_run (h : M response) (w : world) (P : database -> Prop) :
  leads h (db w) (fun _ d' => P d') -> P (db (snd (run h w))).
Proof.
  intros H. specialize (H w eq_refl). unfold run.
  destruct (h w) as [[e | r] w1]; exact H.
Qed.

End TablesRules.

Section RatingsFurther.

Import Schema Effects SqlBase RatingsSql Ratings Constraints.

Lemma sample_constrained : constrained Sample.database.
Proof.
  constructor; [exact sample_consistent | | |];
    intros r H; simpl in H;
    repeat (destruct H as [<- | H]; [reflexivity |]); destruct H.
Qed.

(** A filter that a unique key pins to one row selects that row. *)
Lemma filter_unique {A K} (f : A -> bool) (key : A -> K) (l : list A)
    (x : A) :
  NoDup (map key l) ->
  In x l ->
  f x = true ->
  (forall y, f y = true -> key y = key x) ->
  filter f l = [x].
Proof.
  intros Hnd Hin Hx Hkey.
  induction l as [| a l IH]; [destruct Hin |].
  inversion Hnd as [| k ks Hnotin Hnd']; subst. simpl.
  destruct Hin as [-> | Hin].
  - rewrite Hx. f_equal. apply filter_nil. intros y Hy.
    apply not_true_is_false. intros Hf. apply Hnotin.
    rewrite <- (Hkey y Hf). now apply in_map.
  - destruct (f a) eqn:E.
    + exfalso. apply Hnotin. rewrite (Hkey a E). now apply in_map.
    + now apply IH.
Qed.

Lemma owned_filter (d : database) (r0 : rating) :
  NoDup (map r_id (ratings d)) ->
  In r0 (ratings d) ->
  filter (owned_by (Some (r_id r0)) (Some (r_user_id r0))) (ratings d)
  = [r0].
Proof.
  intros Hnd Hin. apply (filter_unique _ r_id); try assumption.
  - unfold owned_by, Pg.eq_int. now rewrite !Z.eqb_refl.
  - intros y Hy. unfold owned_by, Pg.eq_int in Hy.
    apply andb_true_iff in Hy. destruct Hy as [Hy _].
    now apply Z.eqb_eq.
Qed.

Lemma id_filter (d : database) (r0 : rating) :
  NoDup (map r_id (ratings d)) ->
  In r0 (ratings d) ->
  existsb (fun r => Pg.eq_int (r_id r) (Some (r_id r0))) (ratings d) = true.
Proof.
  intros Hnd Hin. apply existsb_exists. exists r0. split; [exact Hin |].
  apply Z.eqb_refl.
Qed.

(** The ranges that the foreign keys give to the ids of a rating. *)
Lemma rating_user_int4 (d : database) (r : rating) :
  constrained d -> In r (ratings d) ->
  Pg.int4_in (Pg.Int (r_user_id r)) = Pg.ok (Some (r_user_id r)).
Proof.
  intros Hc Hr. destruct (has_user_in _ _ (ratings_user_fk _ Hc r Hr))
    as (u & Hu & <-).
  apply int4_in_int. apply (users_int4 _ (keys _ Hc) u Hu).
Qed.

Lemma rating_store_int4 (d : database) (r : rating) :
  constrained d -> In r (ratings d) ->
  Pg.int4_in (Pg.Int (r_store_id r)) = Pg.ok (Some (r_store_id r)).
Proof.
  intros Hc Hr. destruct (has_store_in _ _ (ratings_store_fk _ Hc r Hr))
    as (s & Hs & <-).
  apply int4_in_int. apply (stores_int4 _ (keys _ Hc) s Hs).
Qed.









Lemma single_pair_after_post (w : world) (storeId : string)
    (sid uid z : Z) (b : rating_body) :
  faults w = [] ->
  NoDup (map (fun r => (r_user_id r, r_store_id r)) (ratings (db w))) ->
  (forall r, In r (ratings (db w)) -> r_id r < ratings_id_seq (db w)) ->
  Pg.int4_in (Pg.Text storeId) = Pg.ok (Some sid) ->
  Pg.int4_in (Pg.Int uid) = Pg.ok (Some uid) ->
  Pg.int4_in (Pg.of_js (b_rating b)) = Pg.ok (Some z) ->
  rating_check z = true ->
  has_store (db w) sid = true ->
  has_user (db w) uid = true ->
  exists res w1 row,
    run (post_rating storeId b uid) w = (res, w1)
    /\ faults w1 = []
    /\ filter (same_pair uid sid) (ratings (db w1)) = [row]
    /\ r_rating row = z
    /\ r_comment row = Js.or_null (b_comment b)
    /\ r_updated_at row = now w.
Proof.
  intros Hf Hu Hfresh Hsid Huid Hz Hck Hst Hus.
  destruct (existsb (same_pair uid sid) (ratings (db w))) eqn:Hex.
  - destruct (unique_pair_filter uid sid _ Hu) as [Hnil | (r0 & Hr0)].
    { rewrite filter_existsb, Hnil in Hex. discriminate. }
    destruct (post_rating_updates w storeId sid uid z b)
      as (res & w1 & Hrun & _ & _ & Hf1 & _ & Hd1); try assumption.
    exists res, w1, (set_rating z (Js.or_null (b_comment b)) (now w) r0).
    rewrite Hd1. cbn [ratings with_ratings].
    rewrite filter_updated, Hr0. repeat split; assumption.
  - destruct (post_rating_inserts w storeId sid uid z b)
      as (res & w1 & Hrun & _ & _ & Hf1 & _ & Hd1); try assumption.
    { now apply fresh_id_absent. }
    assert (Hnil : filter (same_pair uid sid) (ratings (db w)) = []).
    { rewrite filter_existsb in Hex.
      destruct (filter (same_pair uid sid) (ratings (db w)));
        [reflexivity | discriminate]. }
    eexists res, w1, _. rewrite Hd1. cbn [ratings with_ratings].
    rewrite filter_app, Hnil. cbn [filter app].
    unfold same_pair at 1. cbn [r_user_id r_store_id].
    rewrite !Z.eqb_refl. cbn [andb].
    repeat split; try assumption; reflexivity.
Qed.





(** ** Whose ratings a request can change *)

Section OwnRatingsOnly.

Import Tables.

Lemma touches_refl (uid : Z) (d : database) : touches_only uid d d.
Proof. now repeat split. Qed.

Lemma others_update (uid : Z) (sel : rating -> bool) (v t : Z)
    (c : option string) (l : list rating) :
  (forall r, In r l -> sel r = true -> r_user_id r = uid) ->
  others uid (map (fun r => if sel r then set_rating v c t r else r) l)
  = others uid l.
Proof.
  unfold others. induction l as [| a l IH]; intros H; [reflexivity |].
  cbn [map filter]. rewrite IH by (intros r Hr; apply H; now right).
  destruct (sel a) eqn:E; [| reflexivity].
  cbn [set_rating r_user_id]. rewrite (H a (or_introl eq_refl) E).
  now rewrite Z.eqb_refl.
Qed.

Lemma others_delete (uid : Z) (sel : rating -> bool) (l : list rating) :
  (forall r, In r l -> sel r = true -> r_user_id r = uid) ->
  others uid (filter (fun r => negb (sel r)) l) = others uid l.
Proof.
  unfold others. induction l as [| a l IH]; intros H; [reflexivity |].
  cbn [filter]. specialize (IH (fun r Hr => H r (or_intror Hr))).
  destruct (sel a) eqn:E; cbn [negb filter].
  - rewrite (H a (or_introl eq_refl) E), Z.eqb_refl. exact IH.
  - now rewrite IH.
Qed.

Lemma others_insert (uid : Z) (l : list rating) (r : rating) :
  r_user_id r = uid -> others uid (l ++ [r]) = others uid l.
Proof.
  intros H. unfold others. rewrite filter_app. cbn [filter].
  rewrite H, Z.eqb_refl. apply app_nil_r.
Qed.

Lemma update_where_touches (uid : Z) (sel : rating -> bool)
    (value : option Z) (c : option string) (t : Z) (d d' : database)
    (x : unit) :
  (forall r, In r (ratings d) -> sel r = true -> r_user_id r = uid) ->
  update_ratings_where sel value c t d = inr (x, d') ->
  touches_only uid d d'.
Proof.
  intros Hsel. unfold update_ratings_where.
  destruct (existsb sel (ratings d)).
  - destruct value as [v |]; [| discriminate].
    destruct (rating_check v); [| discriminate].
    intros [= _ <-]. repeat split. cbn [ratings with_ratings].
    now apply others_update.
  - intros [= _ <-]. apply touches_refl.
Qed.

Lemma same_id_same_row (l : list rating) (x y : rating) :
  NoDup (map r_id l) -> In x l -> In y l -> r_id x = r_id y -> x = y.
Proof.
  induction l as [| a l IH]; intros Hnd Hx Hy Hid; [destruct Hx |].
  inversion Hnd as [| k ks Hnotin Hnd']; subst.
  destruct Hx as [-> | Hx], Hy as [-> | Hy]; try reflexivity.
  - exfalso. apply Hnotin. rewrite Hid. now apply in_map.
  - exfalso. apply Hnotin. rewrite <- Hid. now apply in_map.
  - now apply IH.
Qed.

Lemma pair_of_user (userId : Z) (uid sid : option Z) (r : rating) :
  Pg.int4_in (Pg.Int userId) = inr uid ->
  pair_matches uid sid r = true -> r_user_id r = userId.
Proof.
  intros Hu H. unfold pair_matches in H. apply andb_true_iff in H.
  destruct H as [H _]. destruct uid as [u |]; [| discriminate].
  apply integer_in_int_inv in Hu. subst u. now apply Z.eqb_eq.
Qed.

(** Only the owner of a rating passes the ownership query for its id. *)
Lemma id_of_owned (userId : Z) (id uid : option Z) (d : database)
    (rows : list (Z * Z)) (p : Z * Z) :
  NoDup (map r_id (ratings d)) ->
  Pg.int4_in (Pg.Int userId) = inr uid ->
  map (fun r => (r_id r, r_store_id r)) (filter (owned_by id uid) (ratings d))
  = p :: rows ->
  forall r, In r (ratings d) -> Pg.eq_int (r_id r) id = true ->
            r_user_id r = userId.
Proof.
  intros Hnd Hu Hrows r Hr Hid.
  destruct (filter (owned_by id uid) (ratings d)) as [| r0 l] eqn:E;
    [discriminate |].
  assert (H0 : In r0 (filter (owned_by id uid) (ratings d)))
    by (rewrite E; now left).
  apply filter_In in H0. destruct H0 as [Hin Hown].
  unfold owned_by in Hown. apply andb_true_iff in Hown.
  destruct Hown as [Hid0 Huid0].
  destruct id as [i |]; [| discriminate].
  destruct uid as [u |]; [| discriminate].
  apply integer_in_int_inv in Hu. subst u.
  cbn [Pg.eq_int] in *. apply Z.eqb_eq in Hid, Hid0, Huid0.
  rewrite (same_id_same_row _ r r0 Hnd Hr Hin); congruence.
Qed.

Lemma post_rating_touches (storeId : string) (b : rating_body)
    (userId : Z) (d : database) :
  leads (post_rating storeId b userId) d
        (fun _ d' => touches_only userId d d').
Proof.
  unfold post_rating. apply leads_catch_500.
  unfold select_store_id. apply leads_read_then; [apply touches_refl |].
  intros _ storeResult _.
  destruct (List.length storeResult =? 0)%nat;
    [apply leads_ret, touches_refl |].
  unfold select_rating_of_user_for_store.
  apply leads_read_then; [apply touches_refl |].
  intros _ existing _.
  destruct (0 <? List.length existing)%nat.
  - apply leads_bind. unfold update_rating_of_user_for_store.
    apply leads_writing; [intros e; apply touches_refl |].
    intros t x d' Hw. bind_params.
    bind_params_in Hw.
    destruct (Pg.int4_in (Pg.of_js (b_rating b))) as [e | value];
      [discriminate |]. cbn [Pg.rbind] in Hw.
    destruct (Pg.text_in _) as [e | c]; [discriminate |].
    cbn [Pg.rbind] in Hw.
    destruct (Pg.int4_in (Pg.Int userId)) as [e | uid] eqn:Eu;
      [discriminate |]. cbn [Pg.rbind] in Hw.
    destruct (Pg.int4_in (Pg.Text storeId)) as [e | sid];
      [discriminate |]. cbn [Pg.rbind] in Hw.
    assert (Ht : touches_only userId d d').
    { refine (update_where_touches _ _ _ _ _ _ _ _ _ Hw).
      intros r _. exact (pair_of_user _ _ _ _ Eu). }
    unfold select_store_stats. apply leads_read_then; [exact Ht |].
    intros _ stats _. apply leads_ret. exact Ht.
  - apply leads_bind. apply leads_pool_query;
      [intros e; apply touches_refl |].
    intros t. cbn [exec insert_rating]. bind_params.
    destruct (Pg.int4_in (Pg.Int userId)) as [e | uid] eqn:Eu;
      [apply touches_refl |]. cbn [Pg.rbind].
    destruct (Pg.int4_in (Pg.Text storeId)) as [e | sid];
      [apply touches_refl |]. cbn [Pg.rbind].
    destruct (Pg.int4_in (Pg.of_js (b_rating b))) as [e | value];
      [apply touches_refl |]. cbn [Pg.rbind].
    destruct (Pg.text_in _) as [e | c]; [apply touches_refl |].
    cbn [Pg.rbind]. unfold Pg.ok. cbv beta iota zeta.
    assert (H1 : touches_only userId d
                   (with_ratings_id_seq (ratings_id_seq d + 1) d))
      by now repeat split.
    destruct uid as [u |], sid as [s0 |], value as [v |];
      cbn [fst snd]; try exact H1.
    apply integer_in_int_inv in Eu. subst u.
    destruct (negb (rating_check v)); [exact H1 |].
    destruct (existsb _ (ratings d)); [exact H1 |].
    destruct (existsb _ (ratings d)); [exact H1 |].
    destruct (negb (has_user d userId)); [exact H1 |].
    destruct (negb (has_store d s0)); [exact H1 |].
    cbn [fst snd].
    assert (H2 : touches_only userId d
                   (with_ratings
                      (ratings d ++
                       [{| r_id := ratings_id_seq d; r_user_id := userId;
                           r_store_id := s0; r_rating := v; r_comment := c;
                           r_created_at := t; r_updated_at := t |}])
                      (with_ratings_id_seq (ratings_id_seq d + 1) d))).
    { repeat split. cbn [ratings with_ratings with_ratings_id_seq].
      now apply others_insert. }
    unfold select_store_stats. apply leads_read_then; [exact H2 |].
    intros _ stats _. apply leads_ret. exact H2.
Qed.

Lemma put_rating_touches (ratingId : string) (b : rating_body)
    (userId : Z) (d : database) :
  NoDup (map r_id (ratings d)) ->
  leads (put_rating ratingId b userId) d
        (fun _ d' => touches_only userId d d').
Proof.
  intros Hnd. unfold put_rating. apply leads_catch_500.
  unfold select_rating_owned. apply leads_read_then; [apply touches_refl |].
  intros _ rows Hrows.
  destruct rows as [| [rid storeId] rest]; [apply leads_ret, touches_refl |].
  bind_params_in Hrows.
  destruct (Pg.int4_in (Pg.Text ratingId)) as [e | id] eqn:Ei;
    [discriminate |]. cbn [Pg.rbind] in Hrows.
  destruct (Pg.int4_in (Pg.Int userId)) as [e | uid] eqn:Eu;
    [discriminate |]. cbn [Pg.rbind] in Hrows.
  injection Hrows as Hrows.
  apply leads_bind. unfold update_rating_by_id.
  apply leads_writing; [intros e; apply touches_refl |].
  intros t x d' Hw. bind_params_in Hw.
  destruct (Pg.int4_in (Pg.of_js (b_rating b))) as [e | value];
    [discriminate |]. cbn [Pg.rbind] in Hw.
  destruct (Pg.text_in _) as [e | c]; [discriminate |].
  cbn [Pg.rbind] in Hw. rewrite Ei in Hw. cbn [Pg.rbind] in Hw.
  assert (Ht : touches_only userId d d').
  { apply (update_where_touches _ _ _ _ _ _ _ _
             (id_of_owned _ _ _ _ _ _ Hnd Eu Hrows) Hw). }
  unfold select_store_stats. apply leads_read_then; [exact Ht |].
  intros _ stats _. apply leads_ret. exact Ht.
Qed.

Lemma delete_rating_touches (ratingId : string) (userId : Z)
    (d : database) :
  NoDup (map r_id (ratings d)) ->
  leads (delete_rating ratingId userId) d
        (fun _ d' => touches_only userId d d').
Proof.
  intros Hnd. unfold delete_rating. apply leads_catch_500.
  unfold select_rating_owned. apply leads_read_then; [apply touches_refl |].
  intros _ rows Hrows.
  destruct rows as [| [rid storeId] rest]; [apply leads_ret, touches_refl |].
  bind_params_in Hrows.
  destruct (Pg.int4_in (Pg.Text ratingId)) as [e | id] eqn:Ei;
    [discriminate |]. cbn [Pg.rbind] in Hrows.
  destruct (Pg.int4_in (Pg.Int userId)) as [e | uid] eqn:Eu;
    [discriminate |]. cbn [Pg.rbind] in Hrows.
  injection Hrows as Hrows.
  apply leads_bind. unfold delete_rating_by_id.
  apply leads_writing; [intros e; apply touches_refl |].
  intros t x d' Hw. bind_params_in Hw.
  rewrite Ei in Hw. cbn [Pg.rbind] in Hw. injection Hw as _ <-.
  assert (Ht : touches_only userId d
                 (with_ratings
                    (filter (fun r => negb (Pg.eq_int (r_id r) id))
                       (ratings d)) d)).
  { repeat split. cbn [ratings with_ratings].
    apply (others_delete userId (fun r => Pg.eq_int (r_id r) id)).
    exact (id_of_owned _ _ _ _ _ _ Hnd Eu Hrows). }
  unfold select_store_stats. apply leads_read_then; [exact Ht |].
  intros _ stats _. apply leads_ret. exact Ht.
Qed.

(** X7. Whatever a user submits to the three reachable write routes of
    [routes/ratings.js], and whether or not queries fail on the way, the
    users and the stores are left as they were and so are the ratings of
    every other user: the rows a request can change, add or remove are the
    requester's own. The ids of the ratings are assumed distinct (the
    primary key). *)
Theorem rating_writes_touch_own_rows_only :
  forall (w : world) (userId : Z),
    NoDup (map r_id (ratings (db w))) ->
    (forall storeId b,
        touches_only userId (db w)
          (db (snd (run (post_rating storeId b userId) w))))
    /\ (forall ratingId b,
           touches_only userId (db w)
             (db (snd (run (put_rating ratingId b userId) w))))
    /\ (forall ratingId,
           touches_only userId (db w)
             (db (snd (run (delete_rating ratingId userId) w)))).
Proof.
  intros w userId Hnd. split; [| split]; intros.
  - apply (leads_run _ w (touches_only userId (db w))),
      post_rating_touches.
  - now apply (leads_run _ w (touches_only userId (db w))),
      put_rating_touches.
  - now apply (leads_run _ w (touches_only userId (db w))),
      delete_rating_touches.
Qed.

(** Jane (user 3) sends the id of John's rating (rating 1) to the update
    route. *)
Lemma rating_writes_touch_own_rows_only_witness :
  touches_only 3 (db Sample.world)
    (db (snd (run (put_rating "1"
                     {| b_rating := Js.number 1; b_comment := None |} 3)
                  Sample.world))).
Proof.
  apply (rating_writes_touch_own_rows_only Sample.world 3).
  exact (ratings_pk _ sample_consistent).
Defined.

End OwnRatingsOnly.

End RatingsFurther.

(** * The GET routes *)

Section ReadRoutes.

Import Schema Effects SqlBase Reads.

Lemma quiet_ret {A} (x : A) : quiet (ret x).
Proof. intros w. reflexivity. Qed.

Lemma quiet_throw {A} (e : exn) : quiet (@throw A e).
Proof. intros w. reflexivity. Qed.

Lemma quiet_assign_const {A} (name : string) (x : A) :
  quiet (assign_const name x).
Proof. intros w. reflexivity. Qed.

Lemma quiet_console_error (label : string) : quiet (console_error label).
Proof. intros w. reflexivity. Qed.

Lemma quiet_bind {A B} (m : M A) (k : A -> M B) :
  quiet m -> (forall x, quiet (k x)) -> quiet (bind m k).
Proof.
  intros Hm Hk w. unfold bind. specialize (Hm w).
  destruct (m w) as [[e | x] w1]; [exact Hm |].
  rewrite (Hk x w1). exact Hm.
Qed.

Lemma quiet_try_catch {A} (body : M A) (handler : exn -> M A) :
  quiet body -> (forall e, quiet (handler e)) ->
  quiet (try_catch body handler).
Proof.
  intros Hb Hh w. unfold try_catch. specialize (Hb w).
  destruct (body w) as [[e | x] w1]; [| exact Hb].
  rewrite (Hh e w1). exact Hb.
Qed.

Lemma quiet_catch_500 (label : string) (body : M response) :
  quiet body -> quiet (catch_500 label body).
Proof.
  intros Hb. apply quiet_try_catch; [exact Hb |]. intros e.
  apply quiet_bind; [apply quiet_console_error | intros _; apply quiet_ret].
Qed.

Lemma quiet_pool_query {R} (st : statement R) (vs : list Pg.value) :
  (forall t d, snd (exec st vs t d) = d) -> quiet (pool_query st vs).
Proof.
  intros He w. unfold pool_query.
  destruct (fault_now (faults w)); [reflexivity |].
  destruct (negb (List.length vs =? placeholders st)%nat); [reflexivity |].
  specialize (He (now w) (db w)).
  destruct (exec st vs (now w) (db w)) as [[e | rows] d']; exact He.
Qed.

Lemma quiet_run_of {A} (m : M A) (w : world) :
  quiet m -> db (snd (m w)) = db w.
Proof. intros H. apply H. Qed.

Lemma quiet_run (h : M response) (w : world) :
  quiet h -> db (snd (run h w)) = db w.
Proof.
  intros H. specialize (H w). unfold run.
  destruct (h w) as [[e | r] w1]; exact H.
Qed.

Ltac quiet_step :=
  first
    [ apply quiet_ret
    | apply quiet_throw
    | apply quiet_assign_const
    | apply quiet_catch_500
    | apply quiet_bind; [| intro]
    | apply quiet_try_catch; [| intro]
    | apply quiet_console_error
    | apply quiet_pool_query; intros; reflexivity
    | match goal with
      | |- quiet (if ?c then _ else _) => destruct c
      | |- quiet (match ?x with _ => _ end) => destruct x
      end ].

(** X8. No GET route changes the database: whatever the request and
    whether or not its queries fail, the tables and the sequences are
    afterwards what they were before. *)
Theorem get_routes_leave_the_tables :
  forall (h : M response) (w : world),
    read_request h -> db (snd (run h w)) = db w.
Proof.
  intros h w Hh. apply quiet_run.
  destruct Hh;
    unfold Stores.get_stores, Stores.get_store, Stores.get_store_ratings,
      StoresRouter.get_store_authenticated, Ratings.get_user_insights,
      Ratings.get_user_ratings, Ratings.get_user_store_rating,
      Admin.get_users, Users.get_ratings, Account.get_profile,
      UsersProfile.get_profile;
    cbv zeta; repeat quiet_step.
Qed.

(** The list of stores, asked for with a sort column the handler does not
    know. *)
Lemma get_routes_leave_the_tables_witness :
  db (snd (run (Stores.get_stores
                  {| Http.q_search := Some "market"; Http.q_role := None;
                     Http.q_sortBy := Some "rating";
                     Http.q_sortOrder := None; Http.q_page := None;
                     Http.q_limit := None |}) Sample.world))
  = db Sample.world.
Proof.
  apply (get_routes_leave_the_tables _ Sample.world). constructor.
Defined.

End ReadRoutes.

(** ** ORDER BY sorts *)

Section Ordering.

Context {A : Type} (le : A -> A -> bool).

Hypothesis le_total : forall a b, le a b = true \/ le b a = true.

Let rel (a b : A) : Prop := le a b = true.

Lemma insert_sorted_hd (x a : A) (l : list A) :
  rel a x -> HdRel rel a l -> HdRel rel a (Pg.insert_sorted le x l).
Proof.
  intros Hax Hl. destruct l as [| y l']; cbn [Pg.insert_sorted].
  - now constructor.
  - destruct (le x y); constructor; [exact Hax | now inversion Hl].
Qed.

Lemma insert_sorted_sorted (x : A) (l : list A) :
  Sorted rel l -> Sorted rel (Pg.insert_sorted le x l).
Proof.
  induction 1 as [| y l Hs IH Hhd]; cbn [Pg.insert_sorted].
  - repeat constructor.
  - destruct (le x y) eqn:E.
    + constructor; [now constructor | now constructor].
    + constructor; [exact IH |].
      apply insert_sorted_hd; [| exact Hhd].
      destruct (le_total x y) as [H | H]; [congruence | exact H].
Qed.

Lemma order_by_sorted (l : list A) : Sorted rel (Pg.order_by le l).
Proof.
  unfold Pg.order_by. induction l as [| x l IH]; cbn [fold_right].
  - constructor.
  - now apply insert_sorted_sorted.
Qed.

End Ordering.

Lemma sorted_weaken {A} (R R' : A -> A -> Prop) (l : list A) :
  (forall a b, R a b -> R' a b) -> Sorted R l -> Sorted R' l.
Proof.
  intros HR. induction 1 as [| a l Hs IH Hhd]; constructor; [exact IH |].
  destruct Hhd; constructor. now apply HR.
Qed.

Lemma sorted_firstn {A} (R : A -> A -> Prop) (n : nat) (l : list A) :
  Sorted R l -> Sorted R (firstn n l).
Proof.
  intros H. revert n. induction H as [| a l Hs IH Hhd]; intros n.
  - rewrite firstn_nil. constructor.
  - destruct n as [| n]; cbn [firstn]; [constructor |].
    constructor; [apply IH |].
    destruct Hhd as [| b l' Hab]; [rewrite firstn_nil; constructor |].
    destruct n; cbn [firstn]; now constructor.
Qed.

Lemma firstn_incl {A} (n : nat) (l : list A) : incl (firstn n l) l.
Proof.
  revert l. induction n as [| n IH]; intros [| a l] x H; cbn in H;
    try contradiction.
  destruct H as [-> | H]; [now left | right; now apply IH].
Qed.

Lemma sorted_skipn {A} (R : A -> A -> Prop) (n : nat) (l : list A) :
  Sorted R l -> Sorted R (skipn n l).
Proof.
  intros H. revert n. induction H as [| a l Hs IH Hhd]; intros n.
  - rewrite skipn_nil. constructor.
  - destruct n as [| n]; cbn [skipn]; [now constructor | apply IH].
Qed.

(** * Further properties of [routes/stores.js] *)

Section StoreViews.

Import Schema Effects SqlBase RatingsSql StoresSql Stores StoresRouter
  Constraints.

Lemma summaries_none (keep : store -> bool) (d : database) :
  (forall s, In s (stores d) -> keep s = false) -> summaries keep d = [].
Proof.
  intros H. unfold summaries, left_join_ratings.
  assert (E : filter (fun p => keep (fst p))
                (flat_map (joined_ratings d) (stores d)) = []).
  { induction (stores d) as [| s l IH]; [reflexivity |].
    cbn [flat_map]. rewrite filter_app, filter_joined.
    rewrite (H s (or_introl eq_refl)). cbn [app].
    apply IH. intros s' Hs'. apply H. now right. }
  rewrite E. reflexivity.
Qed.

Lemma no_store_summary (d : database) (id : string) (t : Z)
    (rows : list store_row) :
  (forall sid, Pg.parse_integer id = Some sid -> has_store d sid = false) ->
  (x <~ int_param 1 [Pg.Text id] ;;
   Pg.ok (summaries (fun s => Pg.eq_int (s_id s) x) d)) = inr rows ->
  rows = [].
Proof.
  intros Hnone Hrows. bind_params_in Hrows. unfold Pg.int4_in in Hrows.
  destruct (Pg.integer_in Pg.int4_min Pg.int4_max (Pg.Text id))
    as [e | x] eqn:E; [discriminate |].
  destruct (integer_in_text_some _ _ _ _ E) as (sid & ->).
  apply integer_in_text_inv in E. cbn [Pg.rbind] in Hrows.
  injection Hrows as <-. apply summaries_none.
  intros s Hs. cbn [Pg.eq_int]. apply not_true_is_false. intros Heq.
  specialize (Hnone sid E). unfold has_store in Hnone.
  assert (existsb (fun s0 => s_id s0 =? sid) (stores d) = true)
    by (apply existsb_exists; eauto).
  congruence.
Qed.

(** What both store views come to when the store does not exist. *)
Lemma store_view_not_found (label : string) (id : string)
    (k : store_row -> M response) (w : world) :
  (forall sid, Pg.parse_integer id = Some sid ->
               has_store (db w) sid = false) ->
  let h := catch_500 label
             (storeResult <- pool_query select_store_summary [Pg.Text id] ;;
              match storeResult with
              | [] => ret (res_status_json 404 (message "Store not found"))
              | store :: _ => k store
              end) in
  (status (fst (run h w)) = 404 \/ status (fst (run h w)) = 500)
  /\ (query_failures (snd (run h w)) = query_failures w ->
      fst (run h w) = res_status_json 404 (message "Store not found")).
Proof.
  intros Hnone h. subst h.
  unfold run, catch_500, try_catch, bind, pool_query.
  destruct (fault_now (faults w)).
  { simpl. split; auto. intros H. lia. }
  cbn [List.length Nat.eqb negb select_store_summary reading placeholders
         exec].
  destruct (x <~ int_param 1 [Pg.Text id] ;;
            Pg.ok (summaries (fun s => Pg.eq_int (s_id s) x) (db w)))
    as [e | rows] eqn:E.
  { simpl. split; auto. intros H. lia. }
  rewrite (no_store_summary _ _ (now w) _ Hnone E). simpl. auto.
Qed.



(** X10. The view of a signed-in user is the public view of the store
    with one more field: [userRating], the value of the caller's own
    rating of the store, or [null] when the caller has not rated it. *)
Theorem authenticated_view_adds_own_rating :
  forall (w : world) (id : string) (s : store) (userId : Z),
    faults w = [] ->
    constrained (db w) ->
    Pg.parse_integer id = Some (s_id s) ->
    In s (stores (db w)) ->
    has_user (db w) userId = true ->
    exists fields : list (string * json),
      fst (run (get_store id) w) = res_json (Jobj [("store", Jobj fields)])
      /\ fst (run (get_store_authenticated id userId) w)
         = res_json
             (Jobj [("store",
                     Jobj (fields ++
                           [("userRating",
                             match filter (same_pair userId (s_id s))
                                          (ratings (db w)) with
                             | [] => Jnull
                             | r :: _ => Jint (r_rating r)
                             end)]))]).
Proof.
  intros w id s userId Hf Hc Hp Hin Hus.
  pose proof (keys _ Hc) as Hk.
  assert (Hsid : Pg.int4_in (Pg.Text id) = Pg.ok (Some (s_id s)))
    by (apply int4_in_text; [exact Hp | now apply (stores_int4 _ Hk)]).
  assert (Huid : Pg.int4_in (Pg.Int userId) = Pg.ok (Some userId)).
  { destruct (has_user_in _ _ Hus) as (u & Hu & <-).
    apply int4_in_int. now apply (users_int4 _ Hk). }
  assert (Hsum : exec select_store_summary [Pg.Text id] (now w) (db w)
                 = (inr [summary_of_store (db w) s], db w)).
  { cbn [exec select_store_summary reading]. bind_params.
    rewrite Hsid. cbn [Pg.rbind Pg.ok Pg.eq_int].
    rewrite (summaries_by_store _ _ (stores_pk _ Hk)),
      (unique_store _ s (stores_pk _ Hk) Hin). reflexivity. }
  eexists. split.
  - unfold run, get_store, catch_500, try_catch, bind.
    erewrite pool_query_ok; [| exact Hf | reflexivity | exact Hsum].
    reflexivity.
  - unfold run, get_store_authenticated, catch_500, try_catch, bind.
    erewrite pool_query_ok; [| exact Hf | reflexivity | exact Hsum].
    cbv beta iota.
    erewrite pool_query_ok; [| reflexivity | reflexivity |].
    2:{ world_now. cbn [exec select_user_rating reading]. bind_params.
        rewrite Huid, Hsid. cbn [Pg.rbind Pg.ok].
        change (pair_matches (Some userId) (Some (s_id s)))
          with (same_pair userId (s_id s)).
        reflexivity. }
    cbn [fst json_of_store_row]. do 4 f_equal.
    destruct (filter (same_pair userId (s_id s)) (ratings (db w)))
      as [| r l] eqn:E; [reflexivity |].
    cbn [map userRating].
    assert (Hr : In r (ratings (db w))).
    { assert (H0 : In r (filter (same_pair userId (s_id s))
                           (ratings (db w)))) by (rewrite E; now left).
      now apply filter_In in H0. }
    pose proof (ratings_checked _ Hc r Hr) as Hck.
    unfold rating_check in Hck. apply andb_true_iff in Hck.
    destruct Hck as [Hlo _]. apply Z.leb_le in Hlo.
    destruct (r_rating r =? 0) eqn:E0; [| reflexivity].
    apply Z.eqb_eq in E0. lia.
Qed.

(** Jane (user 3) looks at the grocery store (store 1), which she rated
    with 4. *)
Lemma authenticated_view_adds_own_rating_witness :
  exists fields : list (string * json),
    fst (run (get_store "1") Sample.world)
    = res_json (Jobj [("store", Jobj fields)])
    /\ fst (run (get_store_authenticated "1" 3) Sample.world)
       = res_json
           (Jobj [("store", Jobj (fields ++ [("userRating", Jint 4)]))]).
Proof.
  apply (authenticated_view_adds_own_rating Sample.world "1"
           (nth 0 (stores Sample.database)
              {| s_id := 0; s_name := ""; s_email := ""; s_address := "";
                 s_owner_id := None; s_created_at := 0;
                 s_updated_at := 0 |}) 3);
    try reflexivity; [exact sample_constrained | simpl; auto].
Defined.


End StoreViews.

(** ** The two routes [GET /:id/ratings] of [routes/stores.js] *)

Section StoresRouting.

Import Http StoresRouter.

(** X12. The file registers [GET /:id/ratings] twice: first the public
    list, and at its end a paginated list for the owner of the store. The
    router gives every [GET /api/stores/x/ratings] to the first, and no
    request of any method or path to the second. *)
Theorem owner_ratings_route_unreachable :
  forall x : string,
    x <> "" ->
    dispatch routes GET [x; "ratings"] = Some (GET_id_ratings, [("id", x)])
    /\ (forall m path h params,
           dispatch routes m path = Some (h, params) ->
           h <> GET_id_ratings_of_owner).
Proof.
  intros x Hx. split.
  - unfold routes. cbn [dispatch method_eqb match_path].
    apply String.eqb_neq in Hx. rewrite Hx. reflexivity.
  - intros m path h params. unfold routes.
    destruct m; cbn [dispatch method_eqb]; try discriminate.
    repeat match goal with
           | |- context [match match_path ?p path with _ => _ end] =>
               destruct (match_path p path)
           end; intros [= <- <-]; discriminate.
Qed.

(** [GET /api/stores/1/ratings]. *)
Lemma owner_ratings_route_unreachable_witness :
  dispatch routes GET ["1"; "ratings"] = Some (GET_id_ratings, [("id", "1")]).
Proof.
  apply (proj1 (owner_ratings_route_unreachable "1" ltac:(discriminate))).
Defined.

End StoresRouting.

(** * The account routes: password and profile *)

Section AccountRoutes.

Import Schema Effects SqlBase UsersSql Account AccountChange Tables Reads.

Context {L : Auth.Libraries}.

Lemma leads_quiet_then {A B} (m : M A) (k : A -> M B) (d : database)
    (P : database -> Prop) :
  quiet m -> P d ->
  (forall x, leads (k x) d (fun _ d' => P d')) ->
  leads (bind m k) d (fun _ d' => P d').
Proof.
  intros Hm Hd Hk w Hw. unfold bind. specialize (Hm w).
  destruct (m w) as [[e | x] w1]; cbn [fst snd] in *.
  - now rewrite Hm, Hw.
  - apply Hk. now rewrite Hm.
Qed.

Lemma quiet_hash (data : string) (n : nat) : quiet (Auth.hash data n).
Proof. intros w. reflexivity. Qed.

Lemma new_value_inv (limit : Z) (check : string -> bool) (v : assigned)
    (old s : string) :
  new_value limit check v old = inr s ->
  (v = None /\ s = old)
  \/ (v = Some (Some s) /\ Auth.fits limit s = true /\ check s = true).
Proof.
  unfold new_value. destruct v as [[x |] |]; [| discriminate |].
  - destruct (Auth.fits limit x) eqn:E1; [| discriminate].
    destruct (check x) eqn:E2; [| discriminate].
    intros [= <-]. right. auto.
  - intros [= <-]. left. auto.
Qed.

Lemma updated_user_inv (n a h : assigned) (t : Z) (u u' : user) :
  updated_user n a h t u = inr u' ->
  u_id u' = u_id u /\ u_email u' = u_email u /\ u_role u' = u_role u
  /\ u_created_at u' = u_created_at u
  /\ (n = None -> u_name u' = u_name u)
  /\ (a = None -> u_address u' = u_address u)
  /\ (h = None -> u_password_hash u' = u_password_hash u).
Proof.
  unfold updated_user.
  destruct (new_value 60 name_check n (u_name u)) as [e | n'] eqn:En;
    [discriminate |]. cbn [Pg.rbind].
  destruct (new_value 400 _ a (u_address u)) as [e | a'] eqn:Ea;
    [discriminate |]. cbn [Pg.rbind].
  destruct (new_value 255 _ h (u_password_hash u)) as [e | h'] eqn:Eh;
    [discriminate |]. cbn [Pg.rbind].
  intros [= <-]. cbn. repeat split.
  - intros ->. now injection En.
  - intros ->. now injection Ea.
  - intros ->. now injection Eh.
Qed.

Lemma update_each_inv (sel : user -> bool) (f : user -> Pg.result user)
    (us us' : list user) :
  update_each sel f us = inr us' ->
  Forall2 (fun u u' => if sel u then f u = inr u' else u' = u) us us'.
Proof.
  revert us'. induction us as [| u us IH]; intros us'; cbn [update_each].
  - intros [= <-]. constructor.
  - destruct (sel u) eqn:E.
    + destruct (f u) as [e | u1] eqn:Ef; [discriminate |]. cbn [Pg.rbind].
      destruct (update_each sel f us) as [e | rest]; [discriminate |].
      cbn [Pg.rbind]. intros [= <-]. constructor; [| now apply IH].
      now rewrite E.
    + cbn [Pg.rbind Pg.ok].
      destruct (update_each sel f us) as [e | rest]; [discriminate |].
      cbn [Pg.rbind]. intros [= <-]. constructor; [| now apply IH].
      now rewrite E.
Qed.

Lemma forall2_refl {A} (R : A -> A -> Prop) (l : list A) :
  (forall x, R x x) -> Forall2 R l l.
Proof. intros H. induction l; constructor; auto. Qed.

Lemma forall2_weaken {A} (R R' : A -> A -> Prop) (l l' : list A) :
  (forall x y, R x y -> R' x y) -> Forall2 R l l' -> Forall2 R' l l'.
Proof. intros H. induction 1; constructor; auto. Qed.

Lemma same_identity_refl (uid : Z) (u : user) : same_identity uid u u.
Proof. now repeat split. Qed.

Lemma profile_unchanged (uid : Z) (d : database) :
  users_changed (profile_change uid) d d.
Proof.
  repeat split. apply forall2_refl. intros u.
  split; [apply same_identity_refl | reflexivity].
Qed.

Lemma password_unchanged (uid : Z) (d : database) :
  users_changed (password_change uid) d d.
Proof.
  repeat split. apply forall2_refl. intros u.
  split; [apply same_identity_refl | auto].
Qed.

(** An UPDATE of [users] keyed by the id of the caller. *)
Lemma update_where_changed (userId : Z) (id : option Z)
    (n a h : assigned) (t : Z) (d d' : database) (rows : list user)
    (change : user -> user -> Prop) :
  Pg.int4_in (Pg.Int userId) = inr id ->
  (forall u, change u u) ->
  (forall u u', updated_user n a h t u = inr u' -> u_id u = userId ->
                change u u') ->
  update_users_where (fun u => Pg.eq_int (u_id u) id) n a h t d
  = inr (rows, d') ->
  users_changed change d d'.
Proof.
  intros Hid Hrefl Hch. unfold update_users_where.
  destruct (update_each _ _ (users d)) as [e | us] eqn:E; [discriminate |].
  cbn [Pg.rbind]. intros [= _ <-]. repeat split. cbn [users with_users].
  apply update_each_inv in E.
  refine (forall2_weaken _ _ _ _ _ E). intros u u'. cbv beta.
  destruct (Pg.eq_int (u_id u) id) eqn:Es.
  - intros Hu. apply (Hch u u' Hu).
    destruct id as [i |]; [| discriminate].
    apply integer_in_int_inv in Hid. subst i. now apply Z.eqb_eq.
  - intros ->. apply Hrefl.
Qed.

Lemma profile_change_of_update (userId : Z) (n a : assigned) (t : Z)
    (u u' : user) :
  updated_user n a None t u = inr u' -> u_id u = userId ->
  profile_change userId u u'.
Proof.
  intros H Hu. apply updated_user_inv in H.
  destruct H as (H1 & H2 & H3 & H4 & _ & _ & H7).
  repeat split; auto. intros Hne. congruence.
Qed.

Lemma password_change_of_update (userId : Z) (h : assigned) (t : Z)
    (u u' : user) :
  updated_user None None h t u = inr u' -> u_id u = userId ->
  password_change userId u u'.
Proof.
  intros H Hu. apply updated_user_inv in H.
  destruct H as (H1 & H2 & H3 & H4 & H5 & H6 & _).
  repeat split; auto. intros Hne. congruence.
Qed.

Lemma put_password_changes (b : password_body) (userId : Z)
    (d : database) :
  leads (put_password b userId) d
        (fun _ d' => users_changed (password_change userId) d d').
Proof.
  unfold put_password. apply leads_catch_500.
  unfold select_password_hash.
  apply leads_read_then; [apply password_unchanged |].
  intros _ rows _. destruct rows as [| currentPasswordHash rest];
    [apply leads_ret, password_unchanged |].
  destruct (negb _); [apply leads_ret, password_unchanged |].
  cbv zeta.
  apply leads_quiet_then;
    [apply quiet_hash | apply password_unchanged | intros newPasswordHash].
  apply leads_bind. unfold update_password.
  apply leads_writing; [intros e; apply password_unchanged |].
  intros t rows d' Hw. bind_params_in Hw. cbn [Pg.text_in Pg.rbind] in Hw.
  destruct (Pg.int4_in (Pg.Int userId)) as [e | id] eqn:Ei;
    [discriminate |]. cbn [Pg.rbind] in Hw.
  apply leads_ret.
  refine (update_where_changed userId id _ _ _ t d d' rows _ Ei _ _ Hw).
  - intros u. split; [apply same_identity_refl | auto].
  - intros u u'. apply password_change_of_update.
Qed.

Lemma auth_put_profile_changes (b : profile_body) (userId : Z)
    (d : database) :
  leads (Account.put_profile b userId) d
        (fun _ d' => users_changed (profile_change userId) d d').
Proof.
  unfold Account.put_profile. apply leads_catch_500.
  destruct (_ || _); [apply leads_ret, profile_unchanged |]. cbv zeta.
  destruct (_ || _); [apply leads_ret, profile_unchanged |].
  destruct (400 <? _); [apply leads_ret, profile_unchanged |].
  apply leads_bind. unfold update_profile.
  apply leads_writing; [intros e; apply profile_unchanged |].
  intros t rows d' Hw. bind_params_in Hw. cbn [Pg.text_in Pg.rbind] in Hw.
  destruct (Pg.int4_in (Pg.Int userId)) as [e | id] eqn:Ei;
    [discriminate |]. cbn [Pg.rbind] in Hw.
  assert (H : users_changed (profile_change userId) d d').
  { refine (update_where_changed userId id _ _ _ t d d' rows _ Ei _ _ Hw).
    - intros u. split; [apply same_identity_refl | reflexivity].
    - intros u u'. apply profile_change_of_update. }
  destruct rows; apply leads_ret; exact H.
Qed.

Lemma users_put_profile_changes (b : profile_body) (userId : Z)
    (d : database) :
  leads (UsersProfile.put_profile b userId) d
        (fun _ d' => users_changed (profile_change userId) d d').
Proof.
  unfold UsersProfile.put_profile. apply leads_catch_500. cbv zeta.
  destruct (_ && _); [apply leads_ret, profile_unchanged |].
  destruct (_ && _); [apply leads_ret, profile_unchanged |].
  destruct (_ =? 0)%nat; [apply leads_ret, profile_unchanged |].
  apply leads_bind. unfold update_users_set.
  apply leads_writing; [intros e; apply profile_unchanged |].
  intros t rows d' Hw.
  destruct (assigned_by name_placeholder _ _) as [e | n];
    [discriminate |]. cbn [Pg.rbind] in Hw.
  destruct (assigned_by address_placeholder _ _) as [e | a];
    [discriminate |]. cbn [Pg.rbind] in Hw.
  destruct (int_param _ _) as [e | id] eqn:Ei; [discriminate |].
  cbn [Pg.rbind] in Hw.
  apply leads_ret.
  assert (Hid : Pg.int4_in (Pg.Int userId) = inr id).
  { revert Ei. unfold UsersProfile.push_id, UsersProfile.push_field.
    destruct (Js.truthy (pb_name b)), (Js.truthy (pb_address b));
      cbn [UsersProfile.paramCount UsersProfile.params app];
      unfold int_param; cbn [Pg.param nth_error Nat.sub Pg.rbind Pg.ok];
      auto. }
  refine (update_where_changed userId id _ _ _ t d d' rows _ Hid _ _ Hw).
  - intros u. split; [apply same_identity_refl | reflexivity].
  - intros u u'. apply profile_change_of_update.
Qed.

End AccountRoutes.

(** X13. The three routes with which users change their own account
    ([PUT /api/auth/password], [PUT /api/auth/profile] and
    [PUT /api/users/profile]) leave stores and ratings alone and keep
    every row of [users] in its place with its id, email, role and
    creation time; a row of another user is not changed at all. The
    profile routes keep the password hash, the password route keeps name
    and address. This holds for every body, and whether or not queries
    fail. *)
Theorem account_routes_keep_identity :
  forall (L : Auth.Libraries) (w : Effects.world) (userId : Z),
    (forall b,
        AccountChange.users_changed (AccountChange.password_change userId)
          (Effects.db w)
          (Effects.db (snd (Effects.run (Account.put_password b userId) w))))
    /\ (forall b,
           AccountChange.users_changed (AccountChange.profile_change userId)
             (Effects.db w)
             (Effects.db
                (snd (Effects.run (Account.put_profile b userId) w))))
    /\ (forall b,
           AccountChange.users_changed (AccountChange.profile_change userId)
             (Effects.db w)
             (Effects.db
                (snd (Effects.run (UsersProfile.put_profile b userId) w)))).
Proof.
  intros L w userId. split; [| split]; intros b.
  - apply (leads_run _ w
             (AccountChange.users_changed
                (AccountChange.password_change userId) (Effects.db w))),
      put_password_changes.
  - apply (leads_run _ w
             (AccountChange.users_changed
                (AccountChange.profile_change userId) (Effects.db w))),
      auth_put_profile_changes.
  - apply (leads_run _ w
             (AccountChange.users_changed
                (AccountChange.profile_change userId) (Effects.db w))),
      users_put_profile_changes.
Qed.

Section PasswordRoute.

Import Schema Effects SqlBase UsersSql Account.

Context {L : Auth.Libraries}.

Lemma own_row (d : database) (u0 : user) :
  NoDup (map u_id (users d)) ->
  In u0 (users d) ->
  filter (fun u => Pg.eq_int (u_id u) (Some (u_id u0))) (users d) = [u0].
Proof.
  intros Hnd Hin. apply (filter_unique _ u_id); try assumption.
  - apply Z.eqb_refl.
  - intros y Hy. now apply Z.eqb_eq.
Qed.

Lemma row_of_email (d : database) (u0 : user) :
  NoDup (map u_email (users d)) ->
  In u0 (users d) ->
  filter (fun u => Pg.eq_text (u_email u) (Some (u_email u0))) (users d)
  = [u0].
Proof.
  intros Hnd Hin. apply (filter_unique _ u_email); try assumption.
  - apply String.eqb_refl.
  - intros y Hy. now apply String.eqb_eq.
Qed.

Lemma update_each_map (sel : user -> bool) (f : user -> Pg.result user)
    (g : user -> user) (us : list user) :
  (forall u, In u us -> sel u = true -> f u = inr (g u)) ->
  update_each sel f us = inr (map (fun u => if sel u then g u else u) us).
Proof.
  induction us as [| u us IH]; intros H; [reflexivity |].
  cbn [update_each map]. rewrite IH by (intros x Hx; apply H; now right).
  destruct (sel u) eqn:E; [| reflexivity].
  now rewrite (H u (or_introl eq_refl) E).
Qed.

Lemma filter_map_same {A} (p : A -> bool) (g : A -> A) (l : list A) :
  (forall x, p (g x) = p x) -> filter p (map g l) = map g (filter p l).
Proof.
  intros H. induction l as [| a l IH]; [reflexivity |].
  cbn [map filter]. rewrite H, IH. now destruct (p a).
Qed.

(** What a password update with the right current password does. *)
Lemma put_password_updates (LL : Auth.LibrariesLaws L) (w : world)
    (b : password_body) (u0 : user) :
  faults w = [] ->
  consistent (db w) ->
  In u0 (users (db w)) ->
  Auth.bcrypt_compare (currentPassword b) (u_password_hash u0) = true ->
  exists h w1,
    run (put_password b (u_id u0)) w
    = (res_json (message "Password updated successfully"), w1)
    /\ faults w1 = []
    /\ env_JWT_SECRET w1 = env_JWT_SECRET w
    /\ Auth.bcrypt_compare (newPassword b) h = true
    /\ db w1
       = with_users
           (map (fun u => if Pg.eq_int (u_id u) (Some (u_id u0))
                          then with_password h (now w) u else u)
                (users (db w)))
           (db w).
Proof.
  intros Hf Hc Hin Hpw.
  assert (Hid : Pg.int4_in (Pg.Int (u_id u0)) = Pg.ok (Some (u_id u0)))
    by (apply int4_in_int; now apply (users_int4 _ Hc)).
  unfold run, put_password, catch_500, try_catch, bind.
  erewrite pool_query_ok; [| exact Hf | reflexivity |].
  2:{ cbn [exec select_password_hash reading]. bind_params.
      rewrite Hid. cbn [Pg.rbind Pg.ok].
      rewrite (own_row _ _ (users_pk _ Hc) Hin). reflexivity. }
  cbn [map]. cbv iota. rewrite Hpw. cbn [negb]. cbv zeta.
  unfold Auth.hash at 1.
  cbn [db now faults salts with_db with_faults with_salts].
  erewrite pool_query_ok; [| reflexivity | reflexivity |].
  2:{ cbn [exec update_password writing db now faults salts with_db
             with_faults with_salts].
      bind_params. cbn [Pg.text_in]. rewrite Hid. cbn [Pg.rbind Pg.ok].
      unfold update_users_where.
      rewrite (update_each_map _ _
                 (with_password
                    (Auth.bcrypt_hash (hd "" (salts w)) (newPassword b) 10)
                    (now w))).
      - cbn [Pg.rbind Pg.ok]. reflexivity.
      - intros u _ _. unfold updated_user, new_value.
        rewrite (fits_of_le _ _ (Auth.hash_length _ _ _)). reflexivity. }
  eexists _, _. split; [reflexivity |].
  cbn [faults env_JWT_SECRET db with_db with_faults with_salts].
  repeat split. apply Auth.compare_hash.
Qed.

Lemma put_password_wrong (w : world) (b : password_body) (u0 : user) :
  consistent (db w) ->
  In u0 (users (db w)) ->
  Auth.bcrypt_compare (currentPassword b) (u_password_hash u0) = false ->
  let (res, w') := run (put_password b (u_id u0)) w in
  db w' = db w
  /\ (status res = 400 \/ status res = 500)
  /\ (query_failures w' = query_failures w ->
      res = res_status_json 400 (message "Current password is incorrect")).
Proof.
  intros Hc Hin Hpw.
  assert (Hid : Pg.int4_in (Pg.Int (u_id u0)) = Pg.ok (Some (u_id u0)))
    by (apply int4_in_int; now apply (users_int4 _ Hc)).
  unfold put_password, run, catch_500, try_catch, bind, pool_query.
  destruct (fault_now (faults w)).
  { simpl. repeat split; auto. intros H. lia. }
  cbn [List.length Nat.eqb negb select_password_hash reading placeholders
         exec].
  bind_params. rewrite Hid. cbn [Pg.rbind Pg.ok].
  rewrite (own_row _ _ (users_pk _ Hc) Hin). cbn [map]. cbv iota.
  rewrite Hpw. simpl. auto.
Qed.

End PasswordRoute.

(** X14. Changing the password and logging in with the new one: when the
    caller gives the current password of the account, the update answers
    200 [Password updated successfully], and a login with the email of
    the account and the new password then succeeds and shows the same
    account. The libraries are any that satisfy [LibrariesLaws]. *)
Theorem password_change_round_trip :
  forall (L : Auth.Libraries),
    Auth.LibrariesLaws L ->
    forall (w : Effects.world) (b : Account.password_body)
           (u0 : Schema.user) (secret : string),
      Effects.faults w = [] ->
      Schema.consistent (Effects.db w) ->
      Effects.env_JWT_SECRET w = Some secret ->
      In u0 (Schema.users (Effects.db w)) ->
      Auth.bcrypt_compare (Account.currentPassword b)
        (Schema.u_password_hash u0) = true ->
      let (res1, w1) :=
        Effects.run (Account.put_password b (Schema.u_id u0)) w in
      let res2 :=
        fst (Effects.run
               (Auth.login {| Auth.lb_email := Schema.u_email u0;
                              Auth.lb_password := Account.newPassword b |})
               w1) in
      res1 = res_json (message "Password updated successfully")
      /\ exists token : json,
           res2 = res_json (Jobj [("message", Jstr "Login successful");
                                  ("user", Auth.json_of_account u0);
                                  ("token", token)])
           /\ Auth.jwt_verify token secret = Some (Auth.claims_of u0).
Proof.
  intros L LL w b u0 secret Hf Hc Hs Hin Hpw.
  destruct (put_password_updates LL w b u0 Hf Hc Hin Hpw)
    as (h & w1 & Hrun & Hf1 & Hs1 & Hh & Hd1).
  rewrite Hrun. split; [reflexivity |].
  unfold Effects.run, Auth.login, Effects.catch_500, Effects.try_catch,
    Effects.bind.
  erewrite pool_query_ok; [| exact Hf1 | reflexivity |].
  2:{ cbn [Effects.exec Auth.select_user_by_email SqlBase.reading].
      bind_params. cbn [Pg.text_in Pg.rbind Pg.ok Auth.lb_email].
      rewrite Hd1. cbn [Schema.users Schema.with_users].
      rewrite filter_map_same.
      - rewrite (row_of_email _ _ (Schema.users_email_unique _ Hc) Hin).
        cbn [map Pg.eq_int]. rewrite Z.eqb_refl. reflexivity.
      - intros x. destruct (Pg.eq_int _ _); reflexivity. }
  cbv iota. cbn [Auth.lb_password UsersSql.with_password
                   Schema.u_password_hash].
  rewrite Hh. cbn [negb]. unfold Auth.sign.
  cbn [Effects.env_JWT_SECRET Effects.with_db Effects.with_faults].
  rewrite Hs1, Hs.
  eexists. split; [reflexivity |]. apply Auth.verify_sign.
Qed.

(** John (user 2) replaces the password of the sample data and logs in. *)
Lemma password_change_round_trip_witness :
  let john := nth 1 (Schema.users Sample.database)
                  (Sample.a_user 0 "" "" "" "") in
  let b := {| Account.currentPassword := "$2a$10$hash";
              Account.newPassword := "John@4567" |} in
  let (res1, w1) :=
    Effects.run (@Account.put_password Sample.libraries b 2) Sample.world in
  let res2 :=
    fst (Effects.run
           (@Auth.login Sample.libraries
              {| Auth.lb_email := "user@example.com";
                 Auth.lb_password := "John@4567" |}) w1) in
  res1 = res_json (message "Password updated successfully")
  /\ exists token : json,
       res2 = res_json (Jobj [("message", Jstr "Login successful");
                              ("user", @Auth.json_of_account john);
                              ("token", token)])
       /\ @Auth.jwt_verify Sample.libraries token "secret"
          = Some (Auth.claims_of john).
Proof.
  intros john b.
  apply (password_change_round_trip Sample.libraries sample_libraries_laws
           Sample.world b john "secret");
    try reflexivity; [exact sample_consistent | simpl; auto].
Defined.

(** X15. A password update that gives a wrong current password changes
    nothing: the database is as before and the answer is 400 [Current
    password is incorrect], or the internal error if the query failed. *)
Theorem wrong_current_password_changes_nothing :
  forall (L : Auth.Libraries) (w : Effects.world)
         (b : Account.password_body) (u0 : Schema.user),
    Schema.consistent (Effects.db w) ->
    In u0 (Schema.users (Effects.db w)) ->
    Auth.bcrypt_compare (Account.currentPassword b)
      (Schema.u_password_hash u0) = false ->
    let (res, w') :=
      Effects.run (Account.put_password b (Schema.u_id u0)) w in
    Effects.db w' = Effects.db w
    /\ (status res = 400 \/ status res = 500)
    /\ (Effects.query_failures w' = Effects.query_failures w ->
        res = res_status_json 400
                (message "Current password is incorrect")).
Proof. intros L w b u0. apply put_password_wrong. Qed.

(** John (user 2) gives a wrong current password. *)
Lemma wrong_current_password_changes_nothing_witness :
  let b := {| Account.currentPassword := "guess";
              Account.newPassword := "John@4567" |} in
  let (res, w') :=
    Effects.run (@Account.put_password Sample.libraries b 2) Sample.world in
  Effects.db w' = Effects.db Sample.world
  /\ (status res = 400 \/ status res = 500)
  /\ (Effects.query_failures w' = Effects.query_failures Sample.world ->
      res = res_status_json 400 (message "Current password is incorrect")).
Proof.
  intros b.
  apply (wrong_current_password_changes_nothing Sample.libraries
           Sample.world b
           (nth 1 (Schema.users Sample.database)
                (Sample.a_user 0 "" "" "" "")));
    [exact sample_consistent | simpl; auto | reflexivity].
Defined.

(** * Registration and login: the refusals *)

(** X16. A registration with an email that an account already has adds
    nothing: the database is as before and the answer is 400 [User with
    this email already exists], or the internal error if the query
    failed. *)
Theorem register_existing_email :
  forall (L : Auth.Libraries) (w : Effects.world) (b : Auth.register_body)
         (u0 : Schema.user),
    In u0 (Schema.users (Effects.db w)) ->
    Schema.u_email u0 = Auth.rb_email b ->
    let (res, w') := Effects.run (Auth.register b) w in
    Effects.db w' = Effects.db w
    /\ (status res = 400 \/ status res = 500)
    /\ (Effects.query_failures w' = Effects.query_failures w ->
        res = res_status_json 400
                (message "User with this email already exists")).
Proof.
  intros L w b u0 Hin Hmail.
  unfold Auth.register, Effects.run, Effects.catch_500, Effects.try_catch,
    Effects.bind, Effects.pool_query.
  destruct (Effects.fault_now (Effects.faults w)).
  { simpl. repeat split; auto. intros H. lia. }
  cbn [List.length Nat.eqb negb Auth.select_user_id_by_email SqlBase.reading
         Effects.placeholders Effects.exec].
  bind_params. cbn [Pg.text_in Pg.rbind Pg.ok].
  destruct (filter (fun u => Pg.eq_text (Schema.u_email u)
                               (Some (Auth.rb_email b)))
              (Schema.users (Effects.db w))) as [| u l] eqn:E.
  - exfalso.
    assert (H : In u0 (filter (fun u => Pg.eq_text (Schema.u_email u)
                                          (Some (Auth.rb_email b)))
                         (Schema.users (Effects.db w)))).
    { apply filter_In. split; [exact Hin |].
      cbn [Pg.eq_text]. rewrite Hmail. apply String.eqb_refl. }
    rewrite E in H. destruct H.
  - simpl. repeat split; auto.
Qed.

(** Someone registers with the email of John. *)
Lemma register_existing_email_witness :
  let b := {| Auth.rb_name := "John Doe - Normal User Again";
              Auth.rb_email := "user@example.com";
              Auth.rb_password := "John@4567";
              Auth.rb_address := "123 Main Street, Example City, EC 12345" |} in
  let (res, w') :=
    Effects.run (@Auth.register Sample.libraries b) Sample.world in
  Effects.db w' = Effects.db Sample.world
  /\ (status res = 400 \/ status res = 500)
  /\ (Effects.query_failures w' = Effects.query_failures Sample.world ->
      res = res_status_json 400
              (message "User with this email already exists")).
Proof.
  intros b.
  apply (register_existing_email Sample.libraries Sample.world b
           (nth 1 (Schema.users Sample.database)
                (Sample.a_user 0 "" "" "" "")));
    [simpl; auto | reflexivity].
Defined.

(** X17. A login is refused in one way only: whether no account has the
    email or the password does not match the hash of the account that
    has it, the answer is 401 [Invalid email or password] (the internal
    error if the query failed), and nothing is written. *)
Theorem login_refusals_alike :
  forall (L : Auth.Libraries) (w : Effects.world) (b : Auth.login_body),
    (forall u, In u (Schema.users (Effects.db w)) ->
               Schema.u_email u = Auth.lb_email b ->
               Auth.bcrypt_compare (Auth.lb_password b)
                 (Schema.u_password_hash u) = false) ->
    let (res, w') := Effects.run (Auth.login b) w in
    Effects.db w' = Effects.db w
    /\ (status res = 401 \/ status res = 500)
    /\ (Effects.query_failures w' = Effects.query_failures w ->
        res = res_status_json 401 (message "Invalid email or password")).
Proof.
  intros L w b Hno.
  unfold Auth.login, Effects.run, Effects.catch_500, Effects.try_catch,
    Effects.bind, Effects.pool_query.
  destruct (Effects.fault_now (Effects.faults w)).
  { simpl. repeat split; auto. intros H. lia. }
  cbn [List.length Nat.eqb negb Auth.select_user_by_email SqlBase.reading
         Effects.placeholders Effects.exec].
  bind_params. cbn [Pg.text_in Pg.rbind Pg.ok].
  destruct (filter (fun u => Pg.eq_text (Schema.u_email u)
                               (Some (Auth.lb_email b)))
              (Schema.users (Effects.db w))) as [| u l] eqn:E.
  - simpl. repeat split; auto.
  - assert (H : In u (filter (fun u => Pg.eq_text (Schema.u_email u)
                                         (Some (Auth.lb_email b)))
                        (Schema.users (Effects.db w))))
      by (rewrite E; now left).
    apply filter_In in H. destruct H as [Hin Hmail].
    cbn [Pg.eq_text] in Hmail. apply String.eqb_eq in Hmail.
    cbv iota. rewrite (Hno u Hin Hmail). simpl. repeat split; auto.
Qed.

(** The email of John with a wrong password. *)
Lemma login_refusals_alike_witness :
  let b := {| Auth.lb_email := "user@example.com";
              Auth.lb_password := "guess" |} in
  let (res, w') := Effects.run (@Auth.login Sample.libraries b) Sample.world in
  Effects.db w' = Effects.db Sample.world
  /\ (status res = 401 \/ status res = 500)
  /\ (Effects.query_failures w' = Effects.query_failures Sample.world ->
      res = res_status_json 401 (message "Invalid email or password")).
Proof.
  intros b. apply (login_refusals_alike Sample.libraries Sample.world b).
  intros u Hu Hm. simpl in Hu.
  repeat (destruct Hu as [<- | Hu]; [try discriminate; reflexivity |]).
  destruct Hu.
Defined.

(** * The two profile routes *)

Section ProfileRoutes.

Import Schema Effects SqlBase UsersSql Account.

Lemma update_where_ok (id : Z) (n a h : assigned) (t : Z) (d : database)
    (g : user -> user) :
  (forall u, In u (users d) -> u_id u = id ->
             updated_user n a h t u = inr (g u)) ->
  let G := fun u => if Pg.eq_int (u_id u) (Some id) then g u else u in
  update_users_where (fun u => Pg.eq_int (u_id u) (Some id)) n a h t d
  = inr (filter (fun u => Pg.eq_int (u_id u) (Some id)) (map G (users d)),
         with_users (map G (users d)) d).
Proof.
  intros H G. unfold update_users_where.
  rewrite (update_each_map _ _ g); [reflexivity |].
  intros u Hu Hs. apply (H u Hu). now apply Z.eqb_eq.
Qed.

Lemma truthy_default (x : option string) :
  Js.truthy x = true -> x = Some (Js.default x "").
Proof. destruct x; [reflexivity | discriminate]. Qed.

Lemma name_in_bounds (s : string) :
  (strlen s <? 20) || (60 <? strlen s) = false ->
  Auth.fits 60 s = true /\ name_check s = true.
Proof.
  intros H. apply orb_false_iff in H. destruct H as [H1 H2].
  apply Z.ltb_ge in H1, H2. unfold Auth.fits, name_check.
  split; [now apply Z.leb_le |].
  apply andb_true_iff. split; now apply Z.leb_le.
Qed.

Lemma address_in_bounds (s : string) :
  (400 <? strlen s) = false -> Auth.fits 400 s = true.
Proof. intros H. apply Z.ltb_ge in H. now apply Z.leb_le. Qed.

(** The UPDATE that [PUT /api/users/profile] builds, on the tables. *)
Lemma users_profile_update (b : profile_body) (id t : Z) (d : database) :
  Pg.int4_in (Pg.Int id) = Pg.ok (Some id) ->
  Js.truthy (pb_name b)
  && ((strlen (Js.default (pb_name b) "") <? 20)
      || (60 <? strlen (Js.default (pb_name b) ""))) = false ->
  Js.truthy (pb_address b)
  && (400 <? strlen (Js.default (pb_address b) "")) = false ->
  let plan :=
    UsersProfile.push_id id
      (UsersProfile.push_field (pb_address b) AddressIs
         (UsersProfile.push_field (pb_name b) NameIs
            {| UsersProfile.updateFields := [];
               UsersProfile.params := [];
               UsersProfile.paramCount := 0 |})) in
  let G := fun u => if Pg.eq_int (u_id u) (Some id)
                    then UsersProfile.merged b t u else u in
  List.length (UsersProfile.params plan) = UsersProfile.paramCount plan
  /\ exec (update_users_set (UsersProfile.updateFields plan)
             (UsersProfile.paramCount plan))
          (UsersProfile.params plan) t d
     = (inr (filter (fun u => Pg.eq_int (u_id u) (Some id))
                    (map G (users d))),
        with_users (map G (users d)) d).
Proof.
  intros Hid Hn Ha plan G. subst plan.
  unfold UsersProfile.push_id, UsersProfile.push_field.
  assert (Hrow : forall n a,
             (n = None /\ Js.truthy (pb_name b) = false
              \/ n = Some (Some (Js.default (pb_name b) ""))
                 /\ Js.truthy (pb_name b) = true) ->
             (a = None /\ Js.truthy (pb_address b) = false
              \/ a = Some (Some (Js.default (pb_address b) ""))
                 /\ Js.truthy (pb_address b) = true) ->
             update_users_where (fun u => Pg.eq_int (u_id u) (Some id))
               n a None t d
             = inr (filter (fun u => Pg.eq_int (u_id u) (Some id))
                           (map G (users d)),
                    with_users (map G (users d)) d)).
  { intros n a Hn' Ha'.
    apply (update_where_ok id n a None t d (UsersProfile.merged b t)).
    intros u _ _. unfold updated_user, UsersProfile.merged, with_profile.
    destruct Hn' as [[-> En] | [-> En]], Ha' as [[-> Ea] | [-> Ea]];
      rewrite En, Ea in *; cbn [andb] in Hn, Ha;
      unfold new_value;
      try (destruct (name_in_bounds _ Hn) as [-> ->]);
      try rewrite (address_in_bounds _ Ha);
      reflexivity. }
  destruct (Js.truthy (pb_name b)) eqn:En,
    (Js.truthy (pb_address b)) eqn:Ea;
    cbn [UsersProfile.updateFields UsersProfile.params
           UsersProfile.paramCount app List.length];
    (split; [reflexivity |]);
    cbn [exec update_users_set writing assigned_by name_placeholder
           address_placeholder];
    bind_params; cbn [Pg.text_in Pg.rbind Pg.ok];
    rewrite Hid; cbn [Pg.rbind Pg.ok];
    rewrite Hrow; auto.
Qed.

(** The UPDATE of [PUT /api/auth/profile], on the tables. *)
Lemma auth_profile_update (name address : string) (id t : Z)
    (d : database) :
  Pg.int4_in (Pg.Int id) = Pg.ok (Some id) ->
  (strlen name <? 20) || (60 <? strlen name) = false ->
  (400 <? strlen address) = false ->
  let G := fun u => if Pg.eq_int (u_id u) (Some id)
                    then with_profile name address t u else u in
  exec update_profile [Pg.Text name; Pg.Text address; Pg.Int id] t d
  = (inr (filter (fun u => Pg.eq_int (u_id u) (Some id)) (map G (users d))),
     with_users (map G (users d)) d).
Proof.
  intros Hid Hn Ha G. cbn [exec update_profile writing]. bind_params.
  cbn [Pg.text_in Pg.rbind Pg.ok]. rewrite Hid. cbn [Pg.rbind Pg.ok].
  rewrite (update_where_ok id _ _ None t d (with_profile name address t));
    [reflexivity |].
  intros u _ _. unfold updated_user, new_value.
  destruct (name_in_bounds _ Hn) as [-> ->].
  rewrite (address_in_bounds _ Ha). reflexivity.
Qed.

Lemma updated_rows (id : Z) (g : user -> user) (d : database) :
  (forall u, u_id (g u) = u_id u) ->
  let G := fun u => if Pg.eq_int (u_id u) (Some id) then g u else u in
  filter (fun u => Pg.eq_int (u_id u) (Some id)) (map G (users d))
  = map g (filter (fun u => Pg.eq_int (u_id u) (Some id)) (users d)).
Proof.
  intros Hg G. induction (users d) as [| u l IH]; [reflexivity |].
  cbn [map filter]. subst G. cbv beta.
  destruct (Pg.eq_int (u_id u) (Some id)) eqn:E.
  - rewrite Hg, E. cbn [map]. now f_equal.
  - rewrite E. exact IH.
Qed.

Lemma no_row (id : Z) (d : database) :
  (forall u, In u (users d) -> u_id u <> id) ->
  filter (fun u => Pg.eq_int (u_id u) (Some id)) (users d) = [].
Proof.
  intros H. apply filter_nil. intros u Hu. apply Z.eqb_neq. now apply H.
Qed.

Lemma plan_not_empty (b : profile_body) :
  Js.truthy (pb_name b) || Js.truthy (pb_address b) = true ->
  (List.length
     (UsersProfile.updateFields
        (UsersProfile.push_field (pb_address b) AddressIs
           (UsersProfile.push_field (pb_name b) NameIs
              {| UsersProfile.updateFields := [];
                 UsersProfile.params := [];
                 UsersProfile.paramCount := 0 |}))) =? 0)%nat = false.
Proof.
  unfold UsersProfile.push_field.
  destruct (Js.truthy (pb_name b)), (Js.truthy (pb_address b));
    [reflexivity | reflexivity | reflexivity | discriminate].
Qed.

(** What [PUT /api/users/profile] does with a body that passes its
    checks and names a field, whoever the caller is. *)
Lemma users_put_profile_runs (w : world) (b : profile_body) (id : Z) :
  faults w = [] ->
  Pg.int4_min <= id <= Pg.int4_max ->
  Js.truthy (pb_name b)
  && ((strlen (Js.default (pb_name b) "") <? 20)
      || (60 <? strlen (Js.default (pb_name b) ""))) = false ->
  Js.truthy (pb_address b)
  && (400 <? strlen (Js.default (pb_address b) "")) = false ->
  Js.truthy (pb_name b) || Js.truthy (pb_address b) = true ->
  let rows := map (UsersProfile.merged b (now w))
                  (filter (fun u => Pg.eq_int (u_id u) (Some id))
                          (users (db w))) in
  exists w1,
    run (UsersProfile.put_profile b id) w
    = (res_json
         (Jobj (("message", Jstr "Profile updated successfully")
                :: match rows with
                   | [] => []
                   | user :: _ => [("user", json_of_profile user)]
                   end)), w1)
    /\ users (db w1)
       = map (fun u => if Pg.eq_int (u_id u) (Some id)
                       then UsersProfile.merged b (now w) u else u)
             (users (db w)).
Proof.
  intros Hf Hid Hn Ha Hsome rows.
  apply int4_in_int in Hid.
  destruct (users_profile_update b id (now w) (db w) Hid Hn Ha)
    as [Hlen Hexec].
  unfold run, UsersProfile.put_profile, catch_500, try_catch, bind.
  cbv zeta. rewrite Hn, Ha, (plan_not_empty b Hsome).
  erewrite pool_query_ok; [| exact Hf | exact Hlen | exact Hexec].
  rewrite (updated_rows id (UsersProfile.merged b (now w)) (db w))
    by reflexivity.
  eexists. split; reflexivity.
Qed.

(** What [PUT /api/auth/profile] does with a body that passes its
    checks. *)
Lemma auth_put_profile_runs (w : world) (b : profile_body) (id : Z) :
  faults w = [] ->
  Pg.int4_min <= id <= Pg.int4_max ->
  negb (Js.truthy (pb_name b)) || negb (Js.truthy (pb_address b)) = false ->
  (strlen (Js.default (pb_name b) "") <? 20)
  || (60 <? strlen (Js.default (pb_name b) "")) = false ->
  (400 <? strlen (Js.default (pb_address b) "")) = false ->
  let change :=
    with_profile (Js.default (pb_name b) "") (Js.default (pb_address b) "")
                 (now w) in
  let rows := map change
                  (filter (fun u => Pg.eq_int (u_id u) (Some id))
                          (users (db w))) in
  exists w1,
    run (Account.put_profile b id) w
    = (match rows with
       | [] => res_status_json 404 (message "User not found")
       | user :: _ =>
           res_json (Jobj [("message", Jstr "Profile updated successfully");
                           ("user", json_of_profile user)])
       end, w1)
    /\ users (db w1)
       = map (fun u => if Pg.eq_int (u_id u) (Some id) then change u else u)
             (users (db w)).
Proof.
  intros Hf Hid Ht Hn Ha change rows. subst rows change.
  apply int4_in_int in Hid.
  unfold run, Account.put_profile, catch_500, try_catch, bind.
  rewrite Ht. cbv zeta. rewrite Hn, Ha.
  erewrite pool_query_ok;
    [| exact Hf | reflexivity
     | exact (auth_profile_update _ _ id (now w) (db w) Hid Hn Ha)].
  rewrite (updated_rows id
             (with_profile (Js.default (pb_name b) "")
                (Js.default (pb_address b) "") (now w)) (db w))
    by reflexivity.
  destruct (map _ _); eexists; split; reflexivity.
Qed.

Lemma bounds_pass (x : option string) (s : string) (lo hi : Z) :
  x = Some s -> 1 <= lo -> lo <= strlen s <= hi ->
  Js.truthy x = true
  /\ (strlen (Js.default x "") <? lo) = false
  /\ (hi <? strlen (Js.default x "")) = false.
Proof.
  intros -> Hlo Hs. cbn [Js.default]. repeat split.
  - cbn. destruct s; [cbn in Hs; lia | reflexivity].
  - apply Z.ltb_ge. lia.
  - apply Z.ltb_ge. lia.
Qed.

End ProfileRoutes.







(** * Creating accounts and stores *)

Section Creation.

Import Schema Effects SqlBase UsersSql AdminWrites Tables Reads.

Context {L : Auth.Libraries}.

Lemma quiet_sign (c : Auth.claims) : quiet (Auth.sign c).
Proof.
  intros w. unfold Auth.sign. now destruct (env_JWT_SECRET w).
Qed.

Lemma adds_no_user (role email : string) (d : database) :
  adds_user role email d d.
Proof. repeat split. now left. Qed.

Lemma adds_no_user_seq (role email : string) (d : database) (n : Z) :
  adds_user role email d (with_users_id_seq n d).
Proof. repeat split. now left. Qed.

(** The INSERT of both routes, for any continuation that leaves the
    tables alone. *)
Lemma insert_user_adds {B} (name email hash address role : string)
    (k : user -> M B) (d : database) :
  (forall u, quiet (k u)) ->
  leads (bind (pool_query Auth.insert_user
                 [Pg.Text name; Pg.Text email; Pg.Text hash;
                  Pg.Text address; Pg.Text role]) k)
        d (fun _ d' => adds_user role email d d').
Proof.
  intros Hk. apply leads_bind. apply leads_pool_query;
    [intros e; apply adds_no_user |].
  intros t. cbn [exec Auth.insert_user]. bind_params.
  cbn [Pg.text_in Pg.rbind Pg.ok]. cbv beta iota zeta.
  destruct (negb (_ && _)); [apply adds_no_user_seq |].
  destruct (negb (name_check name)); [apply adds_no_user_seq |].
  destruct (negb (role_check role)) eqn:Er; [apply adds_no_user_seq |].
  destruct (existsb _ (users d)); [apply adds_no_user_seq |].
  destruct (existsb _ (users d)); [apply adds_no_user_seq |].
  cbn [fst snd]. intros w Hw.
  rewrite (quiet_run_of _ _ (Hk _)), Hw.
  repeat split. right. eexists. split; [reflexivity |].
  repeat split. now apply negb_false_iff in Er.
Qed.

Lemma register_adds (b : Auth.register_body) (d : database) :
  leads (Auth.register b) d
        (fun _ d' => adds_user "normal_user" (Auth.rb_email b) d d').
Proof.
  unfold Auth.register. apply leads_catch_500.
  unfold Auth.select_user_id_by_email.
  apply leads_read_then; [apply adds_no_user |]. intros _ existing _.
  destruct (0 <? _)%nat; [apply leads_ret, adds_no_user |]. cbv zeta.
  apply leads_quiet_then;
    [apply quiet_hash | apply adds_no_user | intros passwordHash].
  apply insert_user_adds. intros u.
  apply quiet_bind; [apply quiet_sign | intros token; apply quiet_ret].
Qed.

Lemma post_user_adds (b : user_body) (d : database) :
  leads (post_user b) d
        (fun _ d' =>
           adds_user (Js.default (ub_role b) "normal_user") (ub_email b)
                     d d').
Proof.
  unfold post_user. apply leads_catch_500. cbv zeta.
  destruct (negb _); [apply leads_ret, adds_no_user |].
  unfold Auth.select_user_id_by_email.
  apply leads_read_then; [apply adds_no_user |]. intros _ existing _.
  destruct (0 <? _)%nat; [apply leads_ret, adds_no_user |].
  apply leads_quiet_then;
    [apply quiet_hash | apply adds_no_user | intros passwordHash].
  apply insert_user_adds. intros u. apply quiet_ret.
Qed.

Lemma adds_no_store (d : database) : adds_store d d.
Proof. repeat split. now left. Qed.

Lemma owner_of_role (d : database) (id : option Z) (role : string)
    (rest : list string) :
  map u_role (filter (fun u => Pg.eq_int (u_id u) id) (users d))
  = role :: rest ->
  exists u o, id = Some o /\ In u (users d) /\ u_id u = o /\ u_role u = role.
Proof.
  intros H.
  destruct (filter (fun u => Pg.eq_int (u_id u) id) (users d))
    as [| u l] eqn:E; [discriminate |].
  injection H as Hr _.
  assert (Hin : In u (filter (fun u => Pg.eq_int (u_id u) id) (users d)))
    by (rewrite E; now left).
  apply filter_In in Hin. destruct Hin as [Hin Hid].
  destruct id as [o |]; [| discriminate].
  exists u, o. repeat split; auto. now apply Z.eqb_eq.
Qed.

(** The INSERT of [POST /api/admin/stores], given what is known of the
    owner it is asked to record. *)
Lemma insert_store_keeps (b : store_body) (owner : Pg.value)
    (d : database) :
  owners_are_store_owners d ->
  (forall o, Pg.int4_in owner = inr (Some o) ->
             exists u, In u (users d) /\ u_id u = o
                       /\ u_role u = "store_owner") ->
  leads (result <- pool_query insert_store
                     [Pg.Text (sb_name b); Pg.Text (sb_email b);
                      Pg.Text (sb_address b); owner] ;;
         ret (res_status_json 201
                (Jobj [("message", Jstr "Store created successfully");
                       ("store", json_of_created_store result)])))
        d (fun _ d' => owners_are_store_owners d' /\ adds_store d d').
Proof.
  intros Hinv Howner. apply leads_bind.
  assert (H0 : owners_are_store_owners d /\ adds_store d d)
    by (split; [exact Hinv | apply adds_no_store]).
  assert (H1 : forall n,
             owners_are_store_owners (with_stores_id_seq n d)
             /\ adds_store d (with_stores_id_seq n d)).
  { intros n. split; [exact Hinv | repeat split; now left]. }
  apply leads_pool_query; [intros e; exact H0 |].
  intros t. cbn [exec insert_store]. bind_params.
  cbn [Pg.text_in Pg.rbind Pg.ok].
  destruct (Pg.int4_in owner) as [e | o] eqn:Eo; [exact H0 |].
  cbn [Pg.rbind Pg.ok]. cbv beta iota zeta.
  destruct (negb (_ && _)); [apply H1 |].
  destruct (existsb _ (stores d)); [apply H1 |].
  destruct (existsb _ (stores d)); [apply H1 |].
  destruct (match o with Some uid => negb (has_user d uid) | None => false end);
    [apply H1 |].
  cbn [fst snd]. apply leads_ret. split.
  - intros s o' Hs Ho'. cbn [stores users with_stores with_stores_id_seq] in *.
    apply in_app_or in Hs. destruct Hs as [Hs | [<- | []]].
    + exact (Hinv s o' Hs Ho').
    + cbn [s_owner_id] in Ho'. subst o. now apply Howner.
  - repeat split. right. eexists. reflexivity.
Qed.

Lemma post_store_keeps (b : store_body) (d : database) :
  owners_are_store_owners d ->
  leads (post_store b) d
        (fun _ d' => owners_are_store_owners d' /\ adds_store d d').
Proof.
  intros Hinv.
  assert (H0 : owners_are_store_owners d /\ adds_store d d)
    by (split; [exact Hinv | apply adds_no_store]).
  unfold post_store. apply leads_catch_500. cbv zeta.
  unfold select_store_id_by_email.
  apply (leads_read_then _ _ _ _ d
           (fun d' => owners_are_store_owners d' /\ adds_store d d'));
    [exact H0 |].
  intros _ existing _.
  destruct (0 <? _)%nat; [apply leads_ret; exact H0 |].
  destruct (truthy_value (sb_ownerId b)) eqn:Et.
  - unfold select_role.
    apply (leads_read_then _ _ _ _ d
             (fun d' => owners_are_store_owners d' /\ adds_store d d'));
      [exact H0 |].
    intros _ ownerResult Hrows.
    destruct ownerResult as [| role rest]; [apply leads_ret; exact H0 |].
    destruct (negb (role =? "store_owner")%string) eqn:Er;
      [apply leads_ret; exact H0 |].
    apply negb_false_iff, String.eqb_eq in Er. subst role.
    unfold value_or_null. rewrite Et.
    apply insert_store_keeps; [exact Hinv |].
    intros o Ho. bind_params_in Hrows. rewrite Ho in Hrows.
    cbn [Pg.rbind] in Hrows. injection Hrows as Hrows.
    destruct (owner_of_role d (Some o) _ _ Hrows) as (u & o' & [= <-] & Hu).
    now exists u.
  - unfold value_or_null. rewrite Et.
    apply insert_store_keeps; [exact Hinv |].
    intros o Ho. discriminate.
Qed.

End Creation.

(** X21. Accounts are only ever added, never altered, by the two routes
    that create them, and with a role of the schema: after
    [POST /api/auth/register] the users are those of before, or those and
    one more with the role [normal_user] and the email of the body; after
    [POST /api/admin/users] the same with the role of the body
    ([normal_user] when the body has none), which then is one of the three
    roles. Stores and ratings are untouched. This holds for every body and
    whether or not queries fail. *)
Theorem accounts_are_only_added :
  forall (L : Auth.Libraries) (w : Effects.world),
    (forall b,
        AdminWrites.adds_user "normal_user" (Auth.rb_email b)
          (Effects.db w)
          (Effects.db (snd (Effects.run (Auth.register b) w))))
    /\ (forall b,
           AdminWrites.adds_user
             (Js.default (AdminWrites.ub_role b) "normal_user")
             (AdminWrites.ub_email b)
             (Effects.db w)
             (Effects.db (snd (Effects.run (AdminWrites.post_user b) w)))).
Proof.
  intros L w. split; intros b.
  - apply (leads_run _ w
             (AdminWrites.adds_user "normal_user" (Auth.rb_email b)
                (Effects.db w))), register_adds.
  - apply (leads_run _ w
             (AdminWrites.adds_user
                (Js.default (AdminWrites.ub_role b) "normal_user")
                (AdminWrites.ub_email b) (Effects.db w))), post_user_adds.
Qed.

(** X22. [POST /api/admin/stores] keeps the owners of stores store
    owners: if every store that has an owner has one with the role
    [store_owner], this is still so after the request, whatever the body
    and whether or not queries fail; the request adds at most one store
    and changes no user and no rating. *)
Theorem stores_keep_store_owners :
  forall (w : Effects.world) (b : AdminWrites.store_body),
    AdminWrites.owners_are_store_owners (Effects.db w) ->
    let d' := Effects.db (snd (Effects.run (AdminWrites.post_store b) w)) in
    AdminWrites.owners_are_store_owners d'
    /\ AdminWrites.adds_store (Effects.db w) d'.
Proof.
  intros w b Hinv d'. subst d'.
  apply (leads_run _ w
           (fun d' => AdminWrites.owners_are_store_owners d'
                      /\ AdminWrites.adds_store (Effects.db w) d')).
  now apply post_store_keeps.
Qed.

(** The administrator adds a bakery owned by Mike (user 4), a store
    owner. *)
Lemma stores_keep_store_owners_witness :
  let b := {| AdminWrites.sb_name := "Corner Bakery";
              AdminWrites.sb_email := "bakery@store.com";
              AdminWrites.sb_address := "5 Baker Lane, City Center";
              AdminWrites.sb_ownerId := Js.number 4 |} in
  let d' :=
    Effects.db (snd (Effects.run (AdminWrites.post_store b) Sample.world)) in
  AdminWrites.owners_are_store_owners d'
  /\ AdminWrites.adds_store (Effects.db Sample.world) d'.
Proof.
  intros b. apply (stores_keep_store_owners Sample.world b).
  intros s o Hs Ho. simpl in Hs.
  destruct Hs as [<- | [<- | []]]; injection Ho as <-.
  - exists (nth 3 (Schema.users Sample.database)
                (Sample.a_user 0 "" "" "" "")).
    simpl. auto 10.
  - exists (nth 4 (Schema.users Sample.database)
                (Sample.a_user 0 "" "" "" "")).
    simpl. auto 10.
Defined.

(** * The order of the list endpoints *)

Section ListOrder.

Import Schema SqlBase StoresSql AdminSql.

Lemma by_int_total {A} (key : A -> Z) (a b : A) :
  by_int key a b = true \/ by_int key b a = true.
Proof.
  unfold by_int. destruct (Z.le_ge_cases (key a) (key b));
    [left | right]; now apply Z.leb_le.
Qed.

Lemma by_text_total {A} (key : A -> string) (a b : A) :
  by_text key a b = true \/ by_text key b a = true.
Proof. unfold by_text. apply String.leb_total. Qed.

Lemma ordered_rows {A} (columns : list (string * (A -> A -> bool)))
    (column direction : string) (l : list A) (le' : A -> A -> bool) :
  (forall c le, assoc c columns = Some le ->
                forall a b, le a b = true \/ le b a = true) ->
  order_clause columns column direction = inr le' ->
  exists le,
    assoc column columns = Some le
    /\ (direction = "ASC" \/ direction = "DESC")
    /\ Sorted (fun a b => if (direction =? "ASC")%string
                          then le a b = true else le b a = true)
              (Pg.order_by le' l).
Proof.
  intros Htotal. unfold order_clause.
  destruct (assoc column columns) as [le |] eqn:E; [| discriminate].
  intros H. exists le. split; [reflexivity |]. revert H.
  destruct (direction =? "ASC")%string eqn:Ea.
  - intros [= <-]. apply String.eqb_eq in Ea. split; [now left |].
    apply order_by_sorted. apply (Htotal _ _ E).
  - destruct (direction =? "DESC")%string eqn:Ed; [| discriminate].
    intros [= <-]. apply String.eqb_eq in Ed. split; [now right |].
    apply (order_by_sorted (fun a b => le b a)).
    intros a b. destruct (Htotal _ _ E a b); auto.
Qed.

Lemma store_columns_total (c : string)
    (le : store_row -> store_row -> bool) :
  assoc c store_columns = Some le ->
  forall a b, le a b = true \/ le b a = true.
Proof.
  unfold store_columns. cbn [assoc].
  repeat (destruct (c =? _)%string;
          [intros [= <-];
           first [apply by_text_total | apply by_int_total] |]).
  discriminate.
Qed.

Lemma user_columns_total (c : string) (le : user -> user -> bool) :
  assoc c user_columns = Some le ->
  forall a b, le a b = true \/ le b a = true.
Proof.
  unfold user_columns. cbn [assoc].
  repeat (destruct (c =? _)%string;
          [intros [= <-];
           first [apply by_text_total | apply by_int_total] |]).
  discriminate.
Qed.

End ListOrder.



(** * Searching *)

Section Searching.

Import Search.

Variable fold : ascii -> ascii.

Lemma like_plain (c : ascii) (p s : list ascii) :
  special c = false ->
  Pg.like_chars fold (c :: p) s
  = match s with
    | [] => false
    | d :: s' => Ascii.eqb (fold c) (fold d) && Pg.like_chars fold p s'
    end.
Proof.
  destruct c as [[] [] [] [] [] [] [] []]; intros H;
    try reflexivity; discriminate H.
Qed.

Lemma like_any (p s : list ascii) :
  Pg.like_chars fold ("%"%char :: p) s = true
  <-> exists pre s', s = (pre ++ s')%list /\ Pg.like_chars fold p s' = true.
Proof.
  cbn [Pg.like_chars]. induction s as [| d s IH].
  - split.
    + intros H. rewrite orb_false_r in H. now exists [], [].
    + intros (pre & s' & Hs & H). symmetry in Hs.
      apply app_eq_nil in Hs. destruct Hs as [-> ->].
      now rewrite H.
  - split.
    + intros H. apply orb_true_iff in H. destruct H as [H | H].
      * now exists [], (d :: s).
      * apply IH in H. destruct H as (pre & s' & -> & H).
        now exists (d :: pre), s'.
    + intros (pre & s' & Hs & H). apply orb_true_iff.
      destruct pre as [| x pre]; cbn [app] in Hs.
      * left. now subst s'.
      * right. injection Hs as _ ->. apply IH. now exists pre, s'.
Qed.

Lemma like_prefix (p rest s : list ascii) :
  (forall c, In c p -> special c = false) ->
  Pg.like_chars fold (p ++ rest) s = true
  <-> exists m s', s = (m ++ s')%list /\ map fold m = map fold p
                   /\ Pg.like_chars fold rest s' = true.
Proof.
  revert s. induction p as [| c p IH]; intros s Hp.
  - cbn [app]. split.
    + intros H. now exists [], s.
    + intros (m & s' & -> & Hm & H). destruct m; [exact H | discriminate].
  - cbn [app]. rewrite like_plain by (apply Hp; now left).
    assert (Hp' : forall c0, In c0 p -> special c0 = false)
      by (intros c0 Hc; apply Hp; now right).
    destruct s as [| d s].
    + split; [discriminate |].
      intros (m & s' & Hs & Hm & _). destruct m; [discriminate |].
      discriminate Hs.
    + split.
      * intros H. apply andb_true_iff in H. destruct H as [Hc H].
        apply (IH s Hp') in H. destruct H as (m & s' & -> & Hm & H).
        exists (d :: m), s'. repeat split; [| exact H].
        cbn [map]. apply Ascii.eqb_eq in Hc. now rewrite Hc, Hm.
      * intros (m & s' & Hs & Hm & H).
        destruct m as [| x m]; [discriminate |].
        cbn [app] in Hs. injection Hs as <- ->.
        cbn [map] in Hm. injection Hm as Hx Hm.
        apply andb_true_iff. split.
        -- rewrite Hx. apply Ascii.eqb_refl.
        -- apply (IH _ Hp'). now exists m, s'.
Qed.

Lemma like_contains (term s : list ascii) :
  (forall c, In c term -> special c = false) ->
  Pg.like_chars fold ("%"%char :: term ++ ["%"%char]) s = true
  <-> exists pre mid post,
        s = (pre ++ mid ++ post)%list /\ map fold mid = map fold term.
Proof.
  intros Hp. rewrite like_any. split.
  - intros (pre & s' & -> & H). apply (like_prefix _ _ _ Hp) in H.
    destruct H as (m & post & -> & Hm & _). now exists pre, m, post.
  - intros (pre & mid & post & -> & Hm).
    exists pre, (mid ++ post)%list. split; [reflexivity |].
    apply (like_prefix _ _ _ Hp). exists mid, post.
    repeat split; [exact Hm |].
    apply like_any. exists post, []. split; [now rewrite app_nil_r |].
    reflexivity.
Qed.

End Searching.

Section SearchingText.

Import Search.

Lemma list_of_append (a b : string) :
  list_ascii_of_string (a ++ b)
  = (list_ascii_of_string a ++ list_ascii_of_string b)%list.
Proof. induction a as [| c a IH]; [reflexivity |]. cbn. now rewrite IH. Qed.

Lemma list_of_lower (s : string) :
  list_ascii_of_string (Js.toLowerCase s)
  = map Js.lower_ascii (list_ascii_of_string s).
Proof. induction s as [| c s IH]; [reflexivity |]. cbn. now rewrite IH. Qed.

Lemma lower_eq_iff (a b : string) :
  Js.toLowerCase a = Js.toLowerCase b
  <-> map Js.lower_ascii (list_ascii_of_string a)
      = map Js.lower_ascii (list_ascii_of_string b).
Proof.
  rewrite <- !list_of_lower. split; [now intros -> |].
  intros H. apply (f_equal string_of_list_ascii) in H.
  now rewrite !string_of_list_ascii_of_string in H.
Qed.

(** [text ILIKE '%term%'] for a term without wildcards. *)
Lemma ilike_occurs (term text : string) :
  plain term ->
  Pg.ilike text ("%" ++ term ++ "%") = true <-> occurs term text.
Proof.
  intros Hp. unfold Pg.ilike.
  change (list_ascii_of_string ("%" ++ term ++ "%"))
    with ("%"%char :: list_ascii_of_string (term ++ "%")).
  rewrite list_of_append.
  change (list_ascii_of_string "%") with ["%"%char].
  rewrite (like_contains _ _ _ Hp). unfold occurs. split.
  - intros (pre & mid & post & Hs & Hm).
    exists (string_of_list_ascii pre), (string_of_list_ascii mid),
      (string_of_list_ascii post). split.
    + rewrite <- (string_of_list_ascii_of_string text), Hs.
      rewrite <- (string_of_list_ascii_of_string
                    (string_of_list_ascii pre ++ string_of_list_ascii mid
                     ++ string_of_list_ascii post)).
      apply (f_equal string_of_list_ascii).
      now rewrite !list_of_append, !list_ascii_of_string_of_list_ascii.
    + apply lower_eq_iff. now rewrite list_ascii_of_string_of_list_ascii.
  - intros (pre & mid & post & -> & Hm).
    exists (list_ascii_of_string pre), (list_ascii_of_string mid),
      (list_ascii_of_string post). split.
    + now rewrite !list_of_append.
    + now apply lower_eq_iff.
Qed.

End SearchingText.

(** X24. Searching is a substring match without regard to case: for a
    search term that is not empty and holds none of the characters [%],
    [_] and backslash, [GET /api/stores] keeps a store exactly when the
    term occurs in its name or in its address, and
    [GET /api/admin/users] keeps a user exactly when it occurs in the
    name, the email or the address. *)
Theorem search_is_substring_match :
  forall (q : Http.list_query) (term : string),
    Http.q_search q = Some term ->
    term <> "" ->
    Search.plain term ->
    (forall s : Schema.store,
        StoresSql.store_filter (Http.search_pattern q) s = true
        <-> Search.occurs term (Schema.s_name s)
            \/ Search.occurs term (Schema.s_address s))
    /\ (forall u : Schema.user,
           AdminSql.user_filter (Http.search_pattern q) None u = true
           <-> Search.occurs term (Schema.u_name u)
               \/ Search.occurs term (Schema.u_email u)
               \/ Search.occurs term (Schema.u_address u)).
Proof.
  intros q term Hq Hne Hp.
  assert (Hpat : Http.search_pattern q = Some (Some ("%" ++ term ++ "%"))).
  { unfold Http.search_pattern. rewrite Hq. cbn [Js.truthy Js.default].
    apply String.eqb_neq in Hne. now rewrite Hne. }
  split.
  - intros s. rewrite Hpat. cbn [StoresSql.store_filter].
    rewrite orb_true_iff, !(ilike_occurs _ _ Hp). reflexivity.
  - intros u. unfold AdminSql.user_filter. rewrite Hpat.
    rewrite andb_true_r, !orb_true_iff, !(ilike_occurs _ _ Hp).
    tauto.
Qed.

(** The term [market] finds City Market. *)
Lemma search_is_substring_match_witness :
  StoresSql.store_filter
    (Http.search_pattern
       {| Http.q_search := Some "market"; Http.q_role := None;
          Http.q_sortBy := None; Http.q_sortOrder := None;
          Http.q_page := None; Http.q_limit := None |})
    (Sample.a_store 2 "City Market" "market@city.com"
       "200 Market Way, Downtown, DT 44444" 5) = true.
Proof.
  apply (proj1 (search_is_substring_match
                  {| Http.q_search := Some "market"; Http.q_role := None;
                     Http.q_sortBy := None; Http.q_sortOrder := None;
                     Http.q_page := None; Http.q_limit := None |}
                  "market" eq_refl ltac:(discriminate)
                  ltac:(intros c Hc; simpl in Hc;
                        repeat (destruct Hc as [<- | Hc]; [reflexivity |]);
                        destruct Hc))).
  left. exists "City ", "Market", "". split; reflexivity.
Defined.

(** * The constraints of the schema under the rating routes *)

Section ConstraintsKept.

Import Schema Effects SqlBase RatingsSql Ratings Constraints Tables.

Lemma constrained_with (d d' : database) :
  constrained d ->
  users d' = users d -> stores d' = stores d ->
  users_id_seq d' = users_id_seq d ->
  NoDup (map r_id (ratings d')) ->
  NoDup (map (fun r => (r_user_id r, r_store_id r)) (ratings d')) ->
  (forall r, In r (ratings d') ->
             r_id r < ratings_id_seq d'
             /\ rating_check (r_rating r) = true
             /\ has_user d (r_user_id r) = true
             /\ has_store d (r_store_id r) = true) ->
  constrained d'.
Proof.
  intros [Hk Hck Hu Hs] Eu Es Eq Hpk Hun Hrows.
  destruct Hk as [K1 K2 K3 K4 K5 K6 K7 K8 K9 K10 K11].
  constructor; [constructor |..]; rewrite ?Eu, ?Es, ?Eq; try assumption.
  - intros r Hr. apply (Hrows r Hr).
  - intros r Hr. apply (Hrows r Hr).
  - intros r Hr. unfold has_user. rewrite Eu. apply (Hrows r Hr).
  - intros r Hr. unfold has_store. rewrite Es. apply (Hrows r Hr).
Qed.

Lemma constrained_seq (d : database) (n : Z) :
  constrained d -> ratings_id_seq d <= n ->
  constrained (with_ratings_id_seq n d).
Proof.
  intros Hc Hn. apply (constrained_with d); try reflexivity;
    try assumption; cbn [ratings with_ratings_id_seq ratings_id_seq].
  - apply (ratings_pk _ (keys _ Hc)).
  - apply (ratings_unique _ (keys _ Hc)).
  - intros r Hr. repeat split.
    + pose proof (ratings_seq_fresh _ (keys _ Hc) r Hr). lia.
    + now apply (ratings_checked _ Hc).
    + now apply (ratings_user_fk _ Hc).
    + now apply (ratings_store_fk _ Hc).
Qed.

Lemma update_where_constrained (sel : rating -> bool) (value : option Z)
    (c : option string) (t : Z) (d d' : database) (x : unit) :
  constrained d ->
  update_ratings_where sel value c t d = inr (x, d') ->
  constrained d'.
Proof.
  intros Hc. unfold update_ratings_where.
  destruct (existsb sel (ratings d)); [| now intros [= _ <-]].
  destruct value as [v |]; [| discriminate].
  destruct (rating_check v) eqn:Ev; [| discriminate].
  intros [= _ <-].
  assert (Hid : forall (A : Type) (f : rating -> A),
             (forall r, f (set_rating v c t r) = f r) ->
             map f (map (fun r => if sel r then set_rating v c t r else r)
                        (ratings d))
             = map f (ratings d)).
  { intros A f Hf. rewrite map_map. apply map_ext. intros r.
    destruct (sel r); [apply Hf | reflexivity]. }
  apply (constrained_with d); try reflexivity; try assumption;
    cbn [ratings with_ratings ratings_id_seq].
  - rewrite Hid by reflexivity. apply (ratings_pk _ (keys _ Hc)).
  - rewrite Hid by reflexivity. apply (ratings_unique _ (keys _ Hc)).
  - intros r' Hr'. apply in_map_iff in Hr'. destruct Hr' as (r & <- & Hr).
    pose proof (ratings_seq_fresh _ (keys _ Hc) r Hr).
    pose proof (ratings_checked _ Hc r Hr).
    pose proof (ratings_user_fk _ Hc r Hr).
    pose proof (ratings_store_fk _ Hc r Hr).
    destruct (sel r); cbn [set_rating r_id r_rating r_user_id r_store_id];
      auto.
Qed.

(** A key that is unique among the ratings is unique among those a
    DELETE leaves. *)
Lemma kept_keys_distinct {K : Type} (key : rating -> K)
    (keep : rating -> bool) (rs : list rating) :
  NoDup (map key rs) -> NoDup (map key (filter keep rs)).
Proof.
  intros Hnd. induction rs as [| r rs IH]; [constructor |].
  cbn [map] in Hnd. apply NoDup_cons_iff in Hnd.
  destruct Hnd as [Hfresh Hnd]. cbn [filter].
  destruct (keep r); [| now apply IH].
  cbn [map]. apply NoDup_cons; [| now apply IH].
  intros Hin. apply Hfresh. apply in_map_iff in Hin.
  destruct Hin as (y & Hy & Hin). apply filter_In in Hin.
  rewrite <- Hy. apply in_map. apply Hin.
Qed.

Lemma delete_constrained (p : rating -> bool) (d : database) :
  constrained d -> constrained (with_ratings (filter p (ratings d)) d).
Proof.
  intros Hc. apply (constrained_with d); try reflexivity; try assumption;
    cbn [ratings with_ratings ratings_id_seq].
  - apply kept_keys_distinct, (ratings_pk _ (keys _ Hc)).
  - apply kept_keys_distinct, (ratings_unique _ (keys _ Hc)).
  - intros r Hr. apply filter_In in Hr. destruct Hr as [Hr _].
    repeat split.
    + now apply (ratings_seq_fresh _ (keys _ Hc)).
    + now apply (ratings_checked _ Hc).
    + now apply (ratings_user_fk _ Hc).
    + now apply (ratings_store_fk _ Hc).
Qed.

Lemma nodup_map_snoc {A B} (f : A -> B) (l : list A) (x : A) :
  NoDup (map f l) -> ~ In (f x) (map f l) -> NoDup (map f (l ++ [x])).
Proof.
  intros Hnd Hx. rewrite map_app. cbn [map].
  apply NoDup_app; [exact Hnd | repeat constructor; intros [] |].
  intros y Hy [<- | []]. now apply Hx.
Qed.

Lemma insert_constrained (vs : list Pg.value) (t : Z) (d : database) :
  constrained d -> constrained (snd (exec insert_rating vs t d)).
Proof.
  intros Hc. cbn [exec insert_rating].
  destruct (uid <~ int_param 1 vs ;; _) as [e | [[[uid sid] value] c]];
    [exact Hc |].
  cbv beta iota zeta.
  assert (H1 : constrained (with_ratings_id_seq (ratings_id_seq d + 1) d))
    by (apply constrained_seq; [exact Hc | lia]).
  destruct uid as [u |], sid as [s0 |], value as [v |];
    cbn [snd]; try exact H1.
  destruct (negb (rating_check v)) eqn:Ev; [exact H1 |].
  destruct (existsb (fun r => r_id r =? ratings_id_seq d) (ratings d));
    [exact H1 |].
  destruct (existsb (same_pair u s0) (ratings d)) eqn:Ep; [exact H1 |].
  destruct (negb (has_user d u)) eqn:Eu; [exact H1 |].
  destruct (negb (has_store d s0)) eqn:Es; [exact H1 |].
  cbn [snd]. apply negb_false_iff in Ev, Eu, Es.
  apply (constrained_with d); try reflexivity; try assumption;
    cbn [ratings with_ratings with_ratings_id_seq ratings_id_seq].
  - apply nodup_map_snoc; [apply (ratings_pk _ (keys _ Hc)) |].
    cbn [r_id]. intros Hin. apply in_map_iff in Hin.
    destruct Hin as (r & Hid & Hr).
    pose proof (ratings_seq_fresh _ (keys _ Hc) r Hr). lia.
  - apply nodup_map_snoc; [apply (ratings_unique _ (keys _ Hc)) |].
    cbn [r_user_id r_store_id]. intros Hin. apply in_map_iff in Hin.
    destruct Hin as (r & Hid & Hr). injection Hid as Hu Hs.
    assert (existsb (same_pair u s0) (ratings d) = true).
    { apply existsb_exists. exists r. split; [exact Hr |].
      unfold same_pair. now rewrite Hu, Hs, !Z.eqb_refl. }
    congruence.
  - intros r Hr. apply in_app_or in Hr. destruct Hr as [Hr | [<- | []]].
    + repeat split.
      * pose proof (ratings_seq_fresh _ (keys _ Hc) r Hr). lia.
      * now apply (ratings_checked _ Hc).
      * now apply (ratings_user_fk _ Hc).
      * now apply (ratings_store_fk _ Hc).
    + cbn [r_id r_rating r_user_id r_store_id]. repeat split; auto. lia.
Qed.

Ltac after_write H :=
  unfold select_store_stats;
  apply leads_read_then; [exact H |];
  intros _ ? _; apply leads_ret; exact H.

Lemma post_rating_constrained (storeId : string) (b : rating_body)
    (userId : Z) (d : database) :
  constrained d ->
  leads (post_rating storeId b userId) d (fun _ d' => constrained d').
Proof.
  intros Hc. unfold post_rating. apply leads_catch_500.
  unfold select_store_id. apply leads_read_then; [exact Hc |].
  intros _ storeResult _.
  destruct (List.length storeResult =? 0)%nat; [now apply leads_ret |].
  unfold select_rating_of_user_for_store.
  apply leads_read_then; [exact Hc |]. intros _ existing _.
  destruct (0 <? List.length existing)%nat.
  - apply leads_bind. unfold update_rating_of_user_for_store.
    apply leads_writing; [intros e; exact Hc |].
    intros t x d' Hw.
    destruct (int_param 1 _) as [e | value]; [discriminate |].
    cbn [Pg.rbind] in Hw.
    destruct (text_param 2 _) as [e | c]; [discriminate |].
    cbn [Pg.rbind] in Hw.
    destruct (int_param 3 _) as [e | uid]; [discriminate |].
    cbn [Pg.rbind] in Hw.
    destruct (int_param 4 _) as [e | sid]; [discriminate |].
    cbn [Pg.rbind] in Hw.
    pose proof (update_where_constrained _ _ _ _ _ _ _ Hc Hw) as Hc'.
    after_write Hc'.
  - apply leads_bind. apply leads_pool_query; [intros e; exact Hc |].
    intros t.
    pose proof (insert_constrained
                  [Pg.Int userId; Pg.Text storeId; Pg.of_js (b_rating b);
                   Pg.of_opt_text (Js.or_null (b_comment b))] t d Hc)
      as Hc'.
    destruct (exec insert_rating _ t d) as [[e | x] d'];
      cbn [fst snd] in *; [exact Hc' |].
    after_write Hc'.
Qed.

Lemma put_rating_constrained (ratingId : string) (b : rating_body)
    (userId : Z) (d : database) :
  constrained d ->
  leads (put_rating ratingId b userId) d (fun _ d' => constrained d').
Proof.
  intros Hc. unfold put_rating. apply leads_catch_500.
  unfold select_rating_owned. apply leads_read_then; [exact Hc |].
  intros _ rows _.
  destruct rows as [| [rid storeId] rest]; [now apply leads_ret |].
  apply leads_bind. unfold update_rating_by_id.
  apply leads_writing; [intros e; exact Hc |].
  intros t x d' Hw.
  destruct (int_param 1 _) as [e | value]; [discriminate |].
  cbn [Pg.rbind] in Hw.
  destruct (text_param 2 _) as [e | c]; [discriminate |].
  cbn [Pg.rbind] in Hw.
  destruct (int_param 3 _) as [e | id]; [discriminate |].
  cbn [Pg.rbind] in Hw.
  pose proof (update_where_constrained _ _ _ _ _ _ _ Hc Hw) as Hc'.
  after_write Hc'.
Qed.

Lemma delete_rating_constrained (ratingId : string) (userId : Z)
    (d : database) :
  constrained d ->
  leads (delete_rating ratingId userId) d (fun _ d' => constrained d').
Proof.
  intros Hc. unfold delete_rating. apply leads_catch_500.
  unfold select_rating_owned. apply leads_read_then; [exact Hc |].
  intros _ rows _.
  destruct rows as [| [rid storeId] rest]; [now apply leads_ret |].
  apply leads_bind. unfold delete_rating_by_id.
  apply leads_writing; [intros e; exact Hc |].
  intros t x d' Hw.
  destruct (int_param 1 _) as [e | id]; [discriminate |].
  cbn [Pg.rbind] in Hw. injection Hw as _ <-.
  pose proof (delete_constrained
                (fun r => negb (Pg.eq_int (r_id r) id)) d Hc) as Hc'.
  after_write Hc'.
Qed.

(** X25. The rating routes keep the database within its schema: if the
    keys, the CHECK on [rating] and the foreign keys of [schema.sql] hold
    before a submission, an update or a deletion of a rating, they hold
    after it, whatever the request and whether or not queries fail. *)
Theorem rating_writes_keep_the_constraints :
  forall (w : world) (userId : Z),
    constrained (db w) ->
    (forall storeId b,
        constrained (db (snd (run (post_rating storeId b userId) w))))
    /\ (forall ratingId b,
           constrained (db (snd (run (put_rating ratingId b userId) w))))
    /\ (forall ratingId,
           constrained (db (snd (run (delete_rating ratingId userId) w)))).
Proof.
  intros w userId Hc. split; [| split]; intros.
  - now apply (leads_run _ w constrained), post_rating_constrained.
  - now apply (leads_run _ w constrained), put_rating_constrained.
  - now apply (leads_run _ w constrained), delete_rating_constrained.
Qed.

(** Jane (user 3) rates City Market (store 2) in the sample data. *)
Lemma rating_writes_keep_the_constraints_witness :
  constrained
    (db (snd (run (post_rating "2"
                     {| b_rating := Js.number 4; b_comment := Some "Good" |}
                     3) Sample.world))).
Proof.
  apply (rating_writes_keep_the_constraints Sample.world 3).
  exact sample_constrained.
Defined.

End ConstraintsKept.

(** * The recommendations *)

Section RecommendationsFacts.

Import Schema Effects SqlBase RatingsSql StoresSql Recommendations Tables.

(** A handler judged by the response it sends. *)
Lemma leads_handler (label : string) (body : M response) (w : world)
    (Q : response -> Prop) :
  leads body (db w)
        (fun r _ => match r with
                    | inl _ => Q internal_server_error
                    | inr res => Q res
                    end) ->
  Q (fst (run (catch_500 label body) w)).
Proof.
  intros H. specialize (H w eq_refl).
  unfold run, catch_500, try_catch.
  destruct (body w) as [[e | res] w1]; exact H.
Qed.

Lemma group_places (uid : option Z) (d : database)
    (g : place * list (store * option rating)) :
  In g (unrated_groups uid d) ->
  exists s, In s (stores d) /\ fst g = place_of s /\ unrated uid d s = true.
Proof.
  unfold unrated_groups, group_by. intros H.
  apply in_map_iff in H. destruct H as (k & <- & Hk).
  apply distinct_by_incl in Hk. apply in_map_iff in Hk.
  destruct Hk as (p & <- & Hp). apply filter_In in Hp.
  destruct Hp as [Hp Hun]. unfold left_join_ratings in Hp.
  apply in_flat_map in Hp. destruct Hp as (s & Hs & Hp).
  apply joined_fst in Hp. exists s. cbn [fst]. rewrite Hp in *. auto.
Qed.

Lemma unrated_fresh (userId : Z) (uid : option Z) (d : database)
    (s : store) :
  Pg.int4_in (Pg.Int userId) = inr uid ->
  In s (stores d) -> unrated uid d s = true ->
  fresh_for userId d (s_id s).
Proof.
  intros Hu Hs Hun. split; [now exists s |].
  intros r Hr Hmine Hsame.
  destruct (integer_in_int_some _ _ _ _ Hu) as (u & ->).
  apply integer_in_int_inv in Hu. subst u.
  unfold unrated in Hun. apply negb_true_iff in Hun.
  assert (Hex : existsb (Z.eqb (s_id s)) (rated_by (Some userId) d) = true).
  { apply existsb_exists. exists (r_store_id r). split.
    - unfold rated_by, Pg.distinct. apply nodup_In. apply in_map.
      apply filter_In. split; [exact Hr |]. now apply Z.eqb_eq.
    - now apply Z.eqb_eq. }
  congruence.
Qed.

Lemma limited (A : Type) (l : option Z) (rows out : list A) (n : Z) :
  Pg.int8_in (Pg.Int n) = inr l ->
  Pg.limit_offset l None rows = inr out ->
  incl out rows /\ Z.of_nat (List.length out) <= n.
Proof.
  intros Hl. destruct (integer_in_int_some _ _ _ _ Hl) as (z & ->).
  apply integer_in_int_inv in Hl. subst z.
  unfold Pg.limit_offset. cbn [Pg.coalesce].
  destruct (n <? 0) eqn:En; [discriminate |].
  cbn [Z.ltb Z.compare Z.to_nat skipn]. intros [= <-].
  apply Z.ltb_ge in En. split; [apply firstn_incl |].
  rewrite length_firstn. lia.
Qed.

End RecommendationsFacts.

(** X26. [GET /api/ratings/user/recommendations] never proposes a store
    the caller has rated: whenever the answer is not the internal error,
    every recommended and every trending entry is a store of the database
    that has no rating by the caller, the recommendations are at most
    [limit] (10 when the query string has none), and the trending stores
    are at most 5, each with a rating of the last seven days. *)
Theorem recommendations_are_unrated :
  forall (w : Effects.world) (q : Http.list_query) (userId : Z),
    let res :=
      fst (Effects.run (Recommendations.get_user_recommendations q userId)
             w) in
    res = internal_server_error
    \/ exists (recs : list Recommendations.recommendation)
              (trends : list Recommendations.trending) (prefs : json),
         res = res_json
                 (Jobj [("recommendations",
                         Jarr (map Recommendations.json_of_recommendation
                                   recs));
                        ("trendingStores",
                         Jarr (map Recommendations.json_of_trending trends));
                        ("userPreferences", prefs)])
         /\ Z.of_nat (List.length recs) <= Js.default (Http.q_limit q) 10
         /\ (List.length trends <= 5)%nat
         /\ (forall r, In r recs ->
               Recommendations.fresh_for userId (Effects.db w)
                 (Recommendations.rec_id r))
         /\ (forall r, In r trends ->
               Recommendations.fresh_for userId (Effects.db w)
                 (Recommendations.trend_id r)
               /\ 0 < Recommendations.recent_ratings r).
Proof.
  intros w q userId res. subst res.
  unfold Recommendations.get_user_recommendations.
  apply (leads_handler _ _ w
           (fun res =>
              res = internal_server_error
              \/ exists recs trends prefs,
                   res = res_json
                           (Jobj [("recommendations",
                                   Jarr (map
                                           Recommendations.json_of_recommendation
                                           recs));
                                  ("trendingStores",
                                   Jarr (map Recommendations.json_of_trending
                                             trends));
                                  ("userPreferences", prefs)])
                   /\ Z.of_nat (List.length recs)
                      <= Js.default (Http.q_limit q) 10
                   /\ (List.length trends <= 5)%nat
                   /\ (forall r, In r recs ->
                         Recommendations.fresh_for userId (Effects.db w)
                           (Recommendations.rec_id r))
                   /\ (forall r, In r trends ->
                         Recommendations.fresh_for userId (Effects.db w)
                           (Recommendations.trend_id r)
                         /\ 0 < Recommendations.recent_ratings r))).
  cbv zeta. apply leads_bind.
  unfold Recommendations.select_user_preferences.
  apply leads_reading; [intros e; now left |]. intros t1 prefs _.
  apply leads_bind. unfold Recommendations.select_recommendations.
  apply leads_reading; [intros e; now left |]. intros t2 recs Hrecs.
  apply leads_bind. unfold Recommendations.select_trending.
  apply leads_reading; [intros e; now left |]. intros t3 trends Htrends.
  apply leads_ret. right. exists recs, trends. eexists.
  split; [reflexivity |].
  unfold Recommendations.numeric_param in Hrecs. bind_params_in Hrecs.
  cbn [Recommendations.numeric_in Pg.rbind Pg.ok] in Hrecs.
  destruct (Pg.int4_in (Pg.Int userId)) as [e | uid] eqn:Eu;
    [discriminate |]. cbn [Pg.rbind] in Hrecs.
  destruct (Pg.int8_in (Pg.Int (Js.default (Http.q_limit q) 10)))
    as [e | l] eqn:El; [discriminate |]. cbn [Pg.rbind] in Hrecs.
  destruct (limited _ _ _ _ _ El Hrecs) as [Hincl Hlen].
  set (cut := @firstn Recommendations.trending 5) in Htrends.
  bind_params_in Htrends. rewrite Eu in Htrends.
  cbn [Pg.rbind] in Htrends. injection Htrends as <-. subst cut.
  split; [exact Hlen |]. split; [apply firstn_le_length |]. split.
  - intros r Hr. apply Hincl in Hr.
    apply (Permutation_in _ (order_by_perm _ _)) in Hr.
    apply in_map_iff in Hr. destruct Hr as (g & <- & Hg).
    destruct (group_places _ _ _ Hg) as (s & Hs & Hkey & Hun).
    unfold Recommendations.recommend. rewrite Hkey.
    cbn [Recommendations.place_of Recommendations.rec_id].
    exact (unrated_fresh _ _ _ _ Eu Hs Hun).
  - intros r Hr. apply firstn_incl in Hr.
    apply (Permutation_in _ (order_by_perm _ _)) in Hr.
    apply filter_In in Hr. destruct Hr as [Hr Hrecent].
    apply Z.ltb_lt in Hrecent. split; [| exact Hrecent].
    apply in_map_iff in Hr. destruct Hr as (g & <- & Hg).
    destruct (group_places _ _ _ Hg) as (s & Hs & Hkey & Hun).
    unfold Recommendations.trend. rewrite Hkey.
    cbn [Recommendations.place_of Recommendations.trend_id].
    exact (unrated_fresh _ _ _ _ Eu Hs Hun).
Qed.

(** * A failure after the write *)

Section LateFailure.

Import Schema Effects SqlBase RatingsSql Ratings.

Lemma pool_query_next {R} (st : statement R) (vs : list Pg.value)
    (w : world) (fs : list bool) (r : R) (d' : database) :
  faults w = false :: fs ->
  List.length vs = placeholders st ->
  exec st vs (now w) (db w) = (inr r, d') ->
  pool_query st vs w = (inr r, with_db d' (with_faults fs w)).
Proof.
  intros Hf Hn He. unfold pool_query. rewrite Hf, Hn, Nat.eqb_refl, He.
  reflexivity.
Qed.

Lemma pool_query_fault {R} (st : statement R) (vs : list Pg.value)
    (w : world) (fs : list bool) :
  faults w = true :: fs ->
  pool_query st vs w
  = (inl (DatabaseError "connection failure"),
     count_failure (with_faults fs w)).
Proof. intros Hf. unfold pool_query. now rewrite Hf. Qed.

Ltac rating_stmt :=
  cbn [exec placeholders reading writing select_store_id
         select_rating_of_user_for_store update_rating_of_user_for_store
         select_store_stats insert_rating];
  bind_params; cbn [Pg.text_in].

(** The handler with its last query cut off, after an UPDATE or an
    INSERT that went through. *)
Lemma post_rating_then_fault (w : world) (storeId : string)
    (sid uid z : Z) (b : rating_body) (rest : list bool) :
  faults w = false :: false :: false :: true :: rest ->
  NoDup (map (fun r => (r_user_id r, r_store_id r)) (ratings (db w))) ->
  (forall r, In r (ratings (db w)) -> r_id r < ratings_id_seq (db w)) ->
  Pg.int4_in (Pg.Text storeId) = Pg.ok (Some sid) ->
  Pg.int4_in (Pg.Int uid) = Pg.ok (Some uid) ->
  Pg.int4_in (Pg.of_js (b_rating b)) = Pg.ok (Some z) ->
  rating_check z = true ->
  has_store (db w) sid = true ->
  has_user (db w) uid = true ->
  exists w1 row,
    run (post_rating storeId b uid) w = (internal_server_error, w1)
    /\ filter (same_pair uid sid) (ratings (db w1)) = [row]
    /\ r_rating row = z
    /\ r_comment row = Js.or_null (b_comment b)
    /\ r_updated_at row = now w.
Proof.
  intros Hf Hu Hfresh Hsid Huid Hz Hck Hst Hus.
  unfold run, post_rating, catch_500, try_catch, bind.
  erewrite pool_query_next; [| exact Hf | reflexivity |].
  2:{ rating_stmt. rewrite Hsid. cbn [Pg.rbind Pg.ok Pg.eq_int].
      reflexivity. }
  destruct (existsb_length_filter _ s_id _ Hst) as [-> _].
  erewrite pool_query_next; [| reflexivity | reflexivity |].
  2:{ rating_stmt. rewrite Huid, Hsid. cbn [Pg.rbind Pg.ok]. reflexivity. }
  world_now.
  change (pair_matches (Some uid) (Some sid)) with (same_pair uid sid).
  destruct (existsb (same_pair uid sid) (ratings (db w))) eqn:Hex.
  - destruct (existsb_length_filter _
                (fun r => (r_id r, r_rating r, r_comment r)) _ Hex)
      as [_ ->].
    destruct (unique_pair_filter uid sid _ Hu) as [Hnil | (r0 & Hr0)].
    { rewrite filter_existsb, Hnil in Hex. discriminate. }
    erewrite pool_query_next; [| reflexivity | reflexivity |].
    2:{ rating_stmt. world_now. rewrite Hz, text_in_comment, Huid, Hsid.
        cbn [Pg.rbind Pg.ok]. unfold update_ratings_where.
        change (pair_matches (Some uid) (Some sid)) with (same_pair uid sid).
        rewrite Hex, Hck. cbn [Pg.ok]. reflexivity. }
    erewrite pool_query_fault; [| reflexivity].
    eexists _, _. split; [reflexivity |].
    cbn [db with_db with_faults count_failure log_line ratings
           with_ratings].
    rewrite filter_updated, Hr0. repeat split.
  - rewrite (not_existsb_length_filter _
               (fun r => (r_id r, r_rating r, r_comment r)) _ Hex).
    assert (Hnil : filter (same_pair uid sid) (ratings (db w)) = []).
    { rewrite filter_existsb in Hex.
      destruct (filter (same_pair uid sid) (ratings (db w)));
        [reflexivity | discriminate]. }
    erewrite pool_query_next; [| reflexivity | reflexivity |].
    2:{ rating_stmt. world_now. rewrite Huid, Hsid, Hz, text_in_comment.
        cbn [Pg.rbind Pg.ok].
        rewrite Hck, (fresh_id_absent _ Hfresh), Hex, Hus, Hst.
        cbn [negb Pg.ok]. reflexivity. }
    erewrite pool_query_fault; [| reflexivity].
    eexists _, _. split; [reflexivity |].
    cbn [db with_db with_faults count_failure log_line ratings
           with_ratings with_ratings_id_seq].
    rewrite filter_app, Hnil. cbn [filter app].
    unfold same_pair at 1. cbn [r_user_id r_store_id].
    rewrite !Z.eqb_refl. cbn [andb]. repeat split.
Qed.



End LateFailure.

(** * What the creation of a store has done *)

Section StoreCreation.

Import Schema Effects SqlBase UsersSql AdminWrites Tables.

(** A handler judged by its response and the tables it leaves. *)
Lemma leads_answer (label : string) (body : M response) (w : world)
    (Q : response -> database -> Prop) :
  leads body (db w)
        (fun r d' => match r with
                     | inl _ => Q internal_server_error d'
                     | inr res => Q res d'
                     end) ->
  Q (fst (run (catch_500 label body) w))
    (db (snd (run (catch_500 label body) w))).
Proof.
  intros H. specialize (H w eq_refl).
  unfold run, catch_500, try_catch.
  destruct (body w) as [[e | res] w1]; exact H.
Qed.

Lemma not_created (b : store_body) (d d' : database) (res : response) :
  status res <> 201 -> stores d' = stores d -> created b d res d'.
Proof. intros Hs Hd. split; [intros H; contradiction | now intros _]. Qed.

Lemma insert_store_created (b : store_body) (owner : Pg.value)
    (d : database) :
  leads (result <- pool_query insert_store
                     [Pg.Text (sb_name b); Pg.Text (sb_email b);
                      Pg.Text (sb_address b); owner] ;;
         ret (res_status_json 201
                (Jobj [("message", Jstr "Store created successfully");
                       ("store", json_of_created_store result)])))
        d (fun r d' => match r with
                       | inl _ => created b d internal_server_error d'
                       | inr res => created b d res d'
                       end).
Proof.
  assert (H0 : forall d', stores d' = stores d ->
                          created b d internal_server_error d').
  { intros d' Hd. apply not_created; [discriminate | exact Hd]. }
  apply leads_bind. apply leads_pool_query; [intros e; now apply H0 |].
  intros t. cbn [exec insert_store]. bind_params.
  cbn [Pg.text_in Pg.rbind Pg.ok].
  destruct (Pg.int4_in owner) as [e | o]; [now apply H0 |].
  cbn [Pg.rbind Pg.ok]. cbv beta iota zeta.
  destruct (negb (_ && _)); [now apply H0 |].
  destruct (existsb _ (stores d)); [now apply H0 |].
  destruct (existsb (fun s => (s_email s =? sb_email b)%string) (stores d))
    eqn:Ee; [now apply H0 |].
  destruct (match o with Some uid => negb (has_user d uid) | None => false end);
    [now apply H0 |].
  cbn [fst snd]. apply leads_ret. split; [| intros H; now destruct H].
  intros _. eexists. split; [reflexivity |].
  repeat split.
  intros x Hx Hmail.
  assert (existsb (fun s => (s_email s =? sb_email b)%string) (stores d)
          = true).
  { apply existsb_exists. exists x. split; [exact Hx |].
    now apply String.eqb_eq. }
  congruence.
Qed.

End StoreCreation.

(** X28. The answer of [POST /api/admin/stores] tells what happened: with
    201 the store of the body has become the last row of [stores], under
    the next id of the sequence and with an email that no store had, and
    the response shows it; with any other answer [stores] is as it was.
    This holds for every body and whether or not queries fail. *)
Theorem store_creation_outcome :
  forall (w : Effects.world) (b : AdminWrites.store_body),
    AdminWrites.created b (Effects.db w)
      (fst (Effects.run (AdminWrites.post_store b) w))
      (Effects.db (snd (Effects.run (AdminWrites.post_store b) w))).
Proof.
  intros w b. unfold AdminWrites.post_store. cbv zeta.
  apply (leads_answer _ _ w (AdminWrites.created b (Effects.db w))).
  assert (H0 : forall res, status res <> 201 ->
                           AdminWrites.created b (Effects.db w) res
                             (Effects.db w)).
  { intros res Hs. now apply not_created. }
  apply leads_bind. unfold AdminWrites.select_store_id_by_email.
  apply leads_reading; [intros e; apply H0; discriminate |].
  intros _ existing _.
  destruct (0 <? _)%nat; [apply leads_ret, H0; discriminate |].
  destruct (AdminWrites.truthy_value (AdminWrites.sb_ownerId b)).
  - apply leads_bind. unfold UsersSql.select_role.
    apply leads_reading; [intros e; apply H0; discriminate |].
    intros _ ownerResult _.
    destruct ownerResult as [| role rest];
      [apply leads_ret, H0; discriminate |].
    destruct (negb _); [apply leads_ret, H0; discriminate |].
    apply insert_store_created.
  - apply insert_store_created.
Qed.

(** * After a deletion *)

Section AfterDeletion.

Import Schema Effects SqlBase RatingsSql Ratings Constraints.

Lemma same_pair_same_row (l : list rating) (x y : rating) :
  NoDup (map (fun r => (r_user_id r, r_store_id r)) l) ->
  In x l -> In y l ->
  r_user_id x = r_user_id y -> r_store_id x = r_store_id y -> x = y.
Proof.
  induction l as [| a l IH]; intros Hnd Hx Hy Hu Hs; [destruct Hx |].
  cbn [map] in Hnd. apply NoDup_cons_iff in Hnd.
  destruct Hnd as [Hfresh Hnd].
  destruct Hx as [-> | Hx], Hy as [-> | Hy]; try reflexivity.
  - exfalso. apply Hfresh. rewrite Hu, Hs.
    now apply (in_map (fun r => (r_user_id r, r_store_id r))).
  - exfalso. apply Hfresh. rewrite <- Hu, <- Hs.
    now apply (in_map (fun r => (r_user_id r, r_store_id r))).
  - now apply IH.
Qed.

(** What a deletion by the owner leaves. *)
Lemma delete_rating_runs (w : world) (ratingId : string) (r0 : rating) :
  faults w = [] ->
  constrained (db w) ->
  In r0 (ratings (db w)) ->
  Pg.int4_in (Pg.Text ratingId) = Pg.ok (Some (r_id r0)) ->
  exists res w1,
    run (delete_rating ratingId (r_user_id r0)) w = (res, w1)
    /\ status res = 200
    /\ faults w1 = []
    /\ db w1
       = with_ratings
           (filter (fun r => negb (r_id r =? r_id r0)) (ratings (db w)))
           (db w).
Proof.
  intros Hf Hc Hin Hid.
  pose proof (ratings_pk _ (keys _ Hc)) as Hpk.
  unfold run, delete_rating, catch_500, try_catch, bind.
  erewrite pool_query_ok; [| exact Hf | reflexivity |].
  2:{ cbn [exec select_rating_owned reading]. bind_params.
      rewrite Hid, (rating_user_int4 _ _ Hc Hin). cbn [Pg.rbind Pg.ok].
      rewrite (owned_filter _ _ Hpk Hin). reflexivity. }
  cbn [map]. cbv iota. world_now.
  erewrite pool_query_ok; [| reflexivity | reflexivity |].
  2:{ cbn [exec delete_rating_by_id writing]. bind_params. world_now.
      rewrite Hid. cbn [Pg.rbind Pg.ok Pg.eq_int]. reflexivity. }
  erewrite pool_query_ok; [| reflexivity | reflexivity |].
  2:{ cbn [exec select_store_stats reading]. bind_params.
      rewrite (rating_store_int4 _ _ Hc Hin).
      cbn [Pg.rbind Pg.ok Pg.eq_int]. reflexivity. }
  eexists _, _. split; [reflexivity |]. repeat split.
Qed.

(** X29. A deleted rating is gone for its owner: after a deletion by the
    owner, [GET /api/ratings/user/:storeId] for the store of the rating
    answers with [rating: null], and a second deletion of the same id
    answers 404 [Rating not found or unauthorized]. *)
Theorem deleted_rating_is_gone :
  forall (w : world) (ratingId storeId : string) (r0 : rating),
    faults w = [] ->
    constrained (db w) ->
    In r0 (ratings (db w)) ->
    Pg.int4_in (Pg.Text ratingId) = Pg.ok (Some (r_id r0)) ->
    Pg.parse_integer storeId = Some (r_store_id r0) ->
    let w1 := snd (run (delete_rating ratingId (r_user_id r0)) w) in
    fst (run (get_user_store_rating storeId (r_user_id r0)) w1)
    = res_json (Jobj [("rating", Jnull)])
    /\ fst (run (delete_rating ratingId (r_user_id r0)) w1)
       = res_status_json 404 (message "Rating not found or unauthorized").
Proof.
  intros w ratingId storeId r0 Hf Hc Hin Hid Hp.
  destruct (delete_rating_runs w ratingId r0 Hf Hc Hin Hid)
    as (res & w1 & Hrun & _ & Hf1 & Hd1).
  cbv zeta. rewrite Hrun. cbn [snd].
  pose proof (rating_user_int4 _ _ Hc Hin) as Huid.
  assert (Hsid : Pg.int4_in (Pg.Text storeId) = Pg.ok (Some (r_store_id r0))).
  { destruct (has_store_in _ _ (ratings_store_fk _ Hc r0 Hin))
      as (s & Hs & Heq).
    apply int4_in_text; [exact Hp |]. rewrite <- Heq.
    now apply (stores_int4 _ (keys _ Hc)). }
  split.
  - unfold run, get_user_store_rating, catch_500, try_catch, bind.
    erewrite pool_query_ok; [| exact Hf1 | reflexivity |].
    2:{ cbn [exec select_own_rating reading]. bind_params.
        rewrite Huid, Hsid. cbn [Pg.rbind Pg.ok].
        rewrite Hd1. cbn [ratings with_ratings].
        rewrite filter_nil; [reflexivity |].
        intros r Hr. apply filter_In in Hr. destruct Hr as [Hr Hne].
        apply not_true_is_false. intros Hpair.
        unfold pair_matches in Hpair. cbn [Pg.eq_int] in Hpair.
        apply andb_true_iff in Hpair. destruct Hpair as [Hu Hs].
        apply Z.eqb_eq in Hu, Hs.
        rewrite (same_pair_same_row _ r r0
                   (ratings_unique _ (keys _ Hc)) Hr Hin Hu Hs) in Hne.
        rewrite Z.eqb_refl in Hne. discriminate. }
    reflexivity.
  - unfold run, delete_rating, catch_500, try_catch, bind.
    erewrite pool_query_ok; [| exact Hf1 | reflexivity |].
    2:{ cbn [exec select_rating_owned reading]. bind_params.
        rewrite Hid, Huid. cbn [Pg.rbind Pg.ok].
        rewrite Hd1. cbn [ratings with_ratings].
        rewrite filter_nil; [reflexivity |].
        intros r Hr. apply filter_In in Hr. destruct Hr as [_ Hne].
        unfold owned_by. cbn [Pg.eq_int].
        apply negb_true_iff in Hne. now rewrite Hne. }
    reflexivity.
Qed.

(** John (user 2) withdraws his rating 1 of the grocery store (store 1),
    looks for it, and withdraws it again. *)
Lemma deleted_rating_is_gone_witness :
  let w1 := snd (run (delete_rating "1" 2) Sample.world) in
  fst (run (get_user_store_rating "1" 2) w1)
  = res_json (Jobj [("rating", Jnull)])
  /\ fst (run (delete_rating "1" 2) w1)
     = res_status_json 404 (message "Rating not found or unauthorized").
Proof.
  apply (deleted_rating_is_gone Sample.world "1" "1"
           (Sample.a_rating 1 2 1 5 "Great products and service!"));
    try reflexivity; [exact sample_constrained | simpl; auto].
Defined.

End AfterDeletion.

(** * An account made by the administrator *)

Section AdminAccount.

Import Schema Effects SqlBase AdminWrites.

Context {L : Auth.Libraries} {LL : Auth.LibrariesLaws L}.

Lemma allowed_role (role : string) :
  Js.includes ["normal_user"; "store_owner"; "system_admin"] role = true ->
  role_check role = true /\ Auth.fits 20 role = true.
Proof.
  intros H. unfold Js.includes in H. apply existsb_exists in H.
  destruct H as (x & Hx & Heq). apply String.eqb_eq in Heq. subst x.
  cbn [In] in Hx.
  destruct Hx as [<- | [<- | [<- | []]]]; split; reflexivity.
Qed.

(** What [POST /api/admin/users] does with a body that fits the columns
    and has a new email. *)
Lemma post_user_creates (w : world) (b : user_body) :
  faults w = [] ->
  consistent (db w) ->
  Js.includes ["normal_user"; "store_owner"; "system_admin"]
    (Js.default (ub_role b) "normal_user") = true ->
  name_check (ub_name b) = true ->
  strlen (ub_address b) <= 400 ->
  strlen (ub_email b) <= 255 ->
  (forall u, In u (users (db w)) -> u_email u <> ub_email b) ->
  exists account w1,
    run (post_user b) w
    = (res_status_json 201
         (Jobj [("message", Jstr "User created successfully");
                ("user", json_of_created_user account)]), w1)
    /\ faults w1 = [] /\ env_JWT_SECRET w1 = env_JWT_SECRET w
    /\ users (db w1) = (users (db w) ++ [account])%list
    /\ u_email account = ub_email b
    /\ u_role account = Js.default (ub_role b) "normal_user"
    /\ Auth.bcrypt_compare (ub_password b) (u_password_hash account) = true.
Proof.
  intros Hf Hc Hrole Hname Haddr Hemail Hnew.
  destruct (allowed_role _ Hrole) as [Hcheck Hfits].
  destruct (no_email_filter _ _ Hnew) as [Hnone Hnone'].
  unfold run, post_user, catch_500, try_catch, bind. cbv zeta.
  rewrite Hrole. cbn [negb].
  erewrite pool_query_ok; [| exact Hf | reflexivity |].
  2:{ cbn [exec Auth.select_user_id_by_email reading]. bind_params.
      cbn [Pg.text_in Pg.rbind Pg.ok]. rewrite Hnone. reflexivity. }
  cbn [map List.length Nat.ltb Nat.leb].
  unfold Auth.hash at 1.
  cbn [db now faults salts with_db with_faults with_salts].
  erewrite pool_query_ok; [| reflexivity | reflexivity |].
  2:{ cbn [exec Auth.insert_user db now faults salts with_db with_faults
             with_salts].
      bind_params. cbn [Pg.text_in Pg.rbind Pg.ok].
      rewrite (fits_name _ Hname), (fits_of_le _ _ Hemail),
        (fits_of_le _ _ (Auth.hash_length _ _ _)), (fits_of_le _ _ Haddr),
        Hfits, Hname, Hcheck, (fresh_user_id _ (users_seq_fresh _ Hc)),
        Hnone'.
      reflexivity. }
  eexists _, _. split; [reflexivity |].
  cbn [faults env_JWT_SECRET db users with_db with_faults with_salts
         with_users with_users_id_seq u_id u_email u_role u_password_hash].
  repeat split. apply Auth.compare_hash.
Qed.

End AdminAccount.


